(** * Olova reactive runtime: signals, effects, memos, element builder, mount

    A shallow embedding of [src/core/core.js] (the file [src/core/olova.js]
    carries the same code with doc comments).  The library functions
    ([setSignal], [setEffect], [setMemo], [html], [render]) are Rocq functions
    over an explicit store; the closures the library allocates (a signal's
    accessors, an effect's [runEffect], a reactive child's effect) are
    store cells addressed by index.  Callbacks supplied by the application
    are terms of a small expression language evaluated with fuel. *)

From Stdlib Require Import ZArith String List Lia Bool Ascii.
From stdpp Require Import base list option strings pretty.
Import ListNotations.
Set Warnings "-register-all".
Local Open Scope string_scope.
Local Open Scope list_scope.
Local Open Scope Z_scope.

(** ** JavaScript values and application callbacks *)

Inductive val : Type :=
  | VUndef
  | VNull
  | VBool (b : bool)
  | VNum (z : Z)
  | VStr (s : string)
  | VErr (msg : string)                  (* an Error object, field [message] *)
  | VFragment                            (* the [Fragment] symbol *)
  | VNode (n : nat)                      (* a DOM Node *)
  | VArr (items : list val)
  | VObj (fields : list (string * val))  (* a plain data object: a style map,
                                            [{__html}], properties *)
  | VRefObj (r : nat)                    (* an object with a [current] field *)
  | VRefFn (r : nat)                     (* the accessor made by [setRef] *)
  | VThenable                            (* a promise-like object *)
  | VFun (body : expr)                   (* an application closure *)
with expr : Type :=
  | EConst (v : val)
  | EArg (i : nat)                       (* i-th parameter of the closure *)
  | ERead (s : nat)                      (* [read()] of signal [s] *)
  | EWrite (s : nat) (e : expr)          (* [write(e)] of signal [s] *)
  | EEffect (body : expr)                (* [setEffect(() => body)] *)
  | EThrow (e : expr)
  | ESeq (e1 e2 : expr)
  | EIf (c e1 e2 : expr)
  | EAdd (e1 e2 : expr)
  | ELt (e1 e2 : expr)
  | ETick (c : nat)                      (* [n++] on application counter [c] *)
  | EHtml (tag : expr) (props : list (string * expr)) (children : list expr).

(** [typeof v === "function"] *)
Definition is_function (v : val) : bool :=
  match v with VFun _ | VRefFn _ => true | _ => false end.

(** [v === null || v === undefined] *)
Definition is_nullish (v : val) : bool :=
  match v with VUndef | VNull => true | _ => false end.

(** JavaScript truthiness ([!v] is its negation). *)
Definition truthy (v : val) : bool :=
  match v with
  | VUndef | VNull => false
  | VBool b => b
  | VNum z => negb (z =? 0)
  | VStr s => negb (String.eqb s "")
  | _ => true
  end.

(** A primitive in the sense of [render]: neither an object nor a function. *)
Definition is_primitive (v : val) : bool :=
  match v with
  | VUndef | VNull | VBool _ | VNum _ | VStr _ | VFragment => true
  | _ => false
  end.

Definition is_node (v : val) : bool :=
  match v with VNode _ => true | _ => false end.

Definition is_array (v : val) : bool :=
  match v with VArr _ => true | _ => false end.

(** [String(v)].  The text of a function and the class name of a node are
    host details; they are given fixed spellings. *)
Fixpoint to_string (v : val) : string :=
  match v with
  | VUndef => "undefined"
  | VNull => "null"
  | VBool true => "true"
  | VBool false => "false"
  | VNum z => pretty z
  | VStr s => s
  | VErr msg => "Error: " +:+ msg
  | VFragment => "Symbol(Fragment)"
  | VNode _ => "[object Node]"
  | VArr items =>
      (fix join (l : list val) : string :=
         match l with
         | [] => ""
         | [x] => if is_nullish x then "" else to_string x
         | x :: rest => (if is_nullish x then "" else to_string x) +:+ "," +:+ join rest
         end) items
  | VObj _ | VRefObj _ | VThenable => "[object Object]"
  | VRefFn _ | VFun _ => "[function]"
  end.

(** [Array.prototype.flat(Infinity)]: [flat_val] opens one item to any
    depth, [flat] does so for each item of an array. *)
Fixpoint flat_val (v : val) : list val :=
  match v with
  | VArr items =>
      (fix go (l : list val) : list val :=
         match l with
         | [] => []
         | x :: rest => flat_val x ++ go rest
         end) items
  | _ => [v]
  end.

Definition flat (l : list val) : list val := concat (map flat_val l).

(** ** The store *)

Inductive nodekind : Type :=
  | KElement (svg : bool) (tag : string)
  | KText
  | KComment
  | KFragment.

(** A DOM node.  [ndata] is the character data of a text or comment node;
    [nprops] records what is assigned to the element outside its attributes
    ([value], inline styles, [innerHTML], event listeners). *)
Record node : Type := mkNode {
  nkind : nodekind;
  ndata : string;
  nkids : list nat;
  nparent : option nat;
  nattrs : list (string * string);
  nprops : list (string * val)
}.

(** A signal cell: the captured [initialValue] variable and the [subscribers]
    set, kept in insertion order as a JavaScript [Set] is. *)
Record signal : Type := mkSignal {
  sig_value : val;
  sig_subs : list nat
}.

(** The body an effect's [runEffect] closure wraps, one constructor per
    place of the source that calls [setEffect]. *)
Inductive effbody : Type :=
  | UserEffect (fn : val)                               (* application code *)
  | MemoEffect (m : nat) (fn : val)                     (* [setMemo] *)
  | ChildEffect (parent placeholder : nat) (fn : val).  (* reactive child *)

(** [eff_runs] counts the calls of the effect's [runEffect]; it is
    instrumentation, read by no function of the model. *)
Record effect : Type := mkEffect {
  eff_body : effbody;
  eff_runs : nat
}.

Record state : Type := mkState {
  signals : list signal;
  effects : list effect;
  currentEffect : option nat;           (* [None]: undefined or null *)
  console : list (string * val);        (* [console.error] calls, oldest first *)
  counters : list Z;
  dom : list node;
  refs : list val
}.

Definition bump (ef : effect) : effect :=
  mkEffect (eff_body ef) (S (eff_runs ef)).

Definition empty_state : state := mkState [] [] None [] [] [] [].

Definition set_signals (f : list signal -> list signal) (st : state) : state :=
  mkState (f (signals st)) (effects st) (currentEffect st) (console st)
          (counters st) (dom st) (refs st).
Definition set_effects (f : list effect -> list effect) (st : state) : state :=
  mkState (signals st) (f (effects st)) (currentEffect st) (console st)
          (counters st) (dom st) (refs st).
Definition set_current (c : option nat) (st : state) : state :=
  mkState (signals st) (effects st) c (console st)
          (counters st) (dom st) (refs st).
Definition set_console (f : list (string * val) -> list (string * val)) (st : state) : state :=
  mkState (signals st) (effects st) (currentEffect st) (f (console st))
          (counters st) (dom st) (refs st).
Definition set_counters (f : list Z -> list Z) (st : state) : state :=
  mkState (signals st) (effects st) (currentEffect st) (console st)
          (f (counters st)) (dom st) (refs st).
Definition set_dom (f : list node -> list node) (st : state) : state :=
  mkState (signals st) (effects st) (currentEffect st) (console st)
          (counters st) (f (dom st)) (refs st).
Definition set_refs (f : list val -> list val) (st : state) : state :=
  mkState (signals st) (effects st) (currentEffect st) (console st)
          (counters st) (dom st) (f (refs st)).
(** ** Computations: a state monad with exceptions and fuel exhaustion *)

Inductive outcome (A : Type) : Type :=
  | Ok (a : A)
  | Throw (e : val)
  | Diverge.                             (* the fuel ran out *)
Arguments Ok {A} a.
Arguments Throw {A} e.
Arguments Diverge {A}.

Definition M (A : Type) : Type := state -> outcome A * state.

Definition ret {A} (a : A) : M A := fun st => (Ok a, st).
Definition throw {A} (e : val) : M A := fun st => (Throw e, st).
Definition diverge {A} : M A := fun st => (Diverge, st).
Definition bind {A B} (m : M A) (k : A -> M B) : M B :=
  fun st =>
    match m st with
    | (Ok a, st') => k a st'
    | (Throw e, st') => (Throw e, st')
    | (Diverge, st') => (Diverge, st')
    end.
(** [try { m } catch (error) { h error }] *)
Definition try_catch {A} (m : M A) (h : val -> M A) : M A :=
  fun st =>
    match m st with
    | (Throw e, st') => h e st'
    | r => r
    end.
Definition gets {A} (f : state -> A) : M A := fun st => (Ok (f st), st).
Definition modify (f : state -> state) : M unit := fun st => (Ok tt, f st).

Notation "x <- m ;; k" := (bind m (fun x => k))
  (at level 100, m at next level, right associativity).
Notation "m ;;; k" := (bind m (fun _ => k))
  (at level 100, right associativity).

(** [console.error(label, error)] *)
Definition console_error (label : string) (e : val) : M unit :=
  modify (set_console (fun l => l ++ [(label, e)])).

(** [try { m } catch (error) { console.error(label, error) }] *)
Definition try_report (label : string) (m : M unit) : M unit :=
  try_catch m (fun error => console_error label error).

(** [items.forEach(f)] *)
Fixpoint for_each {A} (f : A -> M unit) (items : list A) : M unit :=
  match items with
  | [] => ret tt
  | x :: rest => f x ;;; for_each f rest
  end.

(** Evaluation of a list of computations, left to right. *)
Fixpoint map_m {A B} (f : A -> M B) (items : list A) : M (list B) :=
  match items with
  | [] => ret []
  | x :: rest => y <- f x ;; ys <- map_m f rest ;; ret (y :: ys)
  end.

(** [error.message]: reading a property of null or undefined is a TypeError;
    other values without the field give undefined. *)
Definition message_of (e : val) : M val :=
  match e with
  | VErr msg => ret (VStr msg)
  | VUndef => throw (VErr "Cannot read properties of undefined (reading 'message')")
  | VNull => throw (VErr "Cannot read properties of null (reading 'message')")
  | VObj fields =>
      ret (default VUndef (snd <$> find (fun p => String.eqb (fst p) "message") fields))
  | _ => ret VUndef
  end.

(** The value is a Symbol, or an array holding one at some depth: what an
    implicit conversion to a string refuses. *)
Fixpoint has_symbol (v : val) : bool :=
  match v with
  | VFragment => true
  | VArr items =>
      (fix any (l : list val) : bool :=
         match l with
         | [] => false
         | x :: rest => has_symbol x || any rest
         end) items
  | _ => false
  end.

(** [`${v}`], the conversion of [v] inside a template literal: [String(v)],
    except that a Symbol is refused with a TypeError. *)
Definition template_text (v : val) : M string :=
  if has_symbol v then throw (VErr "Cannot convert a Symbol value to a string")
  else ret (to_string v).

(** ** The host DOM, as far as the library uses it *)

Module Dom.

Definition get_node (n : nat) : M node :=
  fun st =>
    match dom st !! n with
    | Some nd => (Ok nd, st)
    | None => (Throw (VErr "parameter is not of type 'Node'"), st)
    end.

Definition update_node (n : nat) (f : node -> node) : M unit :=
  modify (set_dom (alter f n)).

Definition alloc_node (nd : node) : M nat :=
  fun st => (Ok (length (dom st)), set_dom (fun d => d ++ [nd]) st).

Definition with_kids (f : list nat -> list nat) (nd : node) : node :=
  mkNode (nkind nd) (ndata nd) (f (nkids nd)) (nparent nd) (nattrs nd) (nprops nd).
Definition with_parent (p : option nat) (nd : node) : node :=
  mkNode (nkind nd) (ndata nd) (nkids nd) p (nattrs nd) (nprops nd).
Definition with_data (s : string) (nd : node) : node :=
  mkNode (nkind nd) s (nkids nd) (nparent nd) (nattrs nd) (nprops nd).
Definition with_attrs (f : list (string * string) -> list (string * string)) (nd : node) : node :=
  mkNode (nkind nd) (ndata nd) (nkids nd) (nparent nd) (f (nattrs nd)) (nprops nd).
Definition with_props (f : list (string * val) -> list (string * val)) (nd : node) : node :=
  mkNode (nkind nd) (ndata nd) (nkids nd) (nparent nd) (nattrs nd) (f (nprops nd)).

(** Names the DOM accepts for elements and attributes: a letter, [_] or [:]
    first, and no white space, [/], [>] or [=] after it. *)
Definition name_start (c : ascii) : bool :=
  let n := nat_of_ascii c in
  ((65 <=? n) && (n <=? 90) || (97 <=? n) && (n <=? 122) || (n =? 95) || (n =? 58))%nat.
Definition name_char (c : ascii) : bool :=
  let n := nat_of_ascii c in
  negb ((n <=? 32) || (n =? 47) || (n =? 62) || (n =? 61))%nat.
Definition valid_name (s : string) : bool :=
  match s with
  | EmptyString => false
  | String c rest => name_start c && forallb name_char (list_ascii_of_string rest)
  end.

Definition createTextNode (s : string) : M nat :=
  alloc_node (mkNode KText s [] None [] []).
Definition createComment (s : string) : M nat :=
  alloc_node (mkNode KComment s [] None [] []).
Definition createDocumentFragment : M nat :=
  alloc_node (mkNode KFragment "" [] None [] []).
(** [createElement] and [createElementNS] with the SVG namespace *)
Definition createElement (svg : bool) (tag : string) : M nat :=
  if valid_name tag
  then alloc_node (mkNode (KElement svg tag) "" [] None [] [])
  else throw (VErr "InvalidCharacterError").

Definition can_have_kids (nd : node) : bool :=
  match nkind nd with KElement _ _ | KFragment => true | _ => false end.

(** [a] is [n] or one of its ancestors. *)
Fixpoint inclusive_ancestor (fuel : nat) (d : list node) (a n : nat) : bool :=
  (a =? n)%nat ||
  match fuel with
  | O => false
  | S fuel' =>
      match d !! n with
      | Some nd =>
          match nparent nd with
          | Some p => inclusive_ancestor fuel' d a p
          | None => false
          end
      | None => false
      end
  end.

Definition remove_nat (x : nat) (l : list nat) : list nat :=
  filter (fun y => y <> x) l.

(** Take [n] out of its parent, if it has one. *)
Definition detach (n : nat) : M unit :=
  nd <- get_node n ;;
  match nparent nd with
  | Some p =>
      update_node p (with_kids (remove_nat n)) ;;;
      update_node n (with_parent None)
  | None => ret tt
  end.

Definition check_insert (parent child : nat) : M unit :=
  pn <- get_node parent ;;
  _ <- get_node child ;;
  d <- gets dom ;;
  if negb (can_have_kids pn) || inclusive_ancestor (length d) d child parent
  then throw (VErr "HierarchyRequestError")
  else ret tt.

(** The nodes an insertion of [child] puts in place: the children of a
    fragment, which are taken out of it, or the node itself, which is taken
    out of its former parent. *)
Definition take_for_insert (child : nat) : M (list nat) :=
  cn <- get_node child ;;
  match nkind cn with
  | KFragment =>
      update_node child (with_kids (fun _ => [])) ;;;
      ret (nkids cn)
  | _ => detach child ;;; ret [child]
  end.

Fixpoint insert_before_ref (r : nat) (new : list nat) (kids : list nat) : list nat :=
  match kids with
  | [] => new
  | k :: rest =>
      if (k =? r)%nat then new ++ k :: rest
      else k :: insert_before_ref r new rest
  end.

Definition insert_at (before : option nat) (new : list nat) (kids : list nat) : list nat :=
  match before with
  | None => kids ++ new
  | Some r => insert_before_ref r new kids
  end.

(** [parent.insertBefore(child, before)]; [before = None] is a null
    reference node, which appends. *)
Definition insertBefore (parent child : nat) (before : option nat) : M unit :=
  check_insert parent child ;;;
  match before with
  | Some r =>
      rn <- get_node r ;;
      if decide (nparent rn = Some parent) then ret tt
      else throw (VErr "NotFoundError")
  | None => ret tt
  end ;;;
  new <- take_for_insert child ;;
  for_each (fun k => update_node k (with_parent (Some parent))) new ;;;
  update_node parent (with_kids (insert_at before new)).

Definition appendChild (parent child : nat) : M unit :=
  insertBefore parent child None.

Definition removeChild (parent child : nat) : M unit :=
  cn <- get_node child ;;
  if decide (nparent cn = Some parent) then detach child
  else throw (VErr "NotFoundError").

(** [n.nextSibling] *)
Fixpoint after (n : nat) (kids : list nat) : option nat :=
  match kids with
  | [] => None
  | k :: rest => if (k =? n)%nat then head rest else after n rest
  end.

Definition nextSibling (n : nat) : M (option nat) :=
  nd <- get_node n ;;
  match nparent nd with
  | Some p => pn <- get_node p ;; ret (after n (nkids pn))
  | None => ret None
  end.

(** [n.textContent = s] *)
Definition set_textContent (n : nat) (s : string) : M unit :=
  nd <- get_node n ;;
  match nkind nd with
  | KText | KComment => update_node n (with_data s)
  | _ =>
      for_each (fun k => update_node k (with_parent None)) (nkids nd) ;;;
      update_node n (with_kids (fun _ => [])) ;;;
      if String.eqb s "" then ret tt
      else t <- createTextNode s ;; appendChild n t
  end.

End Dom.

(** ** String helpers used by the element builder *)

Definition lower_ascii (c : ascii) : ascii :=
  let n := nat_of_ascii c in
  if ((65 <=? n) && (n <=? 90))%nat then ascii_of_nat (n + 32) else c.

(** [s.toLowerCase()] on ASCII text *)
Fixpoint to_lower (s : string) : string :=
  match s with
  | EmptyString => EmptyString
  | String c rest => String (lower_ascii c) (to_lower rest)
  end.

(** [s.split(":")] *)
Fixpoint split_colon (s : string) : list string :=
  match s with
  | EmptyString => [EmptyString]
  | String c rest =>
      if Ascii.eqb c ":"%char then EmptyString :: split_colon rest
      else match split_colon rest with
           | [] => [String c EmptyString]
           | w :: ws => String c w :: ws
           end
  end.

(** [s.slice(2)] *)
Definition slice2 (s : string) : string :=
  match s with
  | String _ (String _ rest) => rest
  | _ => EmptyString
  end.

Definition SVG_TAGS : list string :=
  ["svg"; "path"; "circle"; "rect"; "line"; "polygon"; "polyline"; "ellipse";
   "g"; "text"; "defs"; "filter"; "mask"; "marker"; "pattern";
   "linearGradient"; "radialGradient"; "stop"; "use"; "clipPath"; "textPath";
   "tspan"; "foreignObject"].

Definition str_mem (s : string) (l : list string) : bool :=
  existsb (String.eqb s) l.

(** [propertyValue[name]] on an object literal; undefined when absent. *)
Definition field (name : string) (v : val) : val :=
  match v with
  | VObj fields =>
      default VUndef (snd <$> find (fun p => String.eqb (fst p) name) fields)
  | _ => VUndef
  end.

(** [typeof v === "object"] *)
Definition is_object (v : val) : bool :=
  match v with
  | VNull | VErr _ | VNode _ | VArr _ | VObj _ | VRefObj _ | VThenable => true
  | _ => false
  end.

(** [Object.entries(v)] *)
Definition entries (v : val) : list (string * val) :=
  match v with
  | VObj fields => fields
  | VArr items => imap (fun i x => (pretty i, x)) items
  | VStr s =>
      imap (fun i c => (pretty i, VStr (String c EmptyString))) (list_ascii_of_string s)
  | _ => []
  end.

Definition set_assoc {A} (k : string) (x : A) (l : list (string * A)) : list (string * A) :=
  filter (fun p => negb (String.eqb (fst p) k)) l ++ [(k, x)].
Definition del_assoc {A} (k : string) (l : list (string * A)) : list (string * A) :=
  filter (fun p => negb (String.eqb (fst p) k)) l.

Module Element.

(** [element.setAttribute(name, value)] *)
Definition setAttribute (el : nat) (name : string) (v : val) : M unit :=
  if Dom.valid_name name
  then Dom.update_node el (Dom.with_attrs (set_assoc name (to_string v)))
  else throw (VErr "InvalidCharacterError").

(** [element.setAttributeNS(namespace, name, value)] *)
Definition setAttributeNS (el : nat) (ns name : string) (v : val) : M unit :=
  if Dom.valid_name name
  then Dom.update_node el (Dom.with_attrs (set_assoc (ns +:+ " " +:+ name) (to_string v)))
  else throw (VErr "InvalidCharacterError").

Definition removeAttribute (el : nat) (name : string) : M unit :=
  Dom.update_node el (Dom.with_attrs (del_assoc name)).

(** Assignments to [element.value], [element.style[k]], [element.innerHTML]
    and [addEventListener]: recorded under a key. *)
Definition set_prop (el : nat) (key : string) (v : val) : M unit :=
  Dom.update_node el (Dom.with_props (fun l => l ++ [(key, v)])).

End Element.

(** ** The library, over the evaluator of application code

    [ev] evaluates the body of an application closure on its arguments and
    [run] calls an effect's [runEffect] closure; both are tied to the fuelled
    evaluator below. *)

Section Library.

Variable ev : expr -> list val -> M val.
Variable run : nat -> M val.

Definition get_signal (s : nat) : M signal :=
  fun st =>
    match signals st !! s with
    | Some sg => (Ok sg, st)
    | None => (Throw (VErr "ReferenceError: signal is not defined"), st)
    end.

Definition get_effect (e : nat) : M effect :=
  fun st =>
    match effects st !! e with
    | Some ef => (Ok ef, st)
    | None => (Throw (VErr "TypeError: not a function"), st)
    end.

(** [subscribers.add(e)] *)
Definition set_add (e : nat) (subs : list nat) : list nat :=
  if decide (e ∈ subs) then subs else subs ++ [e].

(** The accessor [setRef] returns:
    [(element) => { if (element !== undefined) current = element; return current; }] *)
Definition ref_accessor (r : nat) (args : list val) : M val :=
  let element := default VUndef (head args) in
  (match element with
   | VUndef => ret tt
   | _ => modify (set_refs (<[r := element]>))
   end) ;;;
  gets (fun st => default VNull (refs st !! r)).

(** [setRef()], lines 356-362: a fresh slot holding null, and its accessor. *)
Definition setRef : M val :=
  fun st => (Ok (VRefFn (length (refs st))), set_refs (fun l => l ++ [VNull]) st).

(** [f(...args)] *)
Definition call_fn (f : val) (args : list val) : M val :=
  match f with
  | VFun body => ev body args
  | VRefFn r => ref_accessor r args
  | _ => throw (VErr "TypeError: not a function")
  end.

(** [setSignal(initialValue)]: the new cell's index stands for the pair of
    accessors. *)
Definition setSignal (initialValue : val) : M nat :=
  fun st =>
    (Ok (length (signals st)),
     set_signals (fun l => l ++ [mkSignal initialValue []]) st).

(** The read accessor, lines 7-15. *)
Definition read (s : nat) : M val :=
  try_catch
    (sg <- get_signal s ;;
     cur <- gets currentEffect ;;
     (match cur with
      | Some e =>
          modify (set_signals (alter (fun g => mkSignal (sig_value g) (set_add e (sig_subs g))) s))
      | None => ret tt
      end) ;;;
     ret (sig_value sg))
    (fun error => console_error "Error in signal getter:" error ;;; throw error).

(** The callback of [forEach] in the write accessor, lines 20-26. *)
Definition notify (subscriberFunction : nat) : M unit :=
  try_report "Error in signal subscriber:" (run subscriberFunction ;;; ret tt).

(** The write accessor, lines 16-32. *)
Definition write (s : nat) (newValue : val) : M val :=
  try_catch
    (sg <- get_signal s ;;
     v <- (if is_function newValue then call_fn newValue [sig_value sg]
           else ret newValue) ;;
     modify (set_signals (alter (fun g => mkSignal v (sig_subs g)) s)) ;;;
     sg' <- get_signal s ;;
     for_each notify (sig_subs sg') ;;;
     sg'' <- get_signal s ;;
     ret (sig_value sg''))
    (fun error => console_error "Error in signal setter:" error ;;; throw error).

(** The [while (placeholderNode.nextSibling)] loop, lines 225-227; a child
    list of [n] nodes needs at most [n] rounds. *)
Fixpoint remove_following (rounds : nat) (parentElement placeholderNode : nat) : M unit :=
  next <- Dom.nextSibling placeholderNode ;;
  match next with
  | None => ret tt
  | Some sib =>
      match rounds with
      | O => diverge
      | S rounds' =>
          Dom.removeChild parentElement sib ;;;
          remove_following rounds' parentElement placeholderNode
      end
  end.

(** [item instanceof Node ? item : document.createTextNode(String(item))] *)
Definition node_of (item : val) : M nat :=
  match item with
  | VNode n => ret n
  | _ => Dom.createTextNode (to_string item)
  end.

(** A fragment holding the non-null items of a flattened collection. *)
Definition fragment_of (items : list val) : M nat :=
  frag <- Dom.createDocumentFragment ;;
  for_each
    (fun item =>
       if is_nullish item then ret tt
       else n <- node_of item ;; Dom.appendChild frag n)
    (flat items) ;;;
  ret frag.

(** The effect of a reactive child, lines 205-248. *)
Definition child_effect (parentElement placeholderNode : nat) (childElement : val) : M val :=
  try_catch
    (functionResult <- call_fn childElement [] ;;
     if is_nullish functionResult then
       Dom.set_textContent placeholderNode "" ;;; ret VUndef
     else
       match functionResult with
       | VArr items =>
           resultFragment <- fragment_of items ;;
           rounds <- gets (fun st => length (dom st)) ;;
           remove_following rounds parentElement placeholderNode ;;;
           next <- Dom.nextSibling placeholderNode ;;
           Dom.insertBefore parentElement resultFragment next ;;;
           ret VUndef
       | VNode n =>
           rounds <- gets (fun st => length (dom st)) ;;
           remove_following rounds parentElement placeholderNode ;;;
           next <- Dom.nextSibling placeholderNode ;;
           Dom.insertBefore parentElement n next ;;;
           ret VUndef
       | _ =>
           Dom.set_textContent placeholderNode (to_string functionResult) ;;;
           ret VUndef
       end)
    (fun error =>
       console_error "Error in reactive child function:" error ;;;
       msg <- message_of error ;;
       text <- template_text msg ;;
       Dom.set_textContent placeholderNode ("Error: " +:+ text) ;;;
       ret VUndef).

(** What [effectFunction()] does, by the place that created the effect. *)
Definition exec_body (b : effbody) : M val :=
  match b with
  | UserEffect fn => call_fn fn []
  | MemoEffect m fn =>
      try_catch
        (v <- call_fn fn [] ;; write m v ;;; ret VUndef)
        (fun error => console_error "Error in memo function:" error ;;; throw error)
  | ChildEffect parentElement placeholderNode fn =>
      child_effect parentElement placeholderNode fn
  end.

(** The [runEffect] closure of effect [e], lines 37-48. *)
Definition runEffect_body (e : nat) : M val :=
  modify (set_effects (alter bump e)) ;;;
  ef <- get_effect e ;;
  try_catch
    (modify (set_current (Some e)) ;;;
     result <- exec_body (eff_body ef) ;;
     modify (set_current None) ;;;
     ret result)
    (fun error =>
       modify (set_current None) ;;;
       console_error "Error in effect:" error ;;;
       throw error).

(** [setEffect(effectFunction)], lines 36-54. *)
Definition setEffect (b : effbody) : M val :=
  e <- (fun st => (Ok (length (effects st)),
                   set_effects (fun l => l ++ [mkEffect b O]) st)) ;;
  try_report "Error initializing effect:" (run e ;;; ret tt) ;;;
  ret VUndef.

(** [setMemo(memoFunction)], lines 56-72; the result is the read accessor
    of the memo's signal. *)
Definition setMemo (memoFunction : val) : M val :=
  try_catch
    (m <- setSignal VUndef ;;
     setEffect (MemoEffect m memoFunction) ;;;
     ret (VFun (ERead m)))
    (fun error =>
       console_error "Error creating memo:" error ;;;
       ret (VFun (EConst VUndef))).

(** One property of the element, the body of the loop of lines 132-185. *)
Definition apply_property (isSvgElement : bool) (element : nat)
    (propertyName : string) (propertyValue : val) : M unit :=
  if is_nullish propertyValue then ret tt
  else if String.eqb propertyName "value" then
    Element.set_prop element "value" propertyValue
  else if String.eqb propertyName "className" || String.eqb propertyName "class" then
    Element.setAttribute element "class" propertyValue
  else if String.eqb propertyName "style" && is_object propertyValue then
    for_each
      (fun kv => Element.set_prop element ("style." +:+ fst kv) (snd kv))
      (entries propertyValue)
  else if String.eqb propertyName "dangerouslySetInnerHTML"
          && truthy (field "__html" propertyValue) then
    Element.set_prop element "innerHTML" (field "__html" propertyValue)
  else if String.eqb propertyName "ref" then
    if is_function propertyValue then
      call_fn propertyValue [VNode element] ;;; ret tt
    else if truthy propertyValue then
      match propertyValue with
      | VRefObj r => modify (set_refs (<[r := VNode element]>))
      | VObj _ | VErr _ | VNode _ | VArr _ | VThenable =>
          (* no [current] field, or one on a data object, which the store
             does not hold *)
          ret tt
      | _ => throw (VErr "TypeError: cannot use 'in' operator on a primitive")
      end
    else ret tt
  else if String.prefix "on" propertyName then
    Element.set_prop element
      ("on:" +:+ to_lower (slice2 propertyName)) propertyValue
  else if isSvgElement then
    match split_colon propertyName with
    | namespace :: attrName :: _ =>
        if String.eqb namespace "xlink" then
          Element.setAttributeNS element "http://www.w3.org/1999/xlink" attrName propertyValue
        else if String.eqb namespace "xml" then
          Element.setAttributeNS element "http://www.w3.org/XML/1998/namespace" attrName propertyValue
        else Element.setAttribute element propertyName propertyValue
    | _ => Element.setAttribute element propertyName propertyValue
    end
  else
    match propertyValue with
    | VBool true => Element.setAttribute element propertyName (VStr "")
    | VBool false => Element.removeAttribute element propertyName
    | _ => Element.setAttribute element propertyName propertyValue
    end.

(** The inner function [appendChild] of [html], lines 188-282, on a child
    that is not an array. *)
Definition bind_item (parentElement : nat) (childElement : val) : M unit :=
  try_catch
    (if is_nullish childElement then ret tt
     else
       match childElement with
       | VNode n => Dom.appendChild parentElement n
       | VFun _ | VRefFn _ =>
           placeholderNode <- Dom.createTextNode "" ;;
           Dom.appendChild parentElement placeholderNode ;;;
           setEffect (ChildEffect parentElement placeholderNode childElement) ;;;
           ret tt
       | VThenable =>
           (* the callbacks given to [then] and [catch] run in a later turn *)
           placeholderNode <- Dom.createTextNode "" ;;
           Dom.appendChild parentElement placeholderNode
       | _ =>
           t <- Dom.createTextNode (to_string childElement) ;;
           Dom.appendChild parentElement t
       end)
    (fun error => console_error "Error appending child:" error).

(** The inner function [appendChild] of [html] on any child. *)
Definition bind_child (parentElement : nat) (childElement : val) : M unit :=
  match childElement with
  | VArr items =>
      try_catch
        (for_each (bind_item parentElement) (flat items))
        (fun error => console_error "Error appending child:" error)
  | _ => bind_item parentElement childElement
  end.

(** The body of the outer [try] of [html], lines 76-285. *)
Definition html_body (tagName properties : val) (children : list val) : M val :=
  if is_function tagName then
    try_catch
      (call_fn tagName (properties :: children))
      (fun error =>
         console_error "Error in function component:" error ;;;
         msg <- message_of error ;;
         text <- template_text msg ;;
         c <- Dom.createComment ("Error in component: " +:+ text) ;;
         ret (VNode c))
  else if (match tagName with VFragment => true | _ => false end)
          || negb (truthy tagName) then
    documentFragment <- fragment_of children ;;
    ret (VNode documentFragment)
  else
    let isSvgElement :=
      match tagName with VStr t => str_mem t SVG_TAGS | _ => false end in
    element <- Dom.createElement isSvgElement (to_string tagName) ;;
    (if truthy properties then
       for_each
         (fun kv => apply_property isSvgElement element (fst kv) (snd kv))
         (entries properties)
     else ret tt) ;;;
    for_each (bind_child element) children ;;;
    ret (VNode element).

(** [html(tagName, properties, ...children)], lines 74-290. *)
Definition html (tagName properties : val) (children : list val) : M val :=
  try_catch
    (html_body tagName properties children)
    (fun error =>
       console_error "Error creating element:" error ;;;
       msg <- message_of error ;;
       text <- template_text msg ;;
       c <- Dom.createComment ("Error creating element: " +:+ text) ;;
       ret (VNode c)).

End Library.

(** ** Application code *)

(** [a + b]: numbers add; otherwise the operands are concatenated as
    strings, which is JavaScript's result when either is a string. *)
Definition add_val (a b : val) : val :=
  match a, b with
  | VNum x, VNum y => VNum (x + y)
  | _, _ => VStr (to_string a +:+ to_string b)
  end.

(** [a < b] on numbers; false on other operands. *)
Definition lt_val (a b : val) : val :=
  match a, b with
  | VNum x, VNum y => VBool (x <? y)
  | _, _ => VBool false
  end.

(** The evaluator of closure bodies and the caller of [runEffect] closures.
    Each call, of a closure or into an expression's operand, takes one unit
    of fuel. *)
Fixpoint eval (fuel : nat) (e : expr) (args : list val) : M val :=
  match fuel with
  | O => diverge
  | S n =>
      match e with
      | EConst v => ret v
      | EArg i => ret (default VUndef (args !! i))
      | ERead s => read s
      | EWrite s e1 => v <- eval n e1 args ;; write (eval n) (runEffect n) s v
      | EEffect body => setEffect (runEffect n) (UserEffect (VFun body))
      | EThrow e1 => v <- eval n e1 args ;; throw v
      | ESeq e1 e2 => eval n e1 args ;;; eval n e2 args
      | EIf c e1 e2 =>
          b <- eval n c args ;;
          if truthy b then eval n e1 args else eval n e2 args
      | EAdd e1 e2 =>
          a <- eval n e1 args ;; b <- eval n e2 args ;; ret (add_val a b)
      | ELt e1 e2 =>
          a <- eval n e1 args ;; b <- eval n e2 args ;; ret (lt_val a b)
      | ETick c =>
          (* the statement [n++;] *)
          cs <- gets counters ;;
          match cs !! c with
          | Some z => modify (set_counters (<[c := z + 1]>)) ;;; ret VUndef
          | None => throw (VErr "ReferenceError: counter is not defined")
          end
      | EHtml tag props children =>
          t <- eval n tag args ;;
          ps <- map_m (fun kv => v <- eval n (snd kv) args ;; ret (fst kv, v)) props ;;
          cs <- map_m (fun c => eval n c args) children ;;
          html (eval n) (runEffect n) t
               (match ps with [] => VNull | _ => VObj ps end) cs
      end
  end
with runEffect (fuel : nat) (e : nat) : M val :=
  match fuel with
  | O => diverge
  | S n => runEffect_body (eval n) (runEffect n) e
  end.

(** The library entry points at a given fuel. *)
Definition write_at (fuel : nat) : nat -> val -> M val :=
  write (eval fuel) (runEffect fuel).
Definition setEffect_at (fuel : nat) (effectFunction : val) : M val :=
  setEffect (runEffect fuel) (UserEffect effectFunction).
Definition setMemo_at (fuel : nat) : val -> M val :=
  setMemo (runEffect fuel).
Definition html_at (fuel : nat) : val -> val -> list val -> M val :=
  html (eval fuel) (runEffect fuel).

(** ** Mounting *)

Section Mount.

(** [document.querySelector]: the document's answer for a selector on the
    present tree, [Throw] for a selector the host rejects. *)
Variable querySelector : list node -> string -> outcome (option nat).

Definition query (selector : string) : M (option nat) :=
  fun st => (querySelector (dom st) selector, st).

(** [rootElement.appendChild(n)] on whatever [rootElement] is. *)
Definition root_append (rootElement : val) (n : nat) : M unit :=
  match rootElement with
  | VNode r => Dom.appendChild r n
  | _ => throw (VErr "TypeError: rootElement.appendChild is not a function")
  end.

(** [rootElement.textContent = ""] on whatever [rootElement] is. *)
Definition root_clear (rootElement : val) : M unit :=
  match rootElement with
  | VNode r => Dom.set_textContent r ""
  | VUndef | VNull | VBool _ | VNum _ | VStr _ | VFragment =>
      throw (VErr "TypeError: cannot create property 'textContent'")
  | _ => ret tt
  end.

(** [const { name = dflt } = options] *)
Definition option_or (name : string) (dflt options : val) : val :=
  match field name options with VUndef => dflt | v => v end.

(** Lines 302-314 of [render]: the options, clearing the root, and the
    [beforeRender] hook. *)
Definition render_prepare (fuel : nat) (rootElement options : val) : M unit :=
  options <- (match options with
              | VUndef => ret (VObj [])
              | VNull => throw (VErr "TypeError: cannot destructure null")
              | _ => ret options
              end) ;;
  let clear := option_or "clear" (VBool true) options in
  let hydrate := option_or "hydrate" (VBool false) options in
  let beforeRender := option_or "beforeRender" VNull options in
  (if truthy clear && negb (truthy hydrate)
   then root_clear rootElement else ret tt) ;;;
  (if truthy beforeRender && is_function beforeRender then
     try_catch
       (call_fn (eval fuel) beforeRender [rootElement] ;;; ret tt)
       (fun error => console_error "Error in beforeRender hook:" error)
   else ret tt).

(** [typeof component === "function" ? component() : component] *)
Definition view_of (fuel : nat) (component : val) : M val :=
  if is_function component then call_fn (eval fuel) component []
  else ret component.

(** Lines 316-349 of [render]: the view content and its mounting. *)
Definition render_view (fuel : nat) (component rootElement : val) : M val :=
  view <-
    try_catch
      (v <- view_of fuel component ;; ret (inl v))
      (fun error =>
         console_error "Error rendering component:" error ;;;
         errorNode <- Dom.createElement false "div" ;;
         Element.setAttribute errorNode "class" (VStr "olova-error") ;;;
         msg <- message_of error ;;
         text <- template_text msg ;;
         Dom.set_textContent errorNode ("Render Error: " +:+ text) ;;;
         root_append rootElement errorNode ;;;
         ret (inr errorNode)) ;;
  match view with
  | inr errorNode => ret (VNode errorNode)
  | inl viewContent =>
      if negb (truthy viewContent) then ret VNull
      else
        match viewContent with
        | VArr items =>
            contentFragment <- Dom.createDocumentFragment ;;
            for_each
              (fun item =>
                 if truthy item
                 then n <- node_of item ;; Dom.appendChild contentFragment n
                 else ret tt)
              (flat items) ;;;
            root_append rootElement contentFragment ;;;
            ret (VNode contentFragment)
        | _ =>
            n <- node_of viewContent ;;
            root_append rootElement n ;;;
            ret viewContent
        end
  end.

(** [render(component, rootElement, options)], lines 292-354. *)
Definition render (fuel : nat) (component rootElement options : val) : M val :=
  try_catch
    (resolved <-
       (match rootElement with
        | VStr selector =>
            found <- query selector ;;
            match found with
            | Some r => ret (Some (VNode r))
            | None =>
                console_error "Cannot find element matching selector: null" VUndef ;;;
                ret None
            end
        | _ => ret (Some rootElement)
        end) ;;
     match resolved with
     | None => ret VUndef
     | Some rootElement =>
         render_prepare fuel rootElement options ;;;
         render_view fuel component rootElement
     end)
    (fun error => console_error "Error in render function:" error ;;; ret VNull).

End Mount.

(** ** Observations on a store *)

Definition value_of (s : nat) (st : state) : option val :=
  sig_value <$> signals st !! s.
Definition subs_of (s : nat) (st : state) : list nat :=
  default [] (sig_subs <$> signals st !! s).
Definition runs_of (e : nat) (st : state) : nat :=
  default O (eff_runs <$> effects st !! e).
Definition kids_of (n : nat) (st : state) : list nat :=
  default [] (nkids <$> dom st !! n).
Definition data_of (n : nat) (st : state) : string :=
  default "" (ndata <$> dom st !! n).

(** ** Callbacks that stay out of the reactive core

    A [quiet] body reads signals, counts and computes, and may throw; it
    writes no signal, creates no effect and builds no element. *)
Fixpoint quiet (e : expr) : bool :=
  match e with
  | EConst _ | EArg _ | ERead _ | ETick _ => true
  | EThrow e1 => quiet e1
  | ESeq e1 e2 | EAdd e1 e2 | ELt e1 e2 => quiet e1 && quiet e2
  | EIf c e1 e2 => quiet c && quiet e1 && quiet e2
  | EWrite _ _ | EEffect _ | EHtml _ _ _ => false
  end.

(** Nesting depth: [eval] needs more fuel than this on a quiet body. *)
Fixpoint depth (e : expr) : nat :=
  match e with
  | EThrow e1 => S (depth e1)
  | ESeq e1 e2 | EAdd e1 e2 | ELt e1 e2 => S (Nat.max (depth e1) (depth e2))
  | EIf c e1 e2 => S (Nat.max (depth c) (Nat.max (depth e1) (depth e2)))
  | _ => O
  end.

Definition body_of (e : nat) (st : state) : option effbody :=
  eff_body <$> effects st !! e.

(** The value of a quiet body as a function of the signals' values [vals]
    and the number [nc] of declared counters; [quiet_eval] shows that [eval]
    returns it. *)
Fixpoint denote (vals : list val) (nc : nat) (e : expr) (args : list val) : outcome val :=
  match e with
  | EConst v => Ok v
  | EArg i => Ok (default VUndef (args !! i))
  | ERead s =>
      match vals !! s with
      | Some v => Ok v
      | None => Throw (VErr "ReferenceError: signal is not defined")
      end
  | ETick c =>
      if (c <? nc)%nat then Ok VUndef
      else Throw (VErr "ReferenceError: counter is not defined")
  | EThrow e1 =>
      match denote vals nc e1 args with
      | Ok v => Throw v
      | r => r
      end
  | ESeq e1 e2 =>
      match denote vals nc e1 args with
      | Ok _ => denote vals nc e2 args
      | r => r
      end
  | EIf c e1 e2 =>
      match denote vals nc c args with
      | Ok b => if truthy b then denote vals nc e1 args else denote vals nc e2 args
      | r => r
      end
  | EAdd e1 e2 =>
      match denote vals nc e1 args with
      | Ok a =>
          match denote vals nc e2 args with
          | Ok b => Ok (add_val a b)
          | r => r
          end
      | r => r
      end
  | ELt e1 e2 =>
      match denote vals nc e1 args with
      | Ok a =>
          match denote vals nc e2 args with
          | Ok b => Ok (lt_val a b)
          | r => r
          end
      | r => r
      end
  | EWrite _ _ | EEffect _ | EHtml _ _ _ => Diverge
  end.

(** The callable of a reactive child yields text: neither a node nor a
    collection. *)
Definition text_valued (body : expr) : Prop :=
  forall vals nc v, denote vals nc body [] = Ok v ->
    is_node v = false /\ is_array v = false.

(** Effect bodies that start no other effect run: a quiet application
    closure, or a reactive child whose callable is quiet and yields text. *)
Inductive quiet_body : effbody -> Prop :=
  | QuietUser body :
      quiet body = true -> quiet_body (UserEffect (VFun body))
  | QuietChild p ph body :
      quiet body = true -> text_valued body ->
      quiet_body (ChildEffect p ph (VFun body)).

Definition quiet_effect (st : state) (e : nat) : Prop :=
  exists b, body_of e st = Some b /\ quiet_body b.

(** Fuel that runs any quiet effect of the store to its end. *)
Definition body_depth (b : effbody) : nat :=
  match b with
  | UserEffect (VFun body) | ChildEffect _ _ (VFun body) => depth body
  | _ => O
  end.
Definition effects_depth (st : state) : nat :=
  list_max (map (fun ef => body_depth (eff_body ef)) (effects st)).

Definition values (st : state) : list val := map sig_value (signals st).

(** What a quiet body may change in the store: subscriptions of the current
    effect, counters, console lines, and the text of DOM nodes. *)
Record quiet_step (st st' : state) : Prop := mkQuietStep {
  qs_values : values st' = values st;
  qs_effects : effects st' = effects st;
  qs_current : currentEffect st' = currentEffect st;
  qs_refs : refs st' = refs st;
  qs_counters : length (counters st') = length (counters st);
  qs_console : exists extra, console st' = console st ++ extra;
  qs_subs : forall s,
      subs_of s st' = subs_of s st \/
      exists c, currentEffect st = Some c /\ subs_of s st' = set_add c (subs_of s st)
}.

(** An argument of the write accessor that is a value or a quiet updater. *)
Definition quiet_updater (next : val) : Prop :=
  match next with
  | VFun body => quiet body = true
  | VRefFn _ => False
  | _ => True
  end.
Definition updater_depth (next : val) : nat :=
  match next with VFun body => depth body | _ => O end.

(** [typeof next === "function" ? next(current) : next], at a given fuel. *)
Definition next_value (fuel : nat) (next cur : val) (st : state) : outcome val :=
  if is_function next then fst (call_fn (eval fuel) next [cur] st) else Ok next.

(** Fuel for a write whose updater and subscribers are quiet. *)
Definition write_fuel (st : state) (next : val) : nat :=
  S (S (Nat.max (effects_depth st) (updater_depth next))).

(** A computation that ends, by returning or throwing, after a quiet step. *)
Definition benign {A} (m : M A) : Prop :=
  forall st r st', m st = (r, st') -> r <> Diverge /\ quiet_step st st'.

(** What one call of a quiet effect's [runEffect] leaves behind. *)
Record ran (tail : val -> list (string * val)) (e : nat) (r : outcome val)
    (st st' : state) : Prop := mkRan {
  ran_values : values st' = values st;
  ran_effects : effects st' = alter bump e (effects st);
  ran_current : currentEffect st' = None;
  ran_refs : refs st' = refs st;
  ran_counters : length (counters st') = length (counters st);
  ran_console : exists extra,
      console st' = console st ++ extra ++
        match r with Throw err => tail err | _ => [] end;
  ran_subs : forall s,
      subs_of s st' = subs_of s st \/ subs_of s st' = set_add e (subs_of s st)
}.

(** Subscriber sets only grow from [st] to [st'], by effects among [l],
    and stay duplicate-free. *)
Definition subs_extend (l : list nat) (st st' : state) : Prop :=
  forall t, exists suffix,
    subs_of t st' = subs_of t st ++ suffix
    /\ (forall x, x ∈ suffix -> x ∈ l)
    /\ (NoDup (subs_of t st) -> NoDup (subs_of t st')).

(** What the fan-out of a write over the quiet subscribers [l] leaves. *)
Record fanned (l : list nat) (st st' : state) : Prop := mkFanned {
  fan_values : values st' = values st;
  fan_bodies : forall e, body_of e st' = body_of e st;
  fan_runs : forall e,
      runs_of e st' = (runs_of e st + if decide (e ∈ l) then 1 else 0)%nat;
  fan_depth : effects_depth st' = effects_depth st;
  fan_length : length (effects st') = length (effects st);
  fan_refs : refs st' = refs st;
  fan_counters : length (counters st') = length (counters st);
  fan_current : currentEffect st' =
                match l with [] => currentEffect st | _ => None end;
  fan_subs : forall s,
      (forall e, e ∈ l -> e ∈ subs_of s st) -> subs_of s st' = subs_of s st;
  fan_extend : subs_extend l st st';
  fan_console : exists new,
      console st' = console st ++ new /\
      forall e body err,
        e ∈ l ->
        body_of e st = Some (UserEffect (VFun body)) ->
        denote (values st) (length (counters st)) body [] = Throw err ->
        ("Error in signal subscriber:", err) ∈ new
}.

(** The store right after the assignment of line 18. *)
Definition assigned (s : nat) (v : val) (st : state) : state :=
  set_signals (alter (fun g => mkSignal v (sig_subs g)) s) st.

(** The signals a quiet body reads on the path it takes. *)
Fixpoint reads (vals : list val) (nc : nat) (e : expr) (args : list val) : list nat :=
  match e with
  | ERead s => [s]
  | EThrow e1 => reads vals nc e1 args
  | ESeq e1 e2 | EAdd e1 e2 | ELt e1 e2 =>
      reads vals nc e1 args ++
      match denote vals nc e1 args with
      | Ok _ => reads vals nc e2 args
      | _ => []
      end
  | EIf c e1 e2 =>
      reads vals nc c args ++
      match denote vals nc c args with
      | Ok b => if truthy b then reads vals nc e1 args else reads vals nc e2 args
      | _ => []
      end
  | _ => []
  end.

(** The store in which [setEffect(fn)] enters [fn]: the effect is
    allocated, its run is counted, and the slot holds it. *)
Definition entry_state (fn : val) (st : state) : state :=
  set_current (Some (length (effects st)))
    (set_effects (alter bump (length (effects st)))
       (set_effects (fun l => l ++ [mkEffect (UserEffect fn) O]) st)).

(** ** Well-formed trees *)

(** Parent pointers stay inside the store. *)
Definition dom_closed (d : list node) : Prop :=
  forall n nd p, d !! n = Some nd -> nparent nd = Some p -> (p < length d)%nat.

(** The store after [root.appendChild(document.createTextNode(s))]. *)
Definition with_text_appended (r : nat) (s : string) (st : state) : state :=
  set_dom (fun d =>
    alter (Dom.with_kids (fun kids => kids ++ [length d])) r
      (alter (Dom.with_parent (Some r)) (length d)
         (d ++ [mkNode KText s [] None [] []]))) st.

(** ** What a computation may throw *)

(** Every exception [m] can raise satisfies [P]. *)
Definition throws_only {A} (P : val -> Prop) (m : M A) : Prop :=
  forall st r st', m st = (r, st') ->
    match r with Throw e => P e | _ => True end.

(** An exception value whose [message] a template literal can show: the
    value is neither null nor undefined, so that [error.message] can be
    read, and the message is no Symbol, so that it converts to a string. *)
Definition has_message (e : val) : Prop :=
  is_nullish e = false /\ has_symbol (field "message" e) = false.

(** The [ref] callbacks among the properties throw, if at all, a value
    with such a message. *)
Definition refs_throw_objects (fuel : nat) (properties : val) : Prop :=
  forall k f, In (k, f) (entries properties) -> k = "ref" -> is_function f = true ->
    forall element, throws_only has_message (call_fn (eval fuel) f [VNode element]).

(** Every node of the tree of [st] is a node of the tree of [st'], of the
    same kind. *)
Definition kinds_kept (st st' : state) : Prop :=
  forall n nd, dom st !! n = Some nd ->
    exists nd', dom st' !! n = Some nd' /\ nkind nd' = nkind nd.

(** A computation that removes no node from the store and changes no
    node's kind. *)
Definition keeps_kinds {A} (m : M A) : Prop :=
  forall st r st', m st = (r, st') -> kinds_kept st st'.

(** A computation that ends, by returning or by throwing, whatever the
    fuel of the evaluator. *)
Definition settles {A} (m : M A) : Prop := forall st, fst (m st) <> Diverge.

(** Nothing here is left to application code: no [ref] property holds a
    callback and no child, at any depth of nesting, is callable. *)
Definition static_content (properties : val) (children : list val) : Prop :=
  (forall k f, In (k, f) (entries properties) -> k = "ref" -> is_function f = false)
  /\ Forall (fun c => is_function c = false) (flat children).

(** The kind of the node [html] creates for a tag that is not callable: a
    fragment for the [Fragment] marker and for a falsy tag, lines 85-86,
    else an element, in the SVG namespace for the tags of [SVG_TAGS]. *)
Definition kind_for (tagName : val) : nodekind :=
  if (match tagName with VFragment => true | _ => false end) || negb (truthy tagName)
  then KFragment
  else KElement (match tagName with VStr t => str_mem t SVG_TAGS | _ => false end)
                (to_string tagName).

(** [v] is a node of the tree of [st]: the element or fragment made for
    [tagName], or a comment. *)
Definition built_node (tagName v : val) (st : state) : Prop :=
  exists n nd, v = VNode n /\ dom st !! n = Some nd
    /\ (nkind nd = kind_for tagName \/ nkind nd = KComment).

(** The store after a component that threw [Error(msg)] at store [st1] has
    been replaced by its diagnostic comment. *)
Definition component_failed (msg : string) (st1 : state) : state :=
  set_dom (fun d => d ++ [mkNode KComment ("Error in component: " +:+ msg) [] None [] []])
    (set_console (fun l => l ++ [("Error in function component:", VErr msg)]) st1).

(** ** The region of a reactive child *)

(** The parent [p] is an element whose children are [before], then the
    placeholder [ph], then [after]; all of them are distinct nodes and the
    nodes of [after] are children of [p] in the store. *)
Record anchored (p ph : nat) (before after : list nat) (st : state) : Prop :=
  mkAnchored {
  anc_parent : exists pn,
      dom st !! p = Some pn /\ Dom.can_have_kids pn = true
      /\ nkids pn = before ++ ph :: after;
  anc_nodup : NoDup (before ++ ph :: after);
  anc_placeholder : exists phn, dom st !! ph = Some phn /\ nparent phn = Some p;
  anc_after : forall a, a ∈ after ->
      exists an, dom st !! a = Some an /\ nparent an = Some p;
  anc_not_self : p ∉ before ++ ph :: after
}.

(** [st'] is [st] with the nodes [removed] taken out of their parent [p]:
    nothing but [p]'s child list and the removed nodes' parent fields has
    changed. *)
Record pruned (p : nat) (removed : list nat) (st st' : state) : Prop := mkPruned {
  pr_signals : signals st' = signals st;
  pr_effects : effects st' = effects st;
  pr_current : currentEffect st' = currentEffect st;
  pr_console : console st' = console st;
  pr_counters : counters st' = counters st;
  pr_refs : refs st' = refs st;
  pr_length : length (dom st') = length (dom st);
  pr_nodes : forall x nd', dom st' !! x = Some nd' ->
      exists nd, dom st !! x = Some nd /\ nkind nd' = nkind nd
                 /\ (nparent nd' = nparent nd \/ nparent nd' = None);
  pr_same : forall x, x <> p -> x ∉ removed -> dom st' !! x = dom st !! x;
  pr_removed : forall a, a ∈ removed -> nparent <$> dom st' !! a = Some None
}.

(** ** Memos *)

(** The body contains a read of signal [m]. *)
Fixpoint mentions_read (m : nat) (e : expr) : bool :=
  match e with
  | ERead s => (s =? m)%nat
  | EThrow e1 => mentions_read m e1
  | ESeq e1 e2 | EAdd e1 e2 | ELt e1 e2 => mentions_read m e1 || mentions_read m e2
  | EIf c e1 e2 => mentions_read m c || mentions_read m e1 || mentions_read m e2
  | _ => false
  end.

(** Subscriber sets hold no duplicates and name existing effects. *)
Definition wf_subs (st : state) : Prop :=
  forall t, NoDup (subs_of t st)
            /\ forall x, x ∈ subs_of t st -> (x < length (effects st))%nat.

(** A store with one memo: signal [m] and effect [em] made by
    [setMemo(() => fn)], where [fn] is quiet, never reads [m] and never
    yields a function; every other effect is quiet.  [D] bounds the nesting
    depth of all bodies. *)
Record memo_store (m em : nat) (fn : expr) (D : nat) (st : state) : Prop :=
  mkMemoStore {
  ms_signal : (m < length (signals st))%nat;
  ms_body : body_of em st = Some (MemoEffect m (VFun fn));
  ms_quiet : quiet fn = true;
  ms_no_self : mentions_read m fn = false;
  ms_plain : forall vals nc v, denote vals nc fn [] = Ok v -> is_function v = false;
  ms_others : forall e, (e < length (effects st))%nat -> e <> em -> quiet_effect st e;
  ms_wf : wf_subs st;
  ms_not_own : em ∉ subs_of m st;
  ms_depth : (effects_depth st <= D)%nat /\ (depth fn <= D)%nat;
  ms_current : currentEffect st = None
}.

(** The memo is up to date: its effect is subscribed to every signal [fn]
    reads on the present values, and its signal holds [fn]'s value. *)
Record memo_fresh (m em : nat) (fn : expr) (st : state) : Prop := mkMemoFresh {
  mf_tracked : forall t,
      t ∈ reads (values st) (length (counters st)) fn [] ->
      (t < length (signals st))%nat -> em ∈ subs_of t st;
  mf_value : forall v,
      denote (values st) (length (counters st)) fn [] = Ok v ->
      value_of m st = Some v
}.

(** A store all of whose effects are quiet; [D] bounds their depth. *)
Record quiet_store (D : nat) (st : state) : Prop := mkQuietStore {
  qst_effects : forall e, (e < length (effects st))%nat -> quiet_effect st e;
  qst_wf : wf_subs st;
  qst_current : currentEffect st = None;
  qst_depth : (effects_depth st <= D)%nat
}.

(** The compute function never yields a function (which the memo's write
    accessor would call as an updater). *)
Definition never_function (fuel : nat) (fn : expr) : Prop :=
  forall st v, fst (eval fuel fn [] st) = Ok v -> is_function v = false.

(** The store after [setSignal()] and the allocation of the memo's effect,
    before its first run. *)
Definition memo_allocated (fn : expr) (st : state) : state :=
  set_effects (fun l => l ++ [mkEffect (MemoEffect (length (signals st)) (VFun fn)) O])
    (set_signals (fun l => l ++ [mkSignal VUndef []]) st).

(** A sequence of writes [w(v)], each given as the signal and the value. *)
Definition write_all (fuel : nat) (ws : list (nat * val)) : M unit :=
  for_each (fun w => write_at fuel (fst w) (snd w) ;;; ret tt) ws.

(** ** Example programs *)

Module Examples.

(** One counter [n], initially 0. *)
Definition one_counter : state := set_counters (fun _ => [0]) empty_state.

(** [const [r, w] = setSignal(1); let n = 0; setEffect(() => { r(); n++ })] *)
Definition roundtrip_setup : state :=
  Eval vm_compute in
    snd ((s <- setSignal (VNum 1) ;;
          setEffect_at 3 (VFun (ESeq (ERead s) (ETick 0)))) one_counter).

(** The callable of the reactive child in [<p>{() => "n = " + count()}</p>]. *)
Definition count_label : expr := EAdd (EConst (VStr "n = ")) (ERead 0).

(** A signal with three subscribers: an effect that counts its runs, an
    effect that throws after reading, and the reactive child of
    [<p>{() => "n = " + count()}</p>]. *)
Definition three_subscribers : state :=
  Eval vm_compute in
    snd ((s <- setSignal (VNum 0) ;;
          setEffect_at 4 (VFun (ESeq (ERead s) (ETick 0))) ;;;
          setEffect_at 4 (VFun (ESeq (ERead s) (EThrow (EConst (VErr "boom"))))) ;;;
          eval 6 (EHtml (EConst (VStr "p")) [] [EConst (VFun count_label)]) [])
         one_counter).

(** The updater [c => c + 1] and an updater that throws. *)
Definition increment : val := VFun (EAdd (EArg 0) (EConst (VNum 1))).
Definition failing_updater : val := VFun (EThrow (EConst (VErr "no"))).

(** One signal holding 0 and nothing else. *)
Definition one_signal : state :=
  Eval vm_compute in snd (setSignal (VNum 0) one_counter).

(** [() => { setEffect(() => {}); r() }]: a body that creates an effect of
    its own before it reads the signal. *)
Definition nesting_body : expr := ESeq (EEffect (EConst VUndef)) (ERead 0).

(** [() => { r(); n++ }] *)
Definition counting_body : expr := ESeq (ERead 0) (ETick 0).

(** A page whose only element is [<div id="app">old</div>] (node 0 with the
    text node 1), and a document that knows the selector [#app] only. *)
Definition page : state :=
  set_dom (fun _ =>
    [mkNode (KElement false "div") "" [1%nat] None [("id", "app")] [];
     mkNode KText "old" [] (Some 0%nat) [] []]) one_counter.

Definition page_query (d : list node) (selector : string) : outcome (option nat) :=
  if String.eqb selector "#app" then Ok (Some 0%nat) else Ok None.

(** [<div>{() => <b>{count()}</b>}<span/></div>] over the signal [count]:
    a reactive child followed by a static sibling. *)
Definition counter_view : expr :=
  EHtml (EConst (VStr "div")) []
    [EConst (VFun (EHtml (EConst (VStr "b")) [] [ERead 0]));
     EHtml (EConst (VStr "span")) [] []].

(** The store after the view is built: node 1 is the [div], node 2 the
    placeholder, node 3 the first [<b>], node 0 the [<span>]. *)
Definition counter_page : state :=
  Eval vm_compute in snd (eval 8 counter_view [] one_signal).

(** The reactive child of [counter_view]. *)
Definition counter_child : val := VFun (EHtml (EConst (VStr "b")) [] [ERead 0]).

(** Two signals [a = 1], [b = 2], one quiet effect that reads [a], and the
    compute function [() => a() < 5 ? a() + b() : 0]. *)
Definition two_signals : state :=
  Eval vm_compute in
    snd ((a <- setSignal (VNum 1) ;;
          _ <- setSignal (VNum 2) ;;
          setEffect_at 3 (VFun (ESeq (ERead a) (ETick 0)))) one_counter).

Definition sum_if_small : expr :=
  EIf (ELt (ERead 0) (EConst (VNum 5))) (EAdd (ERead 0) (ERead 1)) (EConst (VNum 0)).

(** The properties [{id: "a", ref: () => { throw Error("no ref") }}] and the
    component [() => { throw Error("bad") }]. *)
Definition failing_ref_props : val :=
  VObj [("id", VStr "a"); ("ref", VFun (EThrow (EConst (VErr "no ref"))))].
Definition failing_component : val := VFun (EThrow (EConst (VErr "bad"))).

(** [const [a, setA] = setSignal(1); const copy = setMemo(() => a());
    setEffect(() => { a(); copy() })]: signal 0 is [a], signal 1 and effect
    0 are the memo, and effect 1 reads both. *)
Definition diamond : state :=
  Eval vm_compute in
    snd ((a <- setSignal (VNum 1) ;;
          setMemo_at 6 (VFun (ERead a)) ;;;
          setEffect_at 6 (VFun (ESeq (ERead a) (ERead 1)))) empty_state).

(** [const [r, w] = setSignal(5); setEffect(() => { if (r() < 3) w(3) })]:
    a subscriber that writes the signal it reads. *)
Definition clamped : state :=
  Eval vm_compute in
    snd ((s <- setSignal (VNum 5) ;;
          setEffect_at 6
            (VFun (EIf (ELt (ERead s) (EConst (VNum 3)))
                       (EWrite s (EConst (VNum 3)))
                       (EConst VUndef)))) empty_state).

(** [<div>{() => <b>{a()}</b>}{() => <i>{b()}</i>}</div>] over the signals
    [a = 1] and [b = 10], and the store after it is built: node 0 is the
    [div], nodes 1 and 4 are the placeholders, nodes 2 and 5 the first
    [<b>] and [<i>]. *)
Definition two_children_view : expr :=
  EHtml (EConst (VStr "div")) []
    [EConst (VFun (EHtml (EConst (VStr "b")) [] [ERead 0]));
     EConst (VFun (EHtml (EConst (VStr "i")) [] [ERead 1]))].

Definition two_children_page : state :=
  Eval vm_compute in
    snd ((_ <- setSignal (VNum 1) ;; _ <- setSignal (VNum 10) ;;
          eval 8 two_children_view []) empty_state).

(** The compute function [() => (() => 7)], whose value is a function. *)
Definition constant_maker : expr := EConst (VFun (EConst (VNum 7))).

End Examples.

(** ** Further stores and observations *)

(** The store after [subscribers.add(e)] on signal [s], line 9. *)
Definition subscribed (e s : nat) (st : state) : state :=
  set_signals (alter (fun g => mkSignal (sig_value g) (set_add e (sig_subs g))) s) st.

(** The compute function [() => { if (a() < 5) return a() + b(); throw
    Error("too big") }] over the two signals of [Examples.two_signals], and
    the store after [setMemo] of it: the memo is signal 2, its effect is
    effect 1. *)
Definition guarded_sum : expr :=
  EIf (ELt (ERead 0) (EConst (VNum 5))) (EAdd (ERead 0) (ERead 1))
      (EThrow (EConst (VErr "too big"))).

Definition guarded_memo : state :=
  Eval vm_compute in snd (setMemo_at 5 (VFun guarded_sum) Examples.two_signals).

(** The text a reactive child puts in its placeholder for a result that is
    neither a node nor a collection, lines 208-211 and 242. *)
Definition shown (v : val) : string :=
  if is_nullish v then "" else to_string v.

(** The callable of the reactive child in
    [<p>{() => { if (n() < 5) return n(); throw Error("too big") }}</p>],
    and the store after that element is built over a signal holding 9: node
    0 is the [<p>], node 1 the placeholder, effect 0 the child's effect. *)
Definition guarded_label : expr :=
  EIf (ELt (ERead 0) (EConst (VNum 5))) (ERead 0) (EThrow (EConst (VErr "too big"))).

Definition guarded_page : state :=
  Eval vm_compute in
    snd ((s <- setSignal (VNum 9) ;;
          eval 6 (EHtml (EConst (VStr "p")) [] [EConst (VFun guarded_label)]) [])
         empty_state).

(** A text node holding [s] under the parent [p]. *)
Definition text_node (p : nat) (s : string) : node :=
  mkNode KText s [] (Some p) [] [].

(** The store after [p.appendChild(document.createTextNode(s))] for each
    [s] of [texts] in turn. *)
Fixpoint with_texts_appended (p : nat) (texts : list string) (st : state) : state :=
  match texts with
  | [] => st
  | s :: rest => with_texts_appended p rest (with_text_appended p s st)
  end.

(** The texts of the items a collection contributes under the test [keep]
    ([child !== null && child !== undefined] in [html], truthiness in
    [render]). *)
Definition texts_of (keep : val -> bool) (items : list val) : list string :=
  map to_string (List.filter keep items).

Definition not_nullish (v : val) : bool := negb (is_nullish v).

(** The element [render] mounts in place of a component that threw, lines
    321-323, with its text node [t]. *)
Definition error_element (root t : nat) : node :=
  mkNode (KElement false "div") "" [t] (Some root) [("class", "olova-error")] [].

(** [!(clear && !hydrate)] for the options of [render], line 304. *)
Definition keeps_content (options : val) : bool :=
  negb (truthy (option_or "clear" (VBool true) options)
        && negb (truthy (option_or "hydrate" (VBool false) options))).

(** The tree after [root.textContent = ""] on an element or fragment whose
    children are [kids]. *)
Definition emptied (r : nat) (kids : list nat) (d : list node) : list node :=
  alter (Dom.with_kids (fun _ => [])) r
    (foldl (fun d k => alter (Dom.with_parent None) k d) d kids).

(** Property names that reach the last branch of the property loop, lines
    177-183, on an element outside SVG. *)
Definition plain_attribute_name (name : string) : bool :=
  negb (str_mem name ["value"; "className"; "class"; "style";
                      "dangerouslySetInnerHTML"; "ref"])
  && negb (String.prefix "on" name).

(** The attribute value a plain property ends as: none for null,
    undefined and [false], the empty string for [true], [String(v)] for
    the rest. *)
Definition attribute_text (v : val) : option string :=
  match v with
  | VUndef | VNull | VBool false => None
  | VBool true => Some ""
  | _ => Some (to_string v)
  end.

(** What a reactive child shows for the outcome of its callable: the text
    of the value, or the message of the error it threw (line 246). *)
Definition displayed (r : outcome val) : string :=
  match r with
  | Ok v => shown v
  | Throw (VErr msg) => "Error: " +:+ msg
  | _ => ""
  end.

(** An outcome a text placeholder can show: a value that is neither a node
    nor a collection, or a thrown [Error]. *)
Definition displayable (r : outcome val) : Prop :=
  match r with
  | Ok v => is_node v = false /\ is_array v = false
  | Throw e => exists msg, e = VErr msg
  | Diverge => False
  end.

(** A callable for a text binding: quiet, and displayable whatever the
    signals hold. *)
Definition text_callable (body : expr) : Prop :=
  quiet body = true /\ forall vals nc, displayable (denote vals nc body []).

(** The element [el] holds one child, the placeholder [ph] of the reactive
    child [body], whose effect is the only effect of the store; the
    placeholder shows what [body] yields on the present values, and the
    effect is subscribed to the signals [body] reads on them. *)
Record text_bound (el ph : nat) (body : expr) (st : state) : Prop := mkTextBound {
  tb_effect : exists n, effects st = [mkEffect (ChildEffect el ph (VFun body)) n];
  tb_text : dom st !! ph
            = Some (text_node el
                      (displayed (denote (values st) (length (counters st)) body [])));
  tb_kids : kids_of el st = [ph];
  tb_distinct : el <> ph;
  tb_subs : forall t, subs_of t st = [] \/ subs_of t st = [0%nat];
  tb_tracked : forall t,
      t ∈ reads (values st) (length (counters st)) body [] ->
      (t < length (signals st))%nat -> subs_of t st = [0%nat];
  tb_current : currentEffect st = None
}.

(** An argument of the write accessor that is a plain value, or an updater
    that is quiet and returns a value whatever it is given. *)
Definition total_updater (next : val) : Prop :=
  match next with
  | VFun body =>
      quiet body = true
      /\ forall vals nc cur, exists v, denote vals nc body [cur] = Ok v
  | VRefFn _ => False
  | _ => True
  end.

(** The writes of the arguments [ws] to signal [s], made one after the
    other from [st] on, return the values [rs]: each is the new value of
    its write, [next(current)] for a callable argument and [next] itself
    otherwise, on the store that write starts in. *)
Fixpoint writes_return (fuel s : nat) (ws rs : list val) (st : state) : Prop :=
  match ws, rs with
  | [], [] => True
  | next :: ws', r :: rs' =>
      next_value fuel next (default VUndef (value_of s st)) st = Ok r
      /\ writes_return fuel s ws' rs' (snd (write_at fuel s next st))
  | _, _ => False
  end.

(** The last of the values [rs], or [v] when there is none. *)
Definition last_value (v : val) (rs : list val) : val := List.last rs v.

(** The name contains a colon. *)
Definition has_colon (name : string) : bool :=
  existsb (Ascii.eqb ":"%char) (list_ascii_of_string name).

(** The store after [<b/>] and [<i/>] have been built: nodes 0 and 1, both
    without a parent. *)
Definition two_elements : state :=
  Eval vm_compute in
    snd ((html_at 1 (VStr "b") VNull [] ;;; html_at 1 (VStr "i") VNull []) empty_state).

(** * Properties of the reactive core *)

Lemma set_add_idem c l : set_add c (set_add c l) = set_add c l.
Proof.
  unfold set_add. destruct (decide (c ∈ l)) as [H|H].
  - rewrite decide_True; auto.
  - rewrite decide_True; auto. apply elem_of_app. right. apply list_elem_of_singleton. reflexivity.
Qed.

Lemma bind_ok {A B} (m : M A) (k : A -> M B) st a st' :
  m st = (Ok a, st') -> bind m k st = k a st'.
Proof. intros H. unfold bind. rewrite H. reflexivity. Qed.

Lemma bind_ok_inv {A B} (m : M A) (k : A -> M B) st v st' :
  bind m k st = (Ok v, st') ->
  exists a st0, m st = (Ok a, st0) /\ k a st0 = (Ok v, st').
Proof.
  unfold bind. destruct (m st) as [[a|e|] st0]; intros E; try discriminate. eauto.
Qed.

Lemma flat_val_arr items : flat_val (VArr items) = flat items.
Proof.
  unfold flat. induction items as [|x rest IH]; simpl; [reflexivity|].
  f_equal. exact IH.
Qed.

Lemma quiet_step_refl st : quiet_step st st.
Proof. split; auto. exists []. rewrite app_nil_r. reflexivity. Qed.

Lemma quiet_step_trans a b c : quiet_step a b -> quiet_step b c -> quiet_step a c.
Proof.
  intros [v1 e1 c1 r1 n1 [x1 k1] s1] [v2 e2 c2 r2 n2 [x2 k2] s2].
  split; try congruence.
  - exists (x1 ++ x2). rewrite k2, k1, app_assoc. reflexivity.
  - intros s. destruct (s2 s) as [H2|(c' & Hc & H2)], (s1 s) as [H1|(c'' & Hc' & H1)].
    + left; congruence.
    + right. exists c''. split; auto. congruence.
    + right. exists c'. split; [congruence|]. congruence.
    + right. exists c''. split; auto. rewrite H2, H1.
      assert (c' = c'') by congruence. subst. apply set_add_idem.
Qed.

Lemma values_alter_subs f s st :
  (forall g, sig_value (f g) = sig_value g) ->
  values (set_signals (alter f s) st) = values st.
Proof.
  intros Hf. unfold values. simpl. generalize (signals st) as l.
  revert s. induction s as [|s IH]; intros [|g l]; simpl; auto.
  - rewrite Hf. reflexivity.
  - f_equal. apply IH.
Qed.

Lemma values_lookup st s : values st !! s = sig_value <$> signals st !! s.
Proof. unfold values. apply list_lookup_fmap. Qed.

Lemma subs_of_alter f s t st :
  subs_of t (set_signals (alter f s) st) =
  if decide (t = s) then default [] (sig_subs <$> (f <$> signals st !! s))
  else subs_of t st.
Proof.
  unfold subs_of. simpl. destruct (decide (t = s)) as [->|Hn].
  - rewrite list_lookup_alter_eq. reflexivity.
  - rewrite list_lookup_alter_ne; auto.
Qed.

Lemma read_quiet s st :
  exists st',
    read s st = (denote (values st) (length (counters st)) (ERead s) [], st')
    /\ quiet_step st st'.
Proof.
  unfold read, try_catch, bind, get_signal, gets, ret, throw, console_error, modify.
  simpl. rewrite values_lookup.
  destruct (signals st !! s) as [sg|] eqn:Hs; simpl.
  - destruct (currentEffect st) as [c|] eqn:Hc; simpl.
    + eexists. split; [reflexivity|].
      split; simpl; auto.
      * apply values_alter_subs. reflexivity.
      * exists []. rewrite app_nil_r. reflexivity.
      * intros t. rewrite subs_of_alter. destruct (decide (t = s)) as [->|]; auto.
        right. exists c. split; auto. unfold subs_of. rewrite Hs. reflexivity.
    + eexists. split; [reflexivity|]. apply quiet_step_refl.
  - eexists. split; [reflexivity|].
    split; simpl; auto. eexists; reflexivity.
Qed.

Lemma quiet_step_values st st' : quiet_step st st' -> values st' = values st.
Proof. intros []; auto. Qed.

Ltac use_quiet IH fuel args st :=
  let st' := fresh "st'" in
  let HE := fresh "HE" in
  let HQ := fresh "HQ" in
  destruct (IH fuel args st) as (st' & HE & HQ); [lia|];
  rewrite HE; clear HE.

Lemma quiet_eval e :
  quiet e = true ->
  forall fuel args st, (depth e < fuel)%nat ->
  exists st',
    eval fuel e args st = (denote (values st) (length (counters st)) e args, st')
    /\ quiet_step st st'.
Proof.
  induction e; simpl; intros Hq fuel args st Hd; try discriminate;
    destruct fuel as [|fuel]; try lia; simpl.
  - eexists; split; [reflexivity|apply quiet_step_refl].
  - eexists; split; [reflexivity|apply quiet_step_refl].
  - apply read_quiet.
  - (* EThrow *)
    unfold bind, throw. use_quiet (IHe Hq) fuel args st.
    destruct (denote _ _ e args); eexists; split; eauto.
  - (* ESeq *)
    apply andb_prop in Hq as [Hq1 Hq2].
    unfold bind. use_quiet (IHe1 Hq1) fuel args st.
    destruct (denote _ _ e1 args) eqn:D1; try (eexists; split; eauto; fail).
    use_quiet (IHe2 Hq2) fuel args st'.
    rewrite (quiet_step_values _ _ HQ), (qs_counters _ _ HQ).
    eexists; split; [reflexivity|]. eapply quiet_step_trans; eauto.
  - (* EIf *)
    apply andb_prop in Hq as [Hq Hq3]. apply andb_prop in Hq as [Hq1 Hq2].
    unfold bind. use_quiet (IHe1 Hq1) fuel args st.
    destruct (denote _ _ e1 args) eqn:D1; try (eexists; split; eauto; fail).
    destruct (truthy a).
    + use_quiet (IHe2 Hq2) fuel args st'.
      rewrite (quiet_step_values _ _ HQ), (qs_counters _ _ HQ).
      eexists; split; [reflexivity|]. eapply quiet_step_trans; eauto.
    + use_quiet (IHe3 Hq3) fuel args st'.
      rewrite (quiet_step_values _ _ HQ), (qs_counters _ _ HQ).
      eexists; split; [reflexivity|]. eapply quiet_step_trans; eauto.
  - (* EAdd *)
    apply andb_prop in Hq as [Hq1 Hq2].
    unfold bind, ret. use_quiet (IHe1 Hq1) fuel args st.
    destruct (denote _ _ e1 args) eqn:D1; try (eexists; split; eauto; fail).
    use_quiet (IHe2 Hq2) fuel args st'.
    rewrite (quiet_step_values _ _ HQ), (qs_counters _ _ HQ).
    destruct (denote _ _ e2 args); eexists; (split; [reflexivity|]);
      eapply quiet_step_trans; eauto.
  - (* ELt *)
    apply andb_prop in Hq as [Hq1 Hq2].
    unfold bind, ret. use_quiet (IHe1 Hq1) fuel args st.
    destruct (denote _ _ e1 args) eqn:D1; try (eexists; split; eauto; fail).
    use_quiet (IHe2 Hq2) fuel args st'.
    rewrite (quiet_step_values _ _ HQ), (qs_counters _ _ HQ).
    destruct (denote _ _ e2 args); eexists; (split; [reflexivity|]);
      eapply quiet_step_trans; eauto.
  - (* ETick *)
    unfold bind, gets, modify, ret, throw. simpl.
    destruct (counters st !! c) as [z|] eqn:Hc.
    + apply lookup_lt_Some in Hc as Hlt.
      destruct (Nat.ltb_spec c (length (counters st))); try lia.
      eexists; split; [reflexivity|].
      split; simpl; auto.
      * rewrite length_insert. reflexivity.
      * exists []. rewrite app_nil_r. reflexivity.
    + apply lookup_ge_None in Hc.
      destruct (Nat.ltb_spec c (length (counters st))); try lia.
      eexists; split; [reflexivity|apply quiet_step_refl].
Qed.


Lemma body_of_bump e e' st :
  body_of e' (set_effects (alter bump e) st) = body_of e' st.
Proof.
  unfold body_of. simpl. destruct (decide (e' = e)) as [->|Hn].
  - rewrite list_lookup_alter_eq. destruct (effects st !! e); reflexivity.
  - rewrite list_lookup_alter_ne; auto.
Qed.

Lemma runs_of_bump e e' st :
  (e < length (effects st))%nat ->
  runs_of e' (set_effects (alter bump e) st) =
  (runs_of e' st + if decide (e' = e) then 1 else 0)%nat.
Proof.
  intros Hlt. unfold runs_of. simpl. destruct (decide (e' = e)) as [->|Hn].
  - rewrite list_lookup_alter_eq.
    destruct (lookup_lt_is_Some_2 _ _ Hlt) as [ef ->]. simpl. lia.
  - rewrite list_lookup_alter_ne; auto.
Qed.

Lemma denote_quiet vals nc e args :
  quiet e = true -> denote vals nc e args <> Diverge.
Proof.
  induction e; simpl; intros Hq; try discriminate;
    repeat match goal with
           | H : _ && _ = true |- _ => apply andb_prop in H as [? ?]
           end;
    repeat match goal with
           | IH : quiet ?x = true -> _, H : quiet ?x = true |- _ => specialize (IH H)
           end;
    repeat match goal with
           | |- context [match ?d with _ => _ end] => destruct d eqn:?; try congruence
           end.
Qed.

Lemma effects_depth_bump e st :
  effects_depth (set_effects (alter bump e) st) = effects_depth st.
Proof.
  unfold effects_depth. simpl. f_equal.
  generalize (effects st) as l. induction e as [|e IH]; intros [|x l]; simpl; auto.
  f_equal. apply IH.
Qed.


Lemma set_add_elem e l : e ∈ l -> set_add e l = l.
Proof. intros H. unfold set_add. rewrite decide_True; auto. Qed.



(** ** Computations that end after a quiet step *)

Lemma benign_ret {A} (a : A) : benign (ret a).
Proof.
  intros st r st' E. unfold ret in E. injection E as <- <-.
  split; [discriminate|apply quiet_step_refl].
Qed.

Lemma benign_throw {A} e : benign (@throw A e).
Proof.
  intros st r st' E. unfold throw in E. injection E as <- <-.
  split; [discriminate|apply quiet_step_refl].
Qed.

Lemma benign_gets {A} (f : state -> A) : benign (gets f).
Proof.
  intros st r st' E. unfold gets in E. injection E as <- <-.
  split; [discriminate|apply quiet_step_refl].
Qed.

Lemma benign_bind {A B} (m : M A) (k : A -> M B) :
  benign m -> (forall a, benign (k a)) -> benign (bind m k).
Proof.
  intros Hm Hk st r st' E. unfold bind in E.
  destruct (m st) as [[a|e|] st1] eqn:Em; destruct (Hm _ _ _ Em) as [Hn HQ].
  - destruct (Hk a _ _ _ E) as [Hn' HQ']. split; auto.
    eapply quiet_step_trans; eauto.
  - injection E as <- <-. split; auto.
  - congruence.
Qed.

Lemma benign_try_catch {A} (m : M A) (h : val -> M A) :
  benign m -> (forall e, benign (h e)) -> benign (try_catch m h).
Proof.
  intros Hm Hh st r st' E. unfold try_catch in E.
  destruct (m st) as [[a|e|] st1] eqn:Em; destruct (Hm _ _ _ Em) as [Hn HQ].
  - injection E as <- <-. split; auto.
  - destruct (Hh e _ _ _ E) as [Hn' HQ']. split; auto.
    eapply quiet_step_trans; eauto.
  - congruence.
Qed.

Lemma benign_for_each {A} (f : A -> M unit) l :
  (forall x, benign (f x)) -> benign (for_each f l).
Proof.
  intros Hf. induction l as [|x l IH]; simpl.
  - apply benign_ret.
  - apply benign_bind; auto.
Qed.

Lemma benign_console_error label e : benign (console_error label e).
Proof.
  intros st r st' E. unfold console_error, modify in E. injection E as <- <-.
  split; [discriminate|]. split; simpl; auto. eexists; reflexivity.
Qed.

Lemma benign_set_dom f : benign (modify (set_dom f)).
Proof.
  intros st r st' E. unfold modify in E. injection E as <- <-.
  split; [discriminate|]. split; simpl; auto. exists []. rewrite app_nil_r. reflexivity.
Qed.

Lemma benign_get_node n : benign (Dom.get_node n).
Proof.
  intros st r st' E. unfold Dom.get_node in E.
  destruct (dom st !! n); injection E as <- <-;
    (split; [discriminate|apply quiet_step_refl]).
Qed.

Lemma benign_alloc_node nd : benign (Dom.alloc_node nd).
Proof.
  intros st r st' E. unfold Dom.alloc_node in E. injection E as <- <-.
  split; [discriminate|]. split; simpl; auto. exists []. rewrite app_nil_r. reflexivity.
Qed.

Lemma benign_message_of e : benign (message_of e).
Proof. unfold message_of. destruct e; first [apply benign_ret | apply benign_throw]. Qed.

Lemma benign_template_text v : benign (template_text v).
Proof.
  unfold template_text. destruct (has_symbol v); [apply benign_throw|apply benign_ret].
Qed.

Ltac benign_step :=
  first
    [ apply benign_ret | apply benign_throw | apply benign_gets
    | apply benign_console_error | apply benign_message_of
    | apply benign_template_text
    | apply benign_get_node | apply benign_alloc_node
    | apply benign_set_dom
    | apply benign_for_each; intros ?
    | match goal with
      | |- benign (bind _ _) => apply benign_bind; [|intros ?]
      | |- benign (match ?x with _ => _ end) => destruct x
      end ].

Lemma benign_detach n : benign (Dom.detach n).
Proof. unfold Dom.detach, Dom.update_node. repeat benign_step. Qed.

Lemma benign_insertBefore p c b : benign (Dom.insertBefore p c b).
Proof.
  unfold Dom.insertBefore, Dom.check_insert, Dom.take_for_insert, Dom.update_node.
  repeat first [ apply benign_detach | benign_step ].
Qed.

Lemma benign_set_textContent n s : benign (Dom.set_textContent n s).
Proof.
  unfold Dom.set_textContent, Dom.appendChild, Dom.createTextNode, Dom.update_node.
  repeat first [ apply benign_insertBefore | benign_step ].
Qed.

Lemma benign_bind_on {A B} (P : A -> Prop) (m : M A) (k : A -> M B) :
  benign m ->
  (forall st a st', m st = (Ok a, st') -> P a) ->
  (forall a, P a -> benign (k a)) ->
  benign (bind m k).
Proof.
  intros Hm HP Hk st r st' E. unfold bind in E.
  destruct (m st) as [[a|e|] st1] eqn:Em; destruct (Hm _ _ _ Em) as [Hn HQ].
  - destruct (Hk a (HP _ _ _ Em) _ _ _ E) as [Hn' HQ']. split; auto.
    eapply quiet_step_trans; eauto.
  - injection E as <- <-. split; auto.
  - congruence.
Qed.

Lemma quiet_eval_benign body k args :
  quiet body = true -> (depth body < k)%nat -> benign (eval k body args).
Proof.
  intros Hq Hd st r st' E.
  destruct (quiet_eval body Hq k args st Hd) as (st1 & HE & HQ).
  rewrite HE in E. injection E as <- <-. split; [apply denote_quiet; auto|exact HQ].
Qed.

(** The effect body of a reactive child whose callable is quiet and yields
    text only rewrites the placeholder. *)
Lemma child_effect_benign k p ph body :
  quiet body = true -> text_valued body -> (depth body < k)%nat ->
  benign (child_effect (eval k) p ph (VFun body)).
Proof.
  intros Hq Ht Hd. unfold child_effect.
  apply benign_try_catch.
  - apply (benign_bind_on (fun v => is_node v = false /\ is_array v = false)).
    + apply quiet_eval_benign; auto.
    + intros st a st' E. simpl in E.
      destruct (quiet_eval body Hq k [] st Hd) as (st1 & HE & _).
      rewrite HE in E. injection E as E _. eapply Ht; eauto.
    + intros a [Hn Ha].
      destruct (is_nullish a).
      * apply benign_bind; [apply benign_set_textContent|intros _; apply benign_ret].
      * destruct a; try discriminate;
          (apply benign_bind; [apply benign_set_textContent|intros _; apply benign_ret]).
  - intros e.
    apply benign_bind; [apply benign_console_error|intros _].
    apply benign_bind; [apply benign_message_of|intros msg].
    apply benign_bind; [apply benign_template_text|intros text].
    apply benign_bind; [apply benign_set_textContent|intros _; apply benign_ret].
Qed.

Lemma quiet_body_depth_le e b st :
  body_of e st = Some b -> (body_depth b <= effects_depth st)%nat.
Proof.
  unfold body_of, effects_depth. intros H.
  destruct (effects st !! e) as [ef|] eqn:He; [|discriminate].
  injection H as H.
  assert (Hin : In (body_depth (eff_body ef))
                   (map (fun ef => body_depth (eff_body ef)) (effects st))).
  { apply in_map_iff. exists ef. split; auto.
    apply list_elem_of_In. eapply list_elem_of_lookup_2; eauto. }
  pose proof (proj1 (list_max_le
     (map (fun ef => body_depth (eff_body ef)) (effects st)) _) (Nat.le_refl _)) as Hall.
  rewrite List.Forall_forall in Hall. specialize (Hall _ Hin).
  rewrite H in Hall. exact Hall.
Qed.

(** A quiet body, of either kind, ends after a quiet step. *)
Lemma exec_quiet_body k b :
  quiet_body b -> (body_depth b < k)%nat ->
  benign (exec_body (eval k) (runEffect k) b).
Proof.
  intros Hb Hd. destruct Hb as [body Hq|p ph body Hq Ht]; simpl in *.
  - apply quiet_eval_benign; auto.
  - apply child_effect_benign; auto.
Qed.

(** One call of a quiet effect's [runEffect]. *)
Lemma run_quiet_effect fuel e b st :
  body_of e st = Some b ->
  quiet_body b ->
  (body_depth b + 1 < fuel)%nat ->
  exists r st',
    runEffect fuel e st = (r, st')
    /\ r <> Diverge
    /\ ran (fun err => [("Error in effect:", err)]) e r st st'
    /\ forall body, b = UserEffect (VFun body) ->
         r = denote (values st) (length (counters st)) body [].
Proof.
  intros Hb Hq Hd. destruct fuel as [|k]; [lia|]. simpl.
  unfold runEffect_body, bind, modify, get_effect. simpl.
  unfold body_of in Hb.
  rewrite list_lookup_alter_eq.
  destruct (effects st !! e) as [ef|] eqn:He; [|discriminate]. simpl in *.
  injection Hb as Hb. rewrite Hb.
  unfold try_catch, bind, modify, ret, throw, console_error. simpl.
  destruct (exec_body (eval k) (runEffect k) b
              (set_current (Some e) (set_effects (alter bump e) st)))
    as [r st1] eqn:HE.
  destruct (exec_quiet_body k b Hq ltac:(lia) _ _ _ HE) as [Hn HQ].
  assert (Hden : forall body, b = UserEffect (VFun body) ->
            r = denote (values st) (length (counters st)) body []).
  { intros body ->. simpl in HE. inversion Hq; subst.
    destruct (quiet_eval body H0 k [] 
                (set_current (Some e) (set_effects (alter bump e) st)))
      as (st1' & HE' & _); [simpl in Hd; lia|].
    rewrite HE' in HE. injection HE as <- _. reflexivity. }
  destruct HQ as [v1 e1 c1 r1 n1 [x1 k1] s1]. simpl in *.
  destruct r as [v|x|]; try congruence; do 2 eexists;
    (split; [reflexivity|]); (split; [discriminate|]); (split; [|exact Hden]);
    split; simpl; auto.
  all: try (exists x1; rewrite k1; rewrite ?app_nil_r, ?app_assoc; reflexivity).
  all: intros s; destruct (s1 s) as [H|(c & Hc & H)]; [left|right]; auto;
    injection Hc as <-; auto.
Qed.

(** The same under the guard of the write's fan-out. *)
Lemma notify_quiet_effect fuel e b st :
  body_of e st = Some b ->
  quiet_body b ->
  (body_depth b + 1 < fuel)%nat ->
  exists r st',
    notify (runEffect fuel) e st = (Ok tt, st')
    /\ ran (fun err => [("Error in effect:", err); ("Error in signal subscriber:", err)])
         e r st st'
    /\ forall body, b = UserEffect (VFun body) ->
         r = denote (values st) (length (counters st)) body [].
Proof.
  intros Hb Hq Hd.
  destruct (run_quiet_effect fuel e b st Hb Hq Hd) as (r & st1 & HR & Hn & Hran & Hden).
  unfold notify, try_report, try_catch, bind, ret, console_error, modify. rewrite HR.
  destruct Hran as [v1 e1 c1 r1 n1 [x1 k1] s1].
  destruct r as [v|x|]; try congruence;
    do 2 eexists; (split; [reflexivity|]); (split; [|exact Hden]); split; simpl; auto.
  - exists x1. exact k1.
  - exists x1. rewrite k1. rewrite <- !app_assoc. reflexivity.
Qed.

Lemma subs_extend_refl l st : subs_extend l st st.
Proof.
  intros t. exists []. rewrite app_nil_r. split; [reflexivity|]. split; auto.
  intros x Hx. exfalso. eapply not_elem_of_nil; eauto.
Qed.

Lemma subs_extend_trans l1 l2 a b c :
  subs_extend l1 a b -> subs_extend l2 b c -> subs_extend (l1 ++ l2) a c.
Proof.
  intros H1 H2 t. destruct (H1 t) as (s1 & E1 & I1 & N1), (H2 t) as (s2 & E2 & I2 & N2).
  exists (s1 ++ s2). split; [rewrite E2, E1, app_assoc; reflexivity|]. split; auto.
  intros x Hx. apply elem_of_app in Hx as [Hx|Hx]; apply elem_of_app; auto.
Qed.

Lemma set_add_nodup e l : NoDup l -> NoDup (set_add e l).
Proof.
  intros H. unfold set_add. destruct (decide (e ∈ l)); auto.
  apply NoDup_app. split; [auto|]. split; [|apply NoDup_singleton].
  intros x Hx Hxe. apply list_elem_of_singleton in Hxe as ->. auto.
Qed.

Lemma ran_extend tail e r st st' : ran tail e r st st' -> subs_extend [e] st st'.
Proof.
  intros H t. destruct (ran_subs _ _ _ _ _ H t) as [->| ->].
  - exists []. rewrite app_nil_r. split; [reflexivity|]. split; auto.
    intros x Hx. exfalso. eapply not_elem_of_nil; eauto.
  - unfold set_add. destruct (decide (e ∈ subs_of t st)) as [Hin|Hin].
    + exists []. rewrite app_nil_r. split; [reflexivity|]. split; auto.
      intros x Hx. exfalso. eapply not_elem_of_nil; eauto.
    + exists [e]. split; [reflexivity|]. split; auto.
      intros Hnd. apply NoDup_app. split; [auto|]. split; [|apply NoDup_singleton].
      intros x Hx Hxe. apply list_elem_of_singleton in Hxe as ->. auto.
Qed.

Lemma fan_out_quiet k l : forall st,
  NoDup l ->
  (forall e, e ∈ l -> quiet_effect st e) ->
  (effects_depth st + 1 < k)%nat ->
  exists st', for_each (notify (runEffect k)) l st = (Ok tt, st') /\ fanned l st st'.
Proof.
  induction l as [|e l IH]; intros st Hnd Hq Hk; simpl.
  - exists st. split; [reflexivity|].
    split; auto.
    { apply subs_extend_refl. }
    exists []. rewrite app_nil_r. split; auto.
    intros e body err He. exfalso. eapply not_elem_of_nil; eauto.
  - apply NoDup_cons in Hnd as [Hne Hnd].
    destruct (Hq e) as (b & Hb & Hqb); [left|].
    pose proof (quiet_body_depth_le _ _ _ Hb) as Hdb.
    destruct (notify_quiet_effect k e b st Hb Hqb) as (r & st1 & HR & Hran & Hden); [lia|].
    assert (Hlt : (e < length (effects st))%nat).
    { unfold body_of in Hb. destruct (effects st !! e) eqn:He; [|discriminate].
      eapply lookup_lt_Some; eauto. }
    assert (Hbodies1 : forall x, body_of x st1 = body_of x st).
    { intros x. unfold body_of at 1. rewrite (ran_effects _ _ _ _ _ Hran).
      apply (body_of_bump e x st). }
    assert (Hdepth1 : effects_depth st1 = effects_depth st).
    { unfold effects_depth at 1. rewrite (ran_effects _ _ _ _ _ Hran).
      apply (effects_depth_bump e st). }
    assert (Hruns1 : forall x, runs_of x st1 =
                     (runs_of x st + if decide (x = e) then 1 else 0)%nat).
    { intros x. unfold runs_of at 1. rewrite (ran_effects _ _ _ _ _ Hran).
      apply (runs_of_bump e x st Hlt). }
    destruct (IH st1) as (st2 & HF & Hfan); auto.
    { intros x Hx. destruct (Hq x) as (bx & ? & ?); [right; auto|].
      exists bx. rewrite Hbodies1. auto. }
    { rewrite Hdepth1. exact Hk. }
    exists st2. split.
    { unfold bind. rewrite HR. exact HF. }
    pose proof (ran_extend _ _ _ _ _ Hran) as Hext1.
    destruct Hran as [v1 e1 c1 r1 n1 [x1 k1] s1].
    destruct Hfan as [v2 b2 u2 p2 len2 r2 n2 c2 s2 ext2 [x2 [k2 t2]]].
    split; [congruence | | | congruence | rewrite len2, e1; apply length_alter
            | congruence | congruence | | |
            apply (subs_extend_trans [e] l st st1 st2 Hext1 ext2) | ].
    + intros x. rewrite b2. apply Hbodies1.
    + intros x. rewrite u2, Hruns1.
      destruct (decide (x = e)) as [->|Hx].
      * rewrite (decide_False (P := e ∈ l)); auto.
        rewrite decide_True; [lia|left].
      * destruct (decide (x ∈ l)) as [Hin|Hin].
        -- rewrite decide_True; [lia|right; auto].
        -- rewrite decide_False; [lia|].
           intros Hc. apply elem_of_cons in Hc as [?|?]; auto.
    + rewrite c2. destruct l; auto.
    + intros s Hall.
      assert (H1 : subs_of s st1 = subs_of s st).
      { destruct (s1 s) as [H|H]; auto. rewrite H. apply set_add_elem.
        apply Hall. left. }
      rewrite <- H1. apply s2. intros x Hx. rewrite H1. apply Hall. right; auto.
    + eexists. split.
      { rewrite k2, k1. rewrite <- !app_assoc. reflexivity. }
      intros x bx err Hx Hbx Hd.
      apply elem_of_cons in Hx as [->|Hx].
      * rewrite Hb in Hbx. injection Hbx as ->.
        rewrite <- (Hden bx eq_refl) in Hd. rewrite Hd.
        apply elem_of_app. right. apply elem_of_app. left.
        right. left.
      * apply elem_of_app. right. apply elem_of_app. right.
        apply (t2 x bx err Hx).
        -- rewrite Hbodies1. exact Hbx.
        -- rewrite v1, n1. exact Hd.
Qed.

Lemma lookup_same_values st st' s sg :
  signals st !! s = Some sg ->
  values st' = values st ->
  subs_of s st' = subs_of s st ->
  signals st' !! s = Some sg.
Proof.
  intros Hs Hv Hsub.
  assert (H : values st' !! s = values st !! s) by (rewrite Hv; reflexivity).
  rewrite !values_lookup, Hs in H. unfold subs_of in Hsub. rewrite Hs in Hsub.
  destruct (signals st' !! s) as [[v l]|]; [|discriminate].
  destruct sg as [v0 l0]. simpl in *. congruence.
Qed.

Lemma updater_quiet_call k next cur st :
  quiet_updater next ->
  is_function next = true ->
  (updater_depth next < k)%nat ->
  currentEffect st = None ->
  exists st1,
    call_fn (eval k) next [cur] st = (next_value k next cur st, st1)
    /\ next_value k next cur st <> Diverge
    /\ quiet_step st st1
    /\ forall s, subs_of s st1 = subs_of s st.
Proof.
  intros Hq Hf Hk Hc. destruct next; try discriminate; simpl in *; [tauto|].
  destruct (quiet_eval body Hq k [cur] st Hk) as (st1 & HE & HQ).
  exists st1. unfold next_value. simpl. rewrite HE. simpl.
  split; [reflexivity|]. split; [apply denote_quiet; auto|]. split; [exact HQ|].
  intros s. destruct (qs_subs _ _ HQ s) as [H|(c & Hcc & _)]; auto. congruence.
Qed.

Lemma new_value_phase k next cur st :
  quiet_updater next ->
  (updater_depth next < k)%nat ->
  (is_function next = true -> currentEffect st = None) ->
  exists st1,
    (if is_function next then call_fn (eval k) next [cur] else ret next) st
      = (next_value k next cur st, st1)
    /\ next_value k next cur st <> Diverge
    /\ quiet_step st st1
    /\ forall s, subs_of s st1 = subs_of s st.
Proof.
  intros Hq Hk Hc. destruct (is_function next) eqn:Hf.
  - apply updater_quiet_call; auto.
  - exists st. unfold next_value. rewrite Hf. unfold ret.
    split; [reflexivity|]. split; [discriminate|]. split; [apply quiet_step_refl|auto].
Qed.

Lemma assigned_lookup s v st sg :
  signals st !! s = Some sg ->
  signals (assigned s v st) !! s = Some (mkSignal v (sig_subs sg)).
Proof. intros H. unfold assigned. simpl. rewrite list_lookup_alter_eq, H. reflexivity. Qed.

(** The write accessor, step by step. *)
Lemma write_steps fuel s next sg v st st1 sg1 st2 g2 :
  signals st !! s = Some sg ->
  (if is_function next then call_fn (eval fuel) next [sig_value sg] else ret next) st
    = (Ok v, st1) ->
  signals st1 !! s = Some sg1 ->
  for_each (notify (runEffect fuel)) (sig_subs sg1) (assigned s v st1) = (Ok tt, st2) ->
  signals st2 !! s = Some g2 ->
  write_at fuel s next st = (Ok (sig_value g2), st2).
Proof.
  intros Hsg Hnext Hsg1 Hfan Hg2.
  unfold write_at, write, try_catch.
  rewrite (bind_ok _ _ st sg st) by (unfold get_signal; rewrite Hsg; reflexivity).
  rewrite (bind_ok _ _ _ _ _ Hnext).
  rewrite (bind_ok _ _ st1 tt (assigned s v st1) eq_refl).
  rewrite (bind_ok _ _ _ (mkSignal v (sig_subs sg1)) (assigned s v st1))
    by (unfold get_signal; rewrite (assigned_lookup _ _ _ _ Hsg1); reflexivity).
  cbn [sig_subs]. rewrite (bind_ok _ _ _ _ _ Hfan).
  rewrite (bind_ok _ _ st2 g2 st2) by (unfold get_signal; rewrite Hg2; reflexivity).
  reflexivity.
Qed.

Lemma assigned_subs s v st t : subs_of t (assigned s v st) = subs_of t st.
Proof.
  unfold assigned. rewrite subs_of_alter. destruct (decide (t = s)) as [->|]; auto.
  unfold subs_of. destruct (signals st !! s); reflexivity.
Qed.

Lemma assigned_values s v st :
  values (assigned s v st) = alter (fun _ => v) s (values st).
Proof.
  unfold assigned, values. simpl. generalize (signals st) as l.
  induction s as [|s IH]; intros [|g l]; simpl; auto. f_equal. apply IH.
Qed.

Lemma write_ok_quiet fuel st s sg next v :
  signals st !! s = Some sg ->
  NoDup (sig_subs sg) ->
  (forall e, e ∈ sig_subs sg -> quiet_effect st e) ->
  quiet_updater next ->
  (is_function next = true -> currentEffect st = None) ->
  (write_fuel st next <= fuel)%nat ->
  next_value fuel next (sig_value sg) st = Ok v ->
  exists st1 st',
    write_at fuel s next st = (Ok v, st')
    /\ quiet_step st st1
    /\ (forall t, subs_of t st1 = subs_of t st)
    /\ fanned (sig_subs sg) (assigned s v st1) st'.
Proof.
  intros Hs Hnd Hq Hu Hc Hfuel Hv. unfold write_fuel in Hfuel.
  unfold write_at, write, try_catch, bind, get_signal. rewrite Hs.
  destruct (new_value_phase fuel next (sig_value sg) st Hu) as (st1 & HN & _ & HQ & Hsub);
    [lia|auto|].
  rewrite HN, Hv. unfold modify. fold (assigned s v st1).
  assert (Hs1 : signals st1 !! s = Some sg).
  { eapply lookup_same_values; eauto. apply (qs_values _ _ HQ). }
  rewrite (assigned_lookup _ _ _ _ Hs1). cbn [sig_subs].
  destruct (fan_out_quiet fuel (sig_subs sg) (assigned s v st1)) as (st' & HF & Hfan); auto.
  { intros e He. destruct (Hq e He) as (b & Hb & Hqb). exists b. split; auto.
    unfold body_of, assigned. simpl. rewrite (qs_effects _ _ HQ). exact Hb. }
  { unfold effects_depth, assigned. simpl. rewrite (qs_effects _ _ HQ).
    fold (effects_depth st). lia. }
  rewrite HF.
  assert (Hs' : signals st' !! s = Some (mkSignal v (sig_subs sg))).
  { eapply lookup_same_values.
    - apply (assigned_lookup _ _ _ _ Hs1).
    - apply (fan_values _ _ _ Hfan).
    - apply (fan_subs _ _ _ Hfan). intros e He.
      rewrite assigned_subs. unfold subs_of. rewrite Hs1. exact He. }
  rewrite Hs'. unfold ret. simpl.
  exists st1, st'. auto.
Qed.

Lemma eval_quiet_fst fuel body args st :
  quiet body = true -> (depth body < fuel)%nat ->
  fst (eval fuel body args st) = denote (values st) (length (counters st)) body args.
Proof.
  intros Hq Hd. destruct (quiet_eval body Hq fuel args st Hd) as (st' & HE & _).
  rewrite HE. reflexivity.
Qed.

Lemma next_value_literal fuel next cur st :
  is_function next = false -> next_value fuel next cur st = Ok next.
Proof. intros H. unfold next_value. rewrite H. reflexivity. Qed.

Lemma quiet_updater_literal next : is_function next = false -> quiet_updater next.
Proof. destruct next; simpl; auto; discriminate. Qed.

Lemma updater_depth_literal next : is_function next = false -> updater_depth next = O.
Proof. destruct next; simpl; auto; discriminate. Qed.

(** One write of a value that is not a function, quiet subscribers. *)
Lemma write_literal_step fuel st s sg next :
  signals st !! s = Some sg ->
  NoDup (sig_subs sg) ->
  (forall e, e ∈ sig_subs sg -> quiet_effect st e) ->
  is_function next = false ->
  (effects_depth st + 2 <= fuel)%nat ->
  exists st',
    write_at fuel s next st = (Ok next, st')
    /\ signals st' !! s = Some (mkSignal next (sig_subs sg))
    /\ (forall e, body_of e st' = body_of e st)
    /\ effects_depth st' = effects_depth st
    /\ (forall e, runs_of e st' =
                  (runs_of e st + if decide (e ∈ sig_subs sg) then 1 else 0)%nat)
    /\ exists new,
         console st' = console st ++ new /\
         forall e body err,
           e ∈ sig_subs sg ->
           body_of e st = Some (UserEffect (VFun body)) ->
           fst (eval fuel body [] st') = Throw err ->
           ("Error in signal subscriber:", err) ∈ new.
Proof.
  intros Hs Hnd Hq Hf Hfuel.
  destruct (write_ok_quiet fuel st s sg next next Hs Hnd Hq) as (st1 & st' & HW & HQ & Hsub & Hfan).
  { apply quiet_updater_literal; auto. }
  { congruence. }
  { unfold write_fuel. rewrite updater_depth_literal; auto. lia. }
  { apply next_value_literal; auto. }
  assert (Hs1 : signals st1 !! s = Some sg).
  { eapply lookup_same_values; eauto. apply (qs_values _ _ HQ). }
  assert (Hb1 : forall e, body_of e (assigned s next st1) = body_of e st).
  { intros e. unfold body_of, assigned. simpl. rewrite (qs_effects _ _ HQ). reflexivity. }
  exists st'. split; [exact HW|].
  split.
  { eapply lookup_same_values.
    - apply (assigned_lookup _ _ _ _ Hs1).
    - apply (fan_values _ _ _ Hfan).
    - apply (fan_subs _ _ _ Hfan). intros e He.
      rewrite assigned_subs. unfold subs_of. rewrite Hs1. exact He. }
  split. { intros e. rewrite (fan_bodies _ _ _ Hfan). apply Hb1. }
  split. { rewrite (fan_depth _ _ _ Hfan). unfold effects_depth, assigned. simpl.
           rewrite (qs_effects _ _ HQ). reflexivity. }
  split. { intros e. rewrite (fan_runs _ _ _ Hfan). unfold runs_of, assigned. simpl.
           rewrite (qs_effects _ _ HQ). reflexivity. }
  destruct (fan_console _ _ _ Hfan) as (new & Hc & Hrep).
  destruct (qs_console _ _ HQ) as (x1 & Hx1).
  exists (x1 ++ new). split.
  { rewrite Hc. unfold assigned. simpl. rewrite Hx1, app_assoc. reflexivity. }
  intros e body err He Hb Herr.
  apply elem_of_app. right. apply (Hrep e body err He).
  { rewrite Hb1. exact Hb. }
  destruct (Hq e He) as (b & Hb' & Hqb). rewrite Hb in Hb'. injection Hb' as <-.
  inversion Hqb as [body' Hqbody|]; subst.
  rewrite eval_quiet_fst in Herr; auto.
  - rewrite (fan_values _ _ _ Hfan), (fan_counters _ _ _ Hfan) in Herr. exact Herr.
  - pose proof (quiet_body_depth_le _ _ _ Hb) as Hdb. simpl in Hdb. lia.
Qed.

(** The last of the values of a sequence that has one does not depend on
    the value to fall back on. *)
Lemma last_value_default v v' r rs :
  last_value v (r :: rs) = last_value v' (r :: rs).
Proof.
  unfold last_value. revert r. induction rs as [|x rs IH]; intros r; [reflexivity|].
  change (List.last (x :: rs) v = List.last (x :: rs) v'). apply IH.
Qed.

Lemma total_updater_quiet next : total_updater next -> quiet_updater next.
Proof. destruct next; simpl; auto. intros [H _]. exact H. Qed.

Lemma total_updater_value fuel next cur st :
  total_updater next -> (updater_depth next < fuel)%nat ->
  exists v, next_value fuel next cur st = Ok v.
Proof.
  intros Ht Hd. unfold next_value. destruct next; simpl in *; try (eexists; reflexivity).
  - contradiction.
  - destruct Ht as [Hq Hok]. rewrite eval_quiet_fst by auto. apply Hok.
Qed.

(** One write of a value or of a quiet updater that returns [v], quiet
    subscribers. *)
Lemma write_quiet_step fuel st s sg next v :
  signals st !! s = Some sg ->
  NoDup (sig_subs sg) ->
  (forall e, e ∈ sig_subs sg -> quiet_effect st e) ->
  quiet_updater next ->
  (is_function next = true -> currentEffect st = None) ->
  (write_fuel st next <= fuel)%nat ->
  next_value fuel next (sig_value sg) st = Ok v ->
  exists st',
    write_at fuel s next st = (Ok v, st')
    /\ signals st' !! s = Some (mkSignal v (sig_subs sg))
    /\ (forall e, body_of e st' = body_of e st)
    /\ effects_depth st' = effects_depth st
    /\ (currentEffect st = None -> currentEffect st' = None)
    /\ (forall e, runs_of e st' =
                  (runs_of e st + if decide (e ∈ sig_subs sg) then 1 else 0)%nat)
    /\ exists new,
         console st' = console st ++ new /\
         forall e body err,
           e ∈ sig_subs sg ->
           body_of e st = Some (UserEffect (VFun body)) ->
           fst (eval fuel body [] st') = Throw err ->
           ("Error in signal subscriber:", err) ∈ new.
Proof.
  intros Hs Hnd Hq Hu Hc Hfuel Hv.
  destruct (write_ok_quiet fuel st s sg next v Hs Hnd Hq Hu Hc Hfuel Hv)
    as (st1 & st' & HW & HQ & Hsub & Hfan).
  unfold write_fuel in Hfuel.
  assert (Hs1 : signals st1 !! s = Some sg).
  { eapply lookup_same_values; eauto. apply (qs_values _ _ HQ). }
  assert (Hb1 : forall e, body_of e (assigned s v st1) = body_of e st).
  { intros e. unfold body_of, assigned. simpl. rewrite (qs_effects _ _ HQ). reflexivity. }
  exists st'. split; [exact HW|].
  split.
  { eapply lookup_same_values.
    - apply (assigned_lookup _ _ _ _ Hs1).
    - apply (fan_values _ _ _ Hfan).
    - apply (fan_subs _ _ _ Hfan). intros e He.
      rewrite assigned_subs. unfold subs_of. rewrite Hs1. exact He. }
  split. { intros e. rewrite (fan_bodies _ _ _ Hfan). apply Hb1. }
  split. { rewrite (fan_depth _ _ _ Hfan). unfold effects_depth, assigned. simpl.
           rewrite (qs_effects _ _ HQ). reflexivity. }
  split. { intros Hcur. rewrite (fan_current _ _ _ Hfan).
           destruct (sig_subs sg); [|reflexivity].
           unfold assigned. simpl. rewrite (qs_current _ _ HQ). exact Hcur. }
  split. { intros e. rewrite (fan_runs _ _ _ Hfan). unfold runs_of, assigned. simpl.
           rewrite (qs_effects _ _ HQ). reflexivity. }
  destruct (fan_console _ _ _ Hfan) as (new & Hcn & Hrep).
  destruct (qs_console _ _ HQ) as (x1 & Hx1).
  exists (x1 ++ new). split.
  { rewrite Hcn. unfold assigned. simpl. rewrite Hx1, app_assoc. reflexivity. }
  intros e body err He Hb Herr.
  apply elem_of_app. right. apply (Hrep e body err He).
  { rewrite Hb1. exact Hb. }
  destruct (Hq e He) as (b & Hb' & Hqb). rewrite Hb in Hb'. injection Hb' as <-.
  inversion Hqb as [body' Hqbody|]; subst.
  rewrite eval_quiet_fst in Herr; auto.
  - rewrite (fan_values _ _ _ Hfan), (fan_counters _ _ _ Hfan) in Herr. exact Herr.
  - pose proof (quiet_body_depth_le _ _ _ Hb) as Hdb. simpl in Hdb. lia.
Qed.


Lemma read_value s sg st :
  signals st !! s = Some sg -> fst (read s st) = Ok (sig_value sg).
Proof.
  intros Hs. destruct (read_quiet s st) as (st' & HR & _). rewrite HR. simpl.
  rewrite values_lookup, Hs. reflexivity.
Qed.

(** A write that returns, returns what the signal holds then, line 27. *)
Lemma write_returns_stored fuel s next st r st' :
  write_at fuel s next st = (Ok r, st') ->
  exists sg, signals st' !! s = Some sg /\ sig_value sg = r.
Proof.
  unfold write_at, write, try_catch. intros E.
  match type of E with
  | (match ?body st with _ => _ end) = _ => destruct (body st) as [[a|e|] st1] eqn:Eb
  end; try discriminate.
  injection E as -> ->.
  apply bind_ok_inv in Eb as (sg0 & s0 & _ & Eb).
  apply bind_ok_inv in Eb as (v & s1 & _ & Eb).
  apply bind_ok_inv in Eb as (? & s2 & _ & Eb).
  apply bind_ok_inv in Eb as (sg1 & s3 & _ & Eb).
  apply bind_ok_inv in Eb as (? & s4 & _ & Eb).
  apply bind_ok_inv in Eb as (sg2 & s5 & Hg & Eb).
  injection Eb as <- <-. unfold get_signal in Hg.
  destruct (signals s4 !! s) as [sg|] eqn:Hs; [|discriminate].
  injection Hg as <- <-. eauto.
Qed.

(** C3, as the code has it.  A write that returns, returns the value the
    signal holds once its subscribers have run, and a read that follows
    returns that same value.  When the subscribers are quiet effects, which
    write no signal, and [next] is a plain value or a quiet updater (an
    updater is used outside any effect run), the write does return, and
    that value is the new value: [next(current)] when [next] is callable
    and [next] itself otherwise ([next_value]). *)
Theorem write_stores_and_returns_new_value
    (fuel : nat) (st : state) (s : nat) (sg : signal) (next : val) :
  signals st !! s = Some sg ->
  (forall r st',
      write_at fuel s next st = (Ok r, st') ->
      value_of s st' = Some r /\ fst (read s st') = Ok r)
  /\ (forall v,
      NoDup (sig_subs sg) ->
      (forall e, e ∈ sig_subs sg -> quiet_effect st e) ->
      quiet_updater next ->
      (is_function next = true -> currentEffect st = None) ->
      (write_fuel st next <= fuel)%nat ->
      next_value fuel next (sig_value sg) st = Ok v ->
      exists st',
        write_at fuel s next st = (Ok v, st')
        /\ value_of s st' = Some v
        /\ fst (read s st') = Ok v).
Proof.
  intros Hs. split.
  - intros r st' HW.
    destruct (write_returns_stored fuel s next st r st' HW) as (g & Hg & <-).
    split.
    + unfold value_of. rewrite Hg. reflexivity.
    + apply read_value. exact Hg.
  - intros v Hnd Hq Hu Hc Hfuel Hv.
    destruct (write_ok_quiet fuel st s sg next v Hs Hnd Hq Hu Hc Hfuel Hv)
      as (st1 & st' & HW & HQ & Hsub & Hfan).
    assert (Hs1 : signals st1 !! s = Some sg).
    { eapply lookup_same_values; eauto. apply (qs_values _ _ HQ). }
    assert (Hs' : signals st' !! s = Some (mkSignal v (sig_subs sg))).
    { eapply lookup_same_values.
      - apply (assigned_lookup _ _ _ _ Hs1).
      - apply (fan_values _ _ _ Hfan).
      - apply (fan_subs _ _ _ Hfan). intros e He.
        rewrite assigned_subs. unfold subs_of. rewrite Hs1. exact He. }
    exists st'. split; [exact HW|]. split.
    + unfold value_of. rewrite Hs'. reflexivity.
    + rewrite (read_value s _ st' Hs'). reflexivity.
Qed.


Import Examples.

Lemma add_val_text a b :
  is_node (add_val a b) = false /\ is_array (add_val a b) = false.
Proof. destruct a, b; split; reflexivity. Qed.

Lemma count_label_text : text_valued count_label.
Proof.
  intros vals nc v H. unfold count_label in H. simpl in H.
  destruct (vals !! 0%nat); [|discriminate]. injection H as <-. split; reflexivity.
Qed.

Lemma three_subscribers_quiet e :
  e ∈ [0; 1; 2]%nat -> quiet_effect three_subscribers e.
Proof.
  intros He. apply list_elem_of_In in He. simpl in He.
  destruct He as [<-|[<-|[<-|[]]]]; eexists; (split; [reflexivity|]).
  - apply QuietUser. reflexivity.
  - apply QuietUser. reflexivity.
  - apply QuietChild; [reflexivity|exact count_label_text].
Defined.

Lemma nodup_012 : NoDup [0; 1; 2]%nat.
Proof. refine (bool_decide_unpack (NoDup [0; 1; 2]%nat) _). vm_compute. exact I. Defined.

Lemma increment_total : total_updater increment.
Proof.
  split; [reflexivity|]. intros vals nc cur. simpl. eexists. reflexivity.
Qed.

Lemma three_writes_total :
  Forall (fun next => total_updater next /\ (updater_depth next + 2 <= 4)%nat)
    [VNum 7; increment; increment].
Proof.
  repeat constructor; simpl; try lia. apply increment_total. apply increment_total.
Defined.


(** The same three writes run: they return 7, 8 and 9, the counting
    subscriber has counted to 4 (its first run and one per write), the
    reactive child shows the last value, and the throwing subscriber is
    reported once per write. *)
Example three_writes_run :
  let out := map_m (write_at 4 0) [VNum 7; increment; increment] three_subscribers in
  fst out = Ok [VNum 7; VNum 8; VNum 9]
  /\ value_of 0 (snd out) = Some (VNum 9)
  /\ counters (snd out) = [4]
  /\ data_of 1 (snd out) = "n = 9"
  /\ List.filter (fun line => String.eqb (fst line) "Error in signal subscriber:")
       (console (snd out))
     = [("Error in signal subscriber:", VErr "boom");
        ("Error in signal subscriber:", VErr "boom");
        ("Error in signal subscriber:", VErr "boom")].
Proof. vm_compute. repeat split; reflexivity. Qed.


(** C3 as stated fails: in [clamped] the subscriber writes 3 whenever it
    reads less than 3.  The write of 0 stores 0, runs the subscriber, and
    returns what the signal holds after that, line 27: 3, not the value 0
    it was given; the read that follows returns 3 as well. *)
Lemma write_returns_later_value :
  value_of 0 clamped = Some (VNum 5)
  /\ next_value 9 (VNum 0) (VNum 5) clamped = Ok (VNum 0)
  /\ fst (write_at 9 0 (VNum 0) clamped) = Ok (VNum 3)
  /\ value_of 0 (snd (write_at 9 0 (VNum 0) clamped)) = Some (VNum 3)
  /\ fst (read 0 (snd (write_at 9 0 (VNum 0) clamped))) = Ok (VNum 3).
Proof. vm_compute. repeat split; reflexivity. Qed.

Lemma write_stores_and_returns_new_value_witness :
  (forall r st',
      write_at 4 0 increment three_subscribers = (Ok r, st') ->
      value_of 0 st' = Some r /\ fst (read 0 st') = Ok r)
  /\ exists st',
       write_at 4 0 increment three_subscribers = (Ok (VNum 1), st')
       /\ value_of 0 st' = Some (VNum 1)
       /\ fst (read 0 st') = Ok (VNum 1).
Proof.
  destruct (write_stores_and_returns_new_value 4 three_subscribers 0
              (mkSignal (VNum 0) [0; 1; 2]%nat) increment eq_refl) as [Hany Hquiet].
  split; [exact Hany|].
  apply (Hquiet (VNum 1)).
  - exact nodup_012.
  - exact three_subscribers_quiet.
  - reflexivity.
  - reflexivity.
  - vm_compute. lia.
  - reflexivity.
Defined.


Lemma read_outside_effect s sg st :
  signals st !! s = Some sg ->
  currentEffect st = None ->
  read s st = (Ok (sig_value sg), st).
Proof.
  intros Hs Hc. unfold read, try_catch, bind, get_signal, gets, ret.
  rewrite Hs. simpl. rewrite Hc. reflexivity.
Qed.



(** The test of the specification: one signal holding 1, one effect that
    reads it and counts its runs in [n]; after [w(1)] the count is 2. *)
Example roundtrip_test :
  counters (snd (write_at 3 0 (VNum 1) roundtrip_setup)) = [2]
  /\ counters roundtrip_setup = [1].
Proof. split; reflexivity. Qed.

Lemma set_add_mono x e l : x ∈ l -> x ∈ set_add e l.
Proof.
  intros H. unfold set_add. destruct (decide _); auto. apply elem_of_app. auto.
Qed.

Lemma set_add_self e l : e ∈ set_add e l.
Proof.
  unfold set_add. destruct (decide _); auto. apply elem_of_app. right. left.
Qed.

Lemma quiet_step_subs_mono st st' s x :
  quiet_step st st' -> x ∈ subs_of s st -> x ∈ subs_of s st'.
Proof.
  intros HQ Hx. destruct (qs_subs _ _ HQ s) as [->|(c & _ & ->)]; auto.
  apply set_add_mono; auto.
Qed.

Lemma values_length st : length (values st) = length (signals st).
Proof. unfold values. apply length_map. Qed.

Lemma quiet_step_signals_length st st' :
  quiet_step st st' -> length (signals st') = length (signals st).
Proof. intros HQ. rewrite <- !values_length, (qs_values _ _ HQ). reflexivity. Qed.

(** Every signal a quiet body reads gets the current effect as subscriber. *)
Lemma quiet_reads_subscribe e :
  quiet e = true ->
  forall fuel args st st' r c,
  (depth e < fuel)%nat ->
  eval fuel e args st = (r, st') ->
  currentEffect st = Some c ->
  forall t, t ∈ reads (values st) (length (counters st)) e args ->
            (t < length (signals st))%nat -> c ∈ subs_of t st'.
Proof.
  induction e; simpl; intros Hq fuel args st st' r cur Hd HE Hc t Hs Hlt;
    try discriminate; try (exfalso; eapply not_elem_of_nil; eauto; fail);
    destruct fuel as [|fuel]; try lia; simpl in HE.
  - (* ERead *)
    apply list_elem_of_singleton in Hs. subst t.
    unfold read, try_catch, bind, get_signal, gets, modify, ret in HE.
    destruct (lookup_lt_is_Some_2 _ _ Hlt) as [sg Hsg].
    rewrite Hsg in HE. simpl in HE. rewrite Hc in HE. simpl in HE.
    injection HE as _ <-. rewrite subs_of_alter, decide_True; auto.
    rewrite Hsg. simpl. apply set_add_self.
  - (* EThrow *)
    unfold bind in HE.
    destruct (eval fuel e args st) as [[v|x|] st1] eqn:E1; injection HE as _ <-;
      (eapply (IHe Hq fuel args st st1 _ cur); [lia|exact E1|exact Hc|exact Hs|exact Hlt]).
  - (* ESeq *)
    apply andb_prop in Hq as [Hq1 Hq2]. unfold bind in HE.
    destruct (quiet_eval e1 Hq1 fuel args st) as (st1 & E1 & HQ1); [lia|].
    rewrite E1 in HE.
    apply elem_of_app in Hs as [Hs|Hs].
    + assert (H1 : cur ∈ subs_of t st1)
        by (eapply (IHe1 Hq1 fuel args st st1 _ cur); [lia|exact E1|exact Hc|exact Hs|exact Hlt]).
      destruct (denote _ _ e1 args); try (injection HE as _ <-; exact H1).
      destruct (quiet_eval e2 Hq2 fuel args st1) as (st2 & E2 & HQ2); [lia|].
      rewrite E2 in HE. injection HE as _ <-.
      eapply quiet_step_subs_mono; eauto.
    + destruct (denote _ _ e1 args) eqn:D1;
        try (exfalso; eapply not_elem_of_nil; eauto; fail).
      eapply (IHe2 Hq2 fuel args st1 _ _ cur); [lia|eassumption| | |].
      * rewrite (qs_current _ _ HQ1). exact Hc.
      * rewrite (qs_values _ _ HQ1), (qs_counters _ _ HQ1). exact Hs.
      * rewrite (quiet_step_signals_length _ _ HQ1). exact Hlt.
  - (* EIf *)
    apply andb_prop in Hq as [Hq Hq3]. apply andb_prop in Hq as [Hq1 Hq2].
    unfold bind in HE.
    destruct (quiet_eval e1 Hq1 fuel args st) as (st1 & E1 & HQ1); [lia|].
    rewrite E1 in HE.
    apply elem_of_app in Hs as [Hs|Hs].
    + assert (H1 : cur ∈ subs_of t st1)
        by (eapply (IHe1 Hq1 fuel args st st1 _ cur); [lia|exact E1|exact Hc|exact Hs|exact Hlt]).
      destruct (denote _ _ e1 args); try (injection HE as _ <-; exact H1).
      destruct (truthy a).
      * destruct (quiet_eval e2 Hq2 fuel args st1) as (st2 & E2 & HQ2); [lia|].
        rewrite E2 in HE. injection HE as _ <-.
        eapply quiet_step_subs_mono; eauto.
      * destruct (quiet_eval e3 Hq3 fuel args st1) as (st2 & E2 & HQ2); [lia|].
        rewrite E2 in HE. injection HE as _ <-.
        eapply quiet_step_subs_mono; eauto.
    + destruct (denote _ _ e1 args) eqn:D1;
        try (exfalso; eapply not_elem_of_nil; eauto; fail).
      destruct (truthy a).
      * eapply (IHe2 Hq2 fuel args st1 _ _ cur); [lia|eassumption| | |].
        -- rewrite (qs_current _ _ HQ1). exact Hc.
        -- rewrite (qs_values _ _ HQ1), (qs_counters _ _ HQ1). exact Hs.
        -- rewrite (quiet_step_signals_length _ _ HQ1). exact Hlt.
      * eapply (IHe3 Hq3 fuel args st1 _ _ cur); [lia|eassumption| | |].
        -- rewrite (qs_current _ _ HQ1). exact Hc.
        -- rewrite (qs_values _ _ HQ1), (qs_counters _ _ HQ1). exact Hs.
        -- rewrite (quiet_step_signals_length _ _ HQ1). exact Hlt.
  - (* EAdd *)
    apply andb_prop in Hq as [Hq1 Hq2]. unfold bind in HE.
    destruct (quiet_eval e1 Hq1 fuel args st) as (st1 & E1 & HQ1); [lia|].
    rewrite E1 in HE.
    apply elem_of_app in Hs as [Hs|Hs].
    + assert (H1 : cur ∈ subs_of t st1)
        by (eapply (IHe1 Hq1 fuel args st st1 _ cur); [lia|exact E1|exact Hc|exact Hs|exact Hlt]).
      destruct (denote _ _ e1 args); try (injection HE as _ <-; exact H1).
      destruct (quiet_eval e2 Hq2 fuel args st1) as (st2 & E2 & HQ2); [lia|].
      rewrite E2 in HE.
      assert (st' = st2) as ->.
      { destruct (denote _ _ e2 args); unfold ret in HE; congruence. }
      eapply quiet_step_subs_mono; eauto.
    + destruct (denote _ _ e1 args) eqn:D1;
        try (exfalso; eapply not_elem_of_nil; eauto; fail).
      destruct (eval fuel e2 args st1) as [r2 st2] eqn:E2.
      assert (st' = st2) as ->.
      { destruct r2; unfold ret in HE; congruence. }
      eapply (IHe2 Hq2 fuel args st1 _ _ cur); [lia|eassumption| | |].
      * rewrite (qs_current _ _ HQ1). exact Hc.
      * rewrite (qs_values _ _ HQ1), (qs_counters _ _ HQ1). exact Hs.
      * rewrite (quiet_step_signals_length _ _ HQ1). exact Hlt.
  - (* ELt *)
    apply andb_prop in Hq as [Hq1 Hq2]. unfold bind in HE.
    destruct (quiet_eval e1 Hq1 fuel args st) as (st1 & E1 & HQ1); [lia|].
    rewrite E1 in HE.
    apply elem_of_app in Hs as [Hs|Hs].
    + assert (H1 : cur ∈ subs_of t st1)
        by (eapply (IHe1 Hq1 fuel args st st1 _ cur); [lia|exact E1|exact Hc|exact Hs|exact Hlt]).
      destruct (denote _ _ e1 args); try (injection HE as _ <-; exact H1).
      destruct (quiet_eval e2 Hq2 fuel args st1) as (st2 & E2 & HQ2); [lia|].
      rewrite E2 in HE.
      assert (st' = st2) as ->.
      { destruct (denote _ _ e2 args); unfold ret in HE; congruence. }
      eapply quiet_step_subs_mono; eauto.
    + destruct (denote _ _ e1 args) eqn:D1;
        try (exfalso; eapply not_elem_of_nil; eauto; fail).
      destruct (eval fuel e2 args st1) as [r2 st2] eqn:E2.
      assert (st' = st2) as ->.
      { destruct r2; unfold ret in HE; congruence. }
      eapply (IHe2 Hq2 fuel args st1 _ _ cur); [lia|eassumption| | |].
      * rewrite (qs_current _ _ HQ1). exact Hc.
      * rewrite (qs_values _ _ HQ1), (qs_counters _ _ HQ1). exact Hs.
      * rewrite (quiet_step_signals_length _ _ HQ1). exact Hlt.
Qed.

Lemma runEffect_S n e :
  runEffect (S n) e = runEffect_body (eval n) (runEffect n) e.
Proof. reflexivity. Qed.

Lemma setEffect_unfold n fn st :
  setEffect_at (S n) fn st =
  match call_fn (eval n) fn [] (entry_state fn st) with
  | (Ok _, st1) => (Ok VUndef, set_current None st1)
  | (Throw err, st1) =>
      (Ok VUndef,
       set_console (fun l => l ++ [("Error initializing effect:", err)])
         (set_console (fun l => l ++ [("Error in effect:", err)])
            (set_current None st1)))
  | (Diverge, st1) => (Diverge, st1)
  end.
Proof.
  unfold setEffect_at, setEffect, try_report, try_catch, bind.
  cbn -[runEffect eval]. rewrite runEffect_S.
  unfold runEffect_body, try_catch, bind, modify, get_effect, ret, console_error, throw.
  cbn -[runEffect eval].
  rewrite list_lookup_alter_eq.
  rewrite lookup_app_r, Nat.sub_diag by lia. cbn -[runEffect eval].
  fold (entry_state fn st).
  destruct (call_fn (eval n) fn [] (entry_state fn st)) as [[v|x|] st1]; reflexivity.
Qed.

Lemma entry_state_runs fn st :
  runs_of (length (effects st)) (entry_state fn st) = 1%nat.
Proof.
  unfold runs_of, entry_state. simpl.
  rewrite list_lookup_alter_eq, lookup_app_r, Nat.sub_diag by lia. reflexivity.
Qed.

(** C4, as the code has it. [setEffect(fn)] allocates the closure, counts one
    run and enters [fn] once with the slot holding that closure
    ([entry_state]); whether [fn] returns or throws the slot is then none and
    [setEffect] returns undefined, a failure being reported only.  The slot
    holds the closure up to the first effect run started inside [fn]: for a
    body that starts none, every signal the body reads has the closure among
    its subscribers afterwards. *)
Theorem setEffect_slot_lifecycle (n : nat) (fn : val) (st : state) :
  currentEffect (entry_state fn st) = Some (length (effects st))
  /\ runs_of (length (effects st)) (entry_state fn st) = 1%nat
  /\ setEffect_at (S n) fn st =
       match call_fn (eval n) fn [] (entry_state fn st) with
       | (Ok _, st1) => (Ok VUndef, set_current None st1)
       | (Throw err, st1) =>
           (Ok VUndef,
            set_console (fun l => l ++ [("Error initializing effect:", err)])
              (set_console (fun l => l ++ [("Error in effect:", err)])
                 (set_current None st1)))
       | (Diverge, st1) => (Diverge, st1)
       end
  /\ forall body,
       fn = VFun body -> quiet body = true -> (depth body < n)%nat ->
       exists st',
         setEffect_at (S n) fn st = (Ok VUndef, st')
         /\ currentEffect st' = None
         /\ runs_of (length (effects st)) st' = 1%nat
         /\ forall t,
              t ∈ reads (values st) (length (counters st)) body [] ->
              (t < length (signals st))%nat ->
              length (effects st) ∈ subs_of t st'.
Proof.
  split; [reflexivity|]. split; [apply entry_state_runs|].
  split; [apply setEffect_unfold|].
  intros body -> Hq Hd. rewrite setEffect_unfold. simpl.
  destruct (quiet_eval body Hq n [] (entry_state (VFun body) st) Hd) as (st1 & HE & HQ).
  pose proof (denote_quiet (values (entry_state (VFun body) st))
                (length (counters (entry_state (VFun body) st))) body [] Hq) as Hnd.
  assert (Hruns : runs_of (length (effects st)) st1 = 1%nat).
  { unfold runs_of. rewrite (qs_effects _ _ HQ). apply entry_state_runs. }
  assert (Hreads : forall t,
             t ∈ reads (values st) (length (counters st)) body [] ->
             (t < length (signals st))%nat ->
             length (effects st) ∈ subs_of t st1).
  { intros t Ht Hlt.
    eapply (quiet_reads_subscribe body Hq n [] (entry_state (VFun body) st) st1);
      [exact Hd|exact HE|reflexivity|exact Ht|exact Hlt]. }
  rewrite HE.
  destruct (denote _ _ body []) eqn:D; try congruence;
    eexists; (split; [reflexivity|]); auto.
Qed.


Lemma setEffect_slot_lifecycle_witness :
  exists st',
    setEffect_at 3 (VFun counting_body) one_signal = (Ok VUndef, st')
    /\ currentEffect st' = None
    /\ runs_of 0 st' = 1%nat
    /\ forall t,
         t ∈ reads (values one_signal) (length (counters one_signal)) counting_body [] ->
         (t < length (signals one_signal))%nat ->
         0%nat ∈ subs_of t st'.
Proof.
  apply (proj2 (proj2 (proj2
           (setEffect_slot_lifecycle 2 (VFun counting_body) one_signal)))
           counting_body); [reflexivity|reflexivity|vm_compute; lia].
Defined.

(** C4 as stated fails: the body [nesting_body] creates an effect and then
    reads signal 0.  When its read runs the slot is already none, so the
    outer effect, number 0, is not subscribed although its body read the
    signal. *)
Lemma nested_effect_clears_slot :
  let entry := entry_state (VFun nesting_body) one_signal in
  let mid := snd (eval 3 (EEffect (EConst VUndef)) [] entry) in
  let final := snd (setEffect_at 5 (VFun nesting_body) one_signal) in
  currentEffect entry = Some 0%nat
  /\ currentEffect mid = None
  /\ fst (setEffect_at 5 (VFun nesting_body) one_signal) = Ok VUndef
  /\ runs_of 0 final = 1%nat
  /\ subs_of 0 final = [].
Proof. vm_compute. repeat split; reflexivity. Qed.

(** * Properties of mounting *)

(** C9. When the root is a selector that resolves to no element, [render]
    reports this and returns undefined without doing anything else: the
    store is the one before the call plus the console line, so nothing has
    been cleared, called or appended. *)
Theorem render_unresolved_selector_aborts
    (querySelector : list node -> string -> outcome (option nat))
    (fuel : nat) (component options : val) (selector : string) (st : state) :
  querySelector (dom st) selector = Ok None ->
  exists st',
    render querySelector fuel component (VStr selector) options st = (Ok VUndef, st')
    /\ dom st' = dom st
    /\ signals st' = signals st
    /\ effects st' = effects st
    /\ counters st' = counters st
    /\ refs st' = refs st
    /\ currentEffect st' = currentEffect st
    /\ console st' =
       console st ++ [("Cannot find element matching selector: null", VUndef)].
Proof.
  intros Hq. eexists. split.
  - unfold render, try_catch, bind, query. rewrite Hq.
    unfold console_error, modify, ret. simpl. reflexivity.
  - simpl. repeat split; reflexivity.
Qed.

Lemma render_unresolved_selector_aborts_witness :
  exists st',
    render page_query 5 (VFun (ETick 0)) (VStr "#missing") VUndef page = (Ok VUndef, st')
    /\ dom st' = dom page
    /\ signals st' = signals page
    /\ effects st' = effects page
    /\ counters st' = counters page
    /\ refs st' = refs page
    /\ currentEffect st' = currentEffect page
    /\ console st' =
       console page ++ [("Cannot find element matching selector: null", VUndef)].
Proof.
  apply (render_unresolved_selector_aborts page_query 5 (VFun (ETick 0)) VUndef
           "#missing" page).
  reflexivity.
Defined.

Lemma fresh_not_ancestor fuel d x n :
  dom_closed d -> (n < length d)%nat ->
  Dom.inclusive_ancestor fuel (d ++ [x]) (length d) n = false.
Proof.
  intros Hc. revert n. induction fuel as [|fuel IH]; intros n Hn; simpl.
  - rewrite orb_false_r. apply Nat.eqb_neq. lia.
  - apply orb_false_intro; [apply Nat.eqb_neq; lia|].
    rewrite lookup_app_l by lia.
    destruct (d !! n) as [nd|] eqn:Hd; auto.
    destruct (nparent nd) as [p|] eqn:Hp; auto.
    apply IH. eapply Hc; eauto.
Qed.

Lemma append_fresh_text r s st rn :
  dom st !! r = Some rn ->
  Dom.can_have_kids rn = true ->
  dom_closed (dom st) ->
  (t <- Dom.createTextNode s ;; Dom.appendChild r t) st
    = (Ok tt, with_text_appended r s st).
Proof.
  intros Hr Hk Hc.
  assert (Hlt : (r < length (dom st))%nat) by (eapply lookup_lt_Some; eauto).
  unfold Dom.createTextNode, Dom.alloc_node, Dom.appendChild, Dom.insertBefore,
    Dom.check_insert, bind, Dom.get_node, gets. simpl.
  rewrite lookup_app_l by lia. rewrite Hr. simpl.
  rewrite lookup_app_r, Nat.sub_diag by lia. simpl.
  rewrite Hk. simpl. rewrite length_app. simpl.
  rewrite fresh_not_ancestor by auto.
  unfold ret, Dom.take_for_insert, bind, Dom.get_node. simpl.
  rewrite lookup_app_r, Nat.sub_diag by lia. simpl.
  unfold Dom.detach, bind, Dom.get_node. simpl.
  rewrite lookup_app_r, Nat.sub_diag by lia. simpl.
  unfold ret, Dom.update_node, modify. simpl.
  reflexivity.
Qed.

Lemma with_text_appended_kids r s st rn :
  dom st !! r = Some rn ->
  kids_of r (with_text_appended r s st) = nkids rn ++ [length (dom st)].
Proof.
  intros Hr. assert (Hlt : (r < length (dom st))%nat) by (eapply lookup_lt_Some; eauto).
  unfold kids_of, with_text_appended. simpl.
  rewrite list_lookup_alter_eq, list_lookup_alter_ne by lia.
  rewrite lookup_app_l by lia. rewrite Hr. reflexivity.
Qed.

Lemma with_text_appended_node r s st rn :
  dom st !! r = Some rn ->
  dom (with_text_appended r s st) !! length (dom st)
    = Some (mkNode KText s [] (Some r) [] []).
Proof.
  intros Hr. assert (Hlt : (r < length (dom st))%nat) by (eapply lookup_lt_Some; eauto).
  unfold with_text_appended. simpl.
  rewrite list_lookup_alter_ne by lia.
  rewrite list_lookup_alter_eq, lookup_app_r, Nat.sub_diag by lia. reflexivity.
Qed.

(** C8, as the code has it. When the component, called or taken as it is,
    yields a primitive, [render] tests it for truthiness first: a truthy
    primitive is appended to the root as a text node holding its string and
    is returned; a falsy one (0, the empty string, false, null, undefined)
    makes [render] return null with nothing appended. *)
Theorem render_primitive_result
    (querySelector : list node -> string -> outcome (option nat))
    (fuel : nat) (component options v : val) (r : nat) (rn : node)
    (st st0 st1 : state) :
  render_prepare fuel (VNode r) options st = (Ok tt, st0) ->
  view_of fuel component st0 = (Ok v, st1) ->
  is_primitive v = true ->
  dom st1 !! r = Some rn ->
  Dom.can_have_kids rn = true ->
  dom_closed (dom st1) ->
  render querySelector fuel component (VNode r) options st =
    (if truthy v
     then (Ok v, with_text_appended r (to_string v) st1)
     else (Ok VNull, st1))
  /\ kids_of r (with_text_appended r (to_string v) st1)
     = nkids rn ++ [length (dom st1)]
  /\ dom (with_text_appended r (to_string v) st1) !! length (dom st1)
     = Some (mkNode KText (to_string v) [] (Some r) [] []).
Proof.
  intros HP HV Hprim Hr Hk Hc.
  split; [|split; [eapply with_text_appended_kids|eapply with_text_appended_node]; eauto].
  unfold render, try_catch, bind at 1. unfold ret at 1.
  unfold bind at 1. rewrite HP.
  unfold render_view, bind at 1, try_catch, bind at 1. rewrite HV.
  unfold ret at 1.
  destruct (truthy v) eqn:Ht; simpl; [|reflexivity].
  pose proof (append_fresh_text r (to_string v) st1 rn Hr Hk Hc) as HA.
  destruct v; try discriminate; simpl in *;
    unfold bind in *; unfold root_append;
    destruct (Dom.createTextNode _ st1) as [[t| |] st2] eqn:HT;
    try (unfold Dom.createTextNode, Dom.alloc_node in HT; discriminate);
    rewrite HA; reflexivity.
Qed.


Lemma render_primitive_result_witness :
  let st0 := snd (render_prepare 5 (VNode 0) VUndef page) in
  render page_query 5 (VFun (EConst (VStr "hi"))) (VNode 0) VUndef page =
    (if truthy (VStr "hi")
     then (Ok (VStr "hi"), with_text_appended 0 (to_string (VStr "hi")) st0)
     else (Ok VNull, st0))
  /\ kids_of 0 (with_text_appended 0 (to_string (VStr "hi")) st0)
     = [] ++ [length (dom st0)]
  /\ dom (with_text_appended 0 (to_string (VStr "hi")) st0) !! length (dom st0)
     = Some (mkNode KText (to_string (VStr "hi")) [] (Some 0%nat) [] []).
Proof.
  intros st0.
  apply (render_primitive_result page_query 5 (VFun (EConst (VStr "hi"))) VUndef
           (VStr "hi") 0 (mkNode (KElement false "div") "" [] None [("id", "app")] [])
           page st0 st0).
  - reflexivity.
  - reflexivity.
  - reflexivity.
  - reflexivity.
  - reflexivity.
  - intros [|[|n]] nd p H Hp; simpl in H; inversion H; subst; simpl in Hp;
      try discriminate.
Defined.

(** C8 as stated fails on a falsy primitive: a component that yields 0 is
    mounted as nothing, and [render] returns null, not 0. *)
Lemma render_drops_falsy_primitive :
  let result := render page_query 5 (VFun (EConst (VNum 0))) (VStr "#app") VUndef page in
  is_primitive (VNum 0) = true
  /\ fst result = Ok VNull
  /\ kids_of 0 (snd result) = []
  /\ length (dom (snd result)) = length (dom page).
Proof. vm_compute. repeat split; reflexivity. Qed.

(** * Properties of the element builder *)

Lemma throws_only_weaken {A} (P Q : val -> Prop) (m : M A) :
  (forall e, P e -> Q e) -> throws_only P m -> throws_only Q m.
Proof.
  intros HPQ H st r st' E. specialize (H st r st' E). destruct r; auto.
Qed.

Lemma throws_only_ret {A} P (a : A) : throws_only P (ret a).
Proof. intros st r st' E. unfold ret in E. injection E as <- _. exact I. Qed.

Lemma throws_only_throw {A} (P : val -> Prop) e : P e -> throws_only P (@throw A e).
Proof. intros H st r st' E. unfold throw in E. injection E as <- _. exact H. Qed.

Lemma throws_only_modify P f : throws_only P (modify f).
Proof. intros st r st' E. unfold modify in E. injection E as <- _. exact I. Qed.

Lemma throws_only_gets {A} P (f : state -> A) : throws_only P (gets f).
Proof. intros st r st' E. unfold gets in E. injection E as <- _. exact I. Qed.

Lemma throws_only_bind {A B} P (m : M A) (k : A -> M B) :
  throws_only P m -> (forall a, throws_only P (k a)) -> throws_only P (bind m k).
Proof.
  intros Hm Hk st r st' E. unfold bind in E.
  destruct (m st) as [[a|e|] st1] eqn:Em.
  - eapply Hk; eauto.
  - injection E as <- _. apply (Hm _ _ _ Em).
  - injection E as <- _. exact I.
Qed.

Lemma throws_only_try_catch {A} P Q (m : M A) (h : val -> M A) :
  throws_only Q m -> (forall e, Q e -> throws_only P (h e)) ->
  throws_only P (try_catch m h).
Proof.
  intros Hm Hh st r st' E. unfold try_catch in E.
  destruct (m st) as [[a|e|] st1] eqn:Em.
  - injection E as <- _. exact I.
  - eapply Hh; eauto. apply (Hm _ _ _ Em).
  - injection E as <- _. exact I.
Qed.

Lemma throws_only_for_each {A} P (f : A -> M unit) l :
  (forall x, throws_only P (f x)) -> throws_only P (for_each f l).
Proof.
  intros Hf. induction l as [|x l IH]; simpl.
  - apply throws_only_ret.
  - apply throws_only_bind; auto.
Qed.

Lemma throws_only_any {A} (m : M A) : throws_only (fun _ => True) m.
Proof. intros st r st' E. destruct r; exact I. Qed.

Ltac throws_struct :=
  first
    [ apply throws_only_ret | apply throws_only_modify | apply throws_only_gets
    | apply throws_only_throw; split; reflexivity
    | apply throws_only_for_each; intros ?
    | match goal with
      | |- throws_only _ (bind _ _) => apply throws_only_bind; [|intros ?]
      | |- throws_only _ (match ?x with _ => _ end) => destruct x
      end ].

Lemma get_node_throws n : throws_only has_message (Dom.get_node n).
Proof.
  intros st r st' E. unfold Dom.get_node in E.
  destruct (dom st !! n); injection E as <- _; [exact I|split; reflexivity].
Qed.

Lemma update_node_throws P n f : throws_only P (Dom.update_node n f).
Proof. apply throws_only_modify. Qed.

Lemma alloc_node_throws P nd : throws_only P (Dom.alloc_node nd).
Proof. intros st r st' E. unfold Dom.alloc_node in E. injection E as <- _. exact I. Qed.

Ltac throws_dom0 :=
  first [ apply get_node_throws | apply update_node_throws | apply alloc_node_throws
        | throws_struct ].

Lemma detach_throws n : throws_only has_message (Dom.detach n).
Proof. unfold Dom.detach. repeat throws_dom0. Qed.

Lemma insertBefore_throws p c b : throws_only has_message (Dom.insertBefore p c b).
Proof.
  unfold Dom.insertBefore, Dom.check_insert, Dom.take_for_insert.
  repeat first [ apply detach_throws | throws_dom0 ].
Qed.

Lemma appendChild_throws p c : throws_only has_message (Dom.appendChild p c).
Proof. apply insertBefore_throws. Qed.

Lemma removeChild_throws p c : throws_only has_message (Dom.removeChild p c).
Proof. unfold Dom.removeChild. repeat first [ apply detach_throws | throws_dom0 ]. Qed.

Lemma nextSibling_throws n : throws_only has_message (Dom.nextSibling n).
Proof. unfold Dom.nextSibling. repeat throws_dom0. Qed.

Lemma createTextNode_throws P s : throws_only P (Dom.createTextNode s).
Proof. apply alloc_node_throws. Qed.

Lemma createComment_throws P s : throws_only P (Dom.createComment s).
Proof. apply alloc_node_throws. Qed.

Lemma createDocumentFragment_throws P : throws_only P Dom.createDocumentFragment.
Proof. apply alloc_node_throws. Qed.

Lemma createElement_throws svg t : throws_only has_message (Dom.createElement svg t).
Proof. unfold Dom.createElement. repeat throws_dom0. Qed.

Lemma set_textContent_throws n s : throws_only has_message (Dom.set_textContent n s).
Proof.
  unfold Dom.set_textContent.
  repeat first [ apply appendChild_throws | apply createTextNode_throws | throws_dom0 ].
Qed.

Lemma setAttribute_throws el k v : throws_only has_message (Element.setAttribute el k v).
Proof. unfold Element.setAttribute. repeat throws_dom0. Qed.

Lemma setAttributeNS_throws el ns k v :
  throws_only has_message (Element.setAttributeNS el ns k v).
Proof. unfold Element.setAttributeNS. repeat throws_dom0. Qed.

Lemma removeAttribute_throws P el k : throws_only P (Element.removeAttribute el k).
Proof. apply update_node_throws. Qed.

Lemma set_prop_throws P el k v : throws_only P (Element.set_prop el k v).
Proof. apply update_node_throws. Qed.

Ltac throws :=
  repeat first
    [ apply detach_throws | apply insertBefore_throws | apply appendChild_throws
    | apply removeChild_throws | apply nextSibling_throws
    | apply createTextNode_throws | apply createComment_throws
    | apply createDocumentFragment_throws | apply createElement_throws
    | apply set_textContent_throws | apply setAttribute_throws
    | apply setAttributeNS_throws | apply removeAttribute_throws
    | apply set_prop_throws | throws_dom0 ].

Lemma console_error_throws P label e : throws_only P (console_error label e).
Proof. apply throws_only_modify. Qed.

Lemma message_of_throws e : throws_only has_message (message_of e).
Proof. unfold message_of. destruct e; throws. Qed.

Lemma template_text_throws v : throws_only has_message (template_text v).
Proof. unfold template_text. throws. Qed.

(** On a value with a message the handlers' [`${error.message}`] yields a
    text. *)
Lemma message_text_ok e st :
  has_message e ->
  exists msg, message_of e st = (Ok msg, st)
              /\ template_text msg st = (Ok (to_string msg), st).
Proof.
  intros [Hn Hs]. unfold template_text.
  destruct e; try discriminate Hn; simpl in Hs; simpl;
    eexists; (split; [reflexivity|]); try rewrite Hs; reflexivity.
Qed.

Lemma node_of_throws P item : throws_only P (node_of item).
Proof. unfold node_of. destruct item; throws. Qed.

Lemma fragment_of_throws items : throws_only has_message (fragment_of items).
Proof.
  unfold fragment_of. repeat first [ apply node_of_throws | progress throws ].
Qed.

Section BuilderSafety.

Variable ev : expr -> list val -> M val.
Variable run : nat -> M val.

(** The inner [appendChild] of [html] catches whatever binding a child
    throws. *)
Lemma bind_item_never_throws parent child :
  throws_only (fun _ => False) (bind_item run parent child).
Proof.
  unfold bind_item.
  eapply throws_only_try_catch with (Q := fun _ => True).
  - apply throws_only_any.
  - intros e _. apply console_error_throws.
Qed.

Lemma bind_child_never_throws parent child :
  throws_only (fun _ => False) (bind_child run parent child).
Proof.
  unfold bind_child. destruct child; try apply bind_item_never_throws.
  eapply throws_only_try_catch with (Q := fun _ => True).
  - apply throws_only_any.
  - intros e _. apply console_error_throws.
Qed.

Lemma apply_property_throws svg element k v :
  (k = "ref" -> is_function v = true ->
   throws_only has_message (call_fn ev v [VNode element])) ->
  throws_only has_message (apply_property ev svg element k v).
Proof.
  intros Href. unfold apply_property.
  repeat match goal with
         | |- throws_only _ (if ?b then _ else _) => destruct b eqn:?
         end; throws.
  - apply Href; auto. apply String.eqb_eq; auto.
Qed.

End BuilderSafety.


(** ** The tree only grows *)

Lemma kinds_kept_refl st : kinds_kept st st.
Proof. intros n nd H. eauto. Qed.

Lemma kinds_kept_trans a b c : kinds_kept a b -> kinds_kept b c -> kinds_kept a c.
Proof.
  intros H1 H2 n nd H. destruct (H1 n nd H) as (nd1 & Hb & Hk1).
  destruct (H2 n nd1 Hb) as (nd2 & Hc & Hk2). exists nd2. split; [exact Hc|congruence].
Qed.

Lemma kinds_kept_same_dom st st' : dom st' = dom st -> kinds_kept st st'.
Proof. intros E n nd H. rewrite E. eauto. Qed.

Lemma kk_ret {A} (a : A) : keeps_kinds (ret a).
Proof. intros st r st' E. injection E as _ <-. apply kinds_kept_refl. Qed.

Lemma kk_throw {A} e : keeps_kinds (@throw A e).
Proof. intros st r st' E. injection E as _ <-. apply kinds_kept_refl. Qed.

Lemma kk_diverge {A} : keeps_kinds (@diverge A).
Proof. intros st r st' E. injection E as _ <-. apply kinds_kept_refl. Qed.

Lemma kk_gets {A} (f : state -> A) : keeps_kinds (gets f).
Proof. intros st r st' E. injection E as _ <-. apply kinds_kept_refl. Qed.

Lemma kk_modify f : (forall st, dom (f st) = dom st) -> keeps_kinds (modify f).
Proof. intros H st r st' E. injection E as _ <-. apply kinds_kept_same_dom, H. Qed.

Lemma kk_bind {A B} (m : M A) (k : A -> M B) :
  keeps_kinds m -> (forall a, keeps_kinds (k a)) -> keeps_kinds (bind m k).
Proof.
  intros Hm Hk st r st' E. unfold bind in E.
  destruct (m st) as [[a|e|] st1] eqn:Em.
  - eapply kinds_kept_trans; [eapply Hm|eapply Hk]; eauto.
  - injection E as _ <-. eapply Hm; eauto.
  - injection E as _ <-. eapply Hm; eauto.
Qed.

Lemma kk_try_catch {A} (m : M A) (h : val -> M A) :
  keeps_kinds m -> (forall e, keeps_kinds (h e)) -> keeps_kinds (try_catch m h).
Proof.
  intros Hm Hh st r st' E. unfold try_catch in E.
  destruct (m st) as [[a|e|] st1] eqn:Em.
  - injection E as _ <-. eapply Hm; eauto.
  - eapply kinds_kept_trans; [eapply Hm|eapply Hh]; eauto.
  - injection E as _ <-. eapply Hm; eauto.
Qed.

Lemma kk_for_each {A} (f : A -> M unit) l :
  (forall x, keeps_kinds (f x)) -> keeps_kinds (for_each f l).
Proof.
  intros Hf. induction l as [|x l IH]; simpl.
  - apply kk_ret.
  - apply kk_bind; auto.
Qed.

Lemma kk_map_m {A B} (f : A -> M B) l :
  (forall x, keeps_kinds (f x)) -> keeps_kinds (map_m f l).
Proof.
  intros Hf. induction l as [|x l IH]; simpl.
  - apply kk_ret.
  - apply kk_bind; [auto|intros y]. apply kk_bind; [auto|intros ys]. apply kk_ret.
Qed.

Lemma kk_console_error label e : keeps_kinds (console_error label e).
Proof. apply kk_modify. reflexivity. Qed.

Lemma kk_message_of e : keeps_kinds (message_of e).
Proof. destruct e; first [apply kk_ret | apply kk_throw]. Qed.

Lemma kk_template_text v : keeps_kinds (template_text v).
Proof. unfold template_text. destruct (has_symbol v); [apply kk_throw|apply kk_ret]. Qed.

Lemma kk_get_node n : keeps_kinds (Dom.get_node n).
Proof.
  intros st r st' E. unfold Dom.get_node in E.
  destruct (dom st !! n); injection E as _ <-; apply kinds_kept_refl.
Qed.

Lemma kk_update_node n f :
  (forall nd, nkind (f nd) = nkind nd) -> keeps_kinds (Dom.update_node n f).
Proof.
  intros Hf st r st' E. injection E as _ <-. intros x nd Hx. simpl.
  destruct (decide (x = n)) as [->|Hne].
  - exists (f nd). rewrite list_lookup_alter_eq, Hx. split; [reflexivity|apply Hf].
  - exists nd. rewrite list_lookup_alter_ne by auto. auto.
Qed.

Lemma kk_alloc_node nd : keeps_kinds (Dom.alloc_node nd).
Proof.
  intros st r st' E. injection E as _ <-. intros x xd Hx. simpl.
  exists xd. split; [|reflexivity]. apply lookup_app_l_Some. exact Hx.
Qed.

Ltac kk_step :=
  first
    [ apply kk_ret | apply kk_throw | apply kk_diverge | apply kk_gets
    | apply kk_console_error | apply kk_message_of | apply kk_template_text
    | apply kk_get_node | apply kk_alloc_node
    | apply kk_update_node; intros ?; reflexivity
    | apply kk_modify; intros ?; reflexivity
    | apply kk_for_each; intros ?
    | match goal with
      | |- keeps_kinds (try_catch _ _) => apply kk_try_catch; [|intros ?]
      | |- keeps_kinds (bind _ _) => apply kk_bind; [|intros ?]
      | |- keeps_kinds (match ?x with _ => _ end) => destruct x
      | H : _ |- _ => apply H
      end ].

Lemma kk_detach n : keeps_kinds (Dom.detach n).
Proof. unfold Dom.detach. repeat kk_step. Qed.

Lemma kk_insertBefore p c b : keeps_kinds (Dom.insertBefore p c b).
Proof.
  unfold Dom.insertBefore, Dom.check_insert, Dom.take_for_insert.
  repeat first [ apply kk_detach | kk_step ].
Qed.

Lemma kk_removeChild p c : keeps_kinds (Dom.removeChild p c).
Proof. unfold Dom.removeChild. repeat first [ apply kk_detach | kk_step ]. Qed.

Lemma kk_nextSibling n : keeps_kinds (Dom.nextSibling n).
Proof. unfold Dom.nextSibling. repeat kk_step. Qed.

Lemma kk_createElement svg t : keeps_kinds (Dom.createElement svg t).
Proof. unfold Dom.createElement. repeat kk_step. Qed.

Lemma kk_set_textContent n s : keeps_kinds (Dom.set_textContent n s).
Proof.
  unfold Dom.set_textContent, Dom.appendChild, Dom.createTextNode.
  repeat first [ apply kk_insertBefore | kk_step ].
Qed.

Lemma kk_setAttribute el k v : keeps_kinds (Element.setAttribute el k v).
Proof. unfold Element.setAttribute. repeat kk_step. Qed.

Lemma kk_setAttributeNS el ns k v : keeps_kinds (Element.setAttributeNS el ns k v).
Proof. unfold Element.setAttributeNS. repeat kk_step. Qed.

Lemma kk_node_of item : keeps_kinds (node_of item).
Proof. unfold node_of, Dom.createTextNode. destruct item; kk_step. Qed.

Lemma kk_remove_following rounds p ph : keeps_kinds (remove_following rounds p ph).
Proof.
  induction rounds as [|rounds IH]; simpl.
  - apply kk_bind; [apply kk_nextSibling|intros [sib|]; kk_step].
  - apply kk_bind; [apply kk_nextSibling|intros [sib|]; [|kk_step]].
    apply kk_bind; [apply kk_removeChild|intros _; exact IH].
Qed.

Ltac kk :=
  repeat first
    [ apply kk_detach | apply kk_insertBefore | apply kk_removeChild
    | apply kk_nextSibling | apply kk_createElement | apply kk_set_textContent
    | apply kk_setAttribute | apply kk_setAttributeNS | apply kk_node_of
    | apply kk_remove_following | kk_step ].

Lemma kk_fragment_of items : keeps_kinds (fragment_of items).
Proof. unfold fragment_of, Dom.createDocumentFragment, Dom.appendChild. kk. Qed.

Section TreeGrowth.

Variable ev : expr -> list val -> M val.
Variable run : nat -> M val.
Hypothesis ev_keeps : forall body args, keeps_kinds (ev body args).
Hypothesis run_keeps : forall e, keeps_kinds (run e).

Lemma kk_ref_accessor r args : keeps_kinds (ref_accessor r args).
Proof. unfold ref_accessor. kk. Qed.

Lemma kk_call_fn f args : keeps_kinds (call_fn ev f args).
Proof. unfold call_fn. destruct f; first [apply ev_keeps | apply kk_ref_accessor | apply kk_throw]. Qed.

Lemma kk_get_signal s : keeps_kinds (get_signal s).
Proof.
  intros st r st' E. unfold get_signal in E.
  destruct (signals st !! s); injection E as _ <-; apply kinds_kept_refl.
Qed.

Lemma kk_get_effect e : keeps_kinds (get_effect e).
Proof.
  intros st r st' E. unfold get_effect in E.
  destruct (effects st !! e); injection E as _ <-; apply kinds_kept_refl.
Qed.

Lemma kk_read s : keeps_kinds (read s).
Proof. unfold read. repeat first [ apply kk_get_signal | kk_step ]. Qed.

Lemma kk_notify e : keeps_kinds (notify run e).
Proof. unfold notify, try_report. kk. Qed.

Lemma kk_write s v : keeps_kinds (write ev run s v).
Proof.
  unfold write.
  repeat first [ apply kk_get_signal | apply kk_call_fn | apply kk_notify | kk_step ].
Qed.

Lemma kk_child_effect p ph fn : keeps_kinds (child_effect ev p ph fn).
Proof.
  unfold child_effect, Dom.appendChild.
  repeat first [ apply kk_call_fn | apply kk_fragment_of | progress kk ].
Qed.

Lemma kk_exec_body b : keeps_kinds (exec_body ev run b).
Proof.
  unfold exec_body. destruct b.
  - apply kk_call_fn.
  - repeat first [ apply kk_call_fn | apply kk_write | kk_step ].
  - apply kk_child_effect.
Qed.

Lemma kk_runEffect_body e : keeps_kinds (runEffect_body ev run e).
Proof.
  unfold runEffect_body.
  repeat first [ apply kk_get_effect | apply kk_exec_body | kk_step ].
Qed.

Lemma kk_setEffect b : keeps_kinds (setEffect run b).
Proof.
  unfold setEffect, try_report.
  apply kk_bind; [|intros e; kk].
  intros st r st' E. injection E as _ <-. apply kinds_kept_same_dom. reflexivity.
Qed.

Lemma kk_apply_property svg el k v : keeps_kinds (apply_property ev svg el k v).
Proof.
  unfold apply_property, Element.set_prop, Element.removeAttribute.
  repeat first [ apply kk_call_fn | progress kk ].
Qed.

Lemma kk_bind_item p c : keeps_kinds (bind_item run p c).
Proof.
  unfold bind_item, Dom.appendChild, Dom.createTextNode.
  repeat first [ apply kk_setEffect | progress kk ].
Qed.

Lemma kk_bind_child p c : keeps_kinds (bind_child run p c).
Proof.
  unfold bind_child. destruct c; try apply kk_bind_item.
  apply kk_try_catch; [|intros e; apply kk_console_error].
  apply kk_for_each. intros x. apply kk_bind_item.
Qed.

Lemma kk_html_body tag props children :
  keeps_kinds (html_body ev run tag props children).
Proof.
  unfold html_body, Dom.createComment.
  repeat first [ apply kk_call_fn | apply kk_fragment_of | apply kk_apply_property
               | apply kk_bind_child | progress kk ].
Qed.

Lemma kk_html tag props children : keeps_kinds (html ev run tag props children).
Proof.
  unfold html, Dom.createComment.
  repeat first [ apply kk_html_body | progress kk ].
Qed.

End TreeGrowth.

(** Application code and effect runs remove no node and change no kind. *)
Lemma eval_keeps_kinds fuel :
  (forall e args, keeps_kinds (eval fuel e args))
  /\ (forall e, keeps_kinds (runEffect fuel e)).
Proof.
  induction fuel as [|n [IHe IHr]]; split.
  - intros e args. apply kk_diverge.
  - intros e. apply kk_diverge.
  - intros e args. destruct e; cbn [eval].
    + apply kk_ret.
    + apply kk_ret.
    + apply kk_read.
    + apply kk_bind; [apply IHe|intros v]. apply kk_write; auto.
    + apply kk_setEffect; auto.
    + apply kk_bind; [apply IHe|intros v; apply kk_throw].
    + apply kk_bind; [apply IHe|intros _; apply IHe].
    + apply kk_bind; [apply IHe|intros b]. destruct (truthy b); apply IHe.
    + apply kk_bind; [apply IHe|intros a]. apply kk_bind; [apply IHe|intros b]. apply kk_ret.
    + apply kk_bind; [apply IHe|intros a]. apply kk_bind; [apply IHe|intros b]. apply kk_ret.
    + kk.
    + apply kk_bind; [apply IHe|intros t].
      apply kk_bind; [|intros ps].
      { apply kk_map_m. intros kv. apply kk_bind; [apply IHe|intros v; apply kk_ret]. }
      apply kk_bind; [apply kk_map_m; intros c; apply IHe|intros cs].
      apply kk_html; auto.
  - intros e. cbn [runEffect]. apply kk_runEffect_body; auto.
Qed.

(** ** Building without application code always ends *)

Lemma settles_ret {A} (a : A) : settles (ret a).
Proof. intros st. discriminate. Qed.

Lemma settles_throw {A} e : settles (@throw A e).
Proof. intros st. discriminate. Qed.

Lemma settles_gets {A} (f : state -> A) : settles (gets f).
Proof. intros st. discriminate. Qed.

Lemma settles_modify f : settles (modify f).
Proof. intros st. discriminate. Qed.

Lemma settles_bind {A B} (m : M A) (k : A -> M B) :
  settles m -> (forall a, settles (k a)) -> settles (bind m k).
Proof.
  intros Hm Hk st. unfold bind. specialize (Hm st).
  destruct (m st) as [[a|e|] st1]; simpl in *.
  - apply Hk.
  - discriminate.
  - exfalso. apply Hm. reflexivity.
Qed.

Lemma settles_try_catch {A} (m : M A) (h : val -> M A) :
  settles m -> (forall e, settles (h e)) -> settles (try_catch m h).
Proof.
  intros Hm Hh st. unfold try_catch. specialize (Hm st).
  destruct (m st) as [[a|e|] st1]; simpl in *.
  - discriminate.
  - apply Hh.
  - exfalso. apply Hm. reflexivity.
Qed.

Lemma settles_for_each {A} (f : A -> M unit) l :
  (forall x, In x l -> settles (f x)) -> settles (for_each f l).
Proof.
  induction l as [|x l IH]; simpl; intros Hf.
  - apply settles_ret.
  - apply settles_bind; [apply Hf; auto|intros _; apply IH; auto].
Qed.

Lemma settles_get_node n : settles (Dom.get_node n).
Proof. intros st. unfold Dom.get_node. destruct (dom st !! n); discriminate. Qed.

Lemma settles_alloc_node nd : settles (Dom.alloc_node nd).
Proof. intros st. discriminate. Qed.

Lemma settles_message_of e : settles (message_of e).
Proof. destruct e; first [apply settles_ret | apply settles_throw]. Qed.

Lemma settles_template_text v : settles (template_text v).
Proof.
  unfold template_text. destruct (has_symbol v); [apply settles_throw|apply settles_ret].
Qed.

Ltac settles_step :=
  first
    [ apply settles_ret | apply settles_throw | apply settles_gets
    | apply settles_modify | apply settles_get_node | apply settles_alloc_node
    | apply settles_message_of | apply settles_template_text
    | apply settles_for_each; intros ? _
    | match goal with
      | |- settles (try_catch _ _) => apply settles_try_catch; [|intros ?]
      | |- settles (bind _ _) => apply settles_bind; [|intros ?]
      | |- settles (match ?x with _ => _ end) => destruct x
      end ].

Lemma settles_detach n : settles (Dom.detach n).
Proof. unfold Dom.detach, Dom.update_node. repeat settles_step. Qed.

Lemma settles_appendChild p c : settles (Dom.appendChild p c).
Proof.
  unfold Dom.appendChild, Dom.insertBefore, Dom.check_insert, Dom.take_for_insert,
    Dom.update_node.
  repeat first [ apply settles_detach | settles_step ].
Qed.

Lemma settles_createElement svg t : settles (Dom.createElement svg t).
Proof. unfold Dom.createElement. repeat settles_step. Qed.

Lemma settles_setAttribute el k v : settles (Element.setAttribute el k v).
Proof. unfold Element.setAttribute, Dom.update_node. repeat settles_step. Qed.

Lemma settles_setAttributeNS el ns k v : settles (Element.setAttributeNS el ns k v).
Proof. unfold Element.setAttributeNS, Dom.update_node. repeat settles_step. Qed.

Lemma settles_node_of item : settles (node_of item).
Proof. unfold node_of, Dom.createTextNode. destruct item; settles_step. Qed.

Lemma settles_fragment_of items : settles (fragment_of items).
Proof.
  unfold fragment_of, Dom.createDocumentFragment.
  repeat first [ apply settles_appendChild | apply settles_node_of | settles_step ].
Qed.

Section StaticContent.

Variable ev : expr -> list val -> M val.
Variable run : nat -> M val.

Lemma settles_apply_property svg el k v :
  (k = "ref" -> is_function v = false) ->
  settles (apply_property ev svg el k v).
Proof.
  intros Href. unfold apply_property, Element.set_prop, Element.removeAttribute,
    Dom.update_node.
  destruct (is_nullish v); [apply settles_ret|].
  destruct (String.eqb k "value"); [apply settles_modify|].
  destruct (_ || _); [apply settles_setAttribute|].
  destruct (_ && _); [repeat settles_step|].
  destruct (_ && _); [apply settles_modify|].
  destruct (String.eqb k "ref") eqn:Ek.
  - apply String.eqb_eq in Ek. rewrite (Href Ek).
    destruct (truthy v); [|apply settles_ret]. destruct v; settles_step.
  - repeat first [ apply settles_setAttribute | apply settles_setAttributeNS
                 | settles_step ].
Qed.

Lemma settles_bind_item p c :
  is_function c = false -> settles (bind_item run p c).
Proof.
  intros Hc. unfold bind_item, Dom.createTextNode.
  apply settles_try_catch; [|intros e; apply settles_modify].
  destruct (is_nullish c); [apply settles_ret|].
  destruct c; try discriminate Hc;
    repeat first [ apply settles_appendChild | settles_step ].
Qed.

Lemma settles_bind_child p c :
  Forall (fun x => is_function x = false) (flat_val c) ->
  settles (bind_child run p c).
Proof.
  intros Hc. unfold bind_child.
  destruct c; try (apply settles_bind_item; apply Forall_inv in Hc; exact Hc).
  rewrite flat_val_arr in Hc.
  apply settles_try_catch; [|intros e; apply settles_modify].
  apply settles_for_each. intros x Hx. apply settles_bind_item.
  rewrite Forall_forall in Hc. apply Hc. apply list_elem_of_In. exact Hx.
Qed.

Lemma settles_html tag props children :
  is_function tag = false ->
  static_content props children ->
  settles (html ev run tag props children).
Proof.
  intros Hf [Hrefs Hkids]. unfold html, Dom.createComment.
  apply settles_try_catch; [|intros e; repeat settles_step].
  unfold html_body. rewrite Hf.
  destruct (_ || _).
  - apply settles_bind; [apply settles_fragment_of|intros f; apply settles_ret].
  - cbv zeta.
    apply settles_bind; [apply settles_createElement|intros el].
    apply settles_bind; [|intros _].
    { destruct (truthy props); [|apply settles_ret].
      apply settles_for_each. intros [k v] Hin. simpl.
      apply settles_apply_property. intros ->. eapply Hrefs; eauto. }
    apply settles_bind; [|intros _; apply settles_ret].
    apply settles_for_each. intros c Hc. apply settles_bind_child.
    rewrite Forall_forall in *. intros x Hx. apply Hkids.
    unfold flat. apply list_elem_of_In, in_concat. exists (flat_val c).
    split; [apply in_map; exact Hc|apply list_elem_of_In; exact Hx].
Qed.

End StaticContent.

(** ** What [html] returns *)

Lemma for_each_in_throws {A} P (f : A -> M unit) l :
  (forall x, In x l -> throws_only P (f x)) -> throws_only P (for_each f l).
Proof.
  induction l as [|x l IH]; simpl; intros Hf.
  - apply throws_only_ret.
  - apply throws_only_bind; [apply Hf; auto|intros _; apply IH; auto].
Qed.

(** Whatever leaves the outer [try] of [html] has a message. *)
Lemma html_try_throws fuel tag props children :
  refs_throw_objects fuel props ->
  throws_only has_message (html_body (eval fuel) (runEffect fuel) tag props children).
Proof.
  intros Href. unfold html_body.
  destruct (is_function tag).
  - eapply throws_only_try_catch with (Q := fun _ => True); [apply throws_only_any|].
    intros e _. repeat first [ apply console_error_throws | apply message_of_throws
                             | apply template_text_throws | progress throws ].
  - destruct (_ || _).
    + apply throws_only_bind; [apply fragment_of_throws|intros f; throws].
    + cbv zeta.
      apply throws_only_bind; [apply createElement_throws|intros el].
      apply throws_only_bind; [|intros _].
      { destruct (truthy props); [|throws].
        apply for_each_in_throws. intros [k v] Hin. simpl.
        apply apply_property_throws. intros -> Hf. eapply Href; eauto. }
      apply throws_only_bind; [|intros _; throws].
      apply throws_only_for_each. intros c.
      eapply throws_only_weaken; [|apply bind_child_never_throws]. intros ? [].
Qed.

(** A node that has been created is still in the tree, with its kind,
    after any computation that keeps kinds. *)
Lemma created_node_kept {A} (nd : node) (k : nat -> M A) st r st' :
  (forall n, keeps_kinds (k n)) ->
  k (length (dom st)) (set_dom (fun d => d ++ [nd]) st) = (r, st') ->
  exists nd', dom st' !! length (dom st) = Some nd' /\ nkind nd' = nkind nd.
Proof.
  intros Hk E. apply (Hk _ _ _ _ E). simpl. apply list_lookup_middle. reflexivity.
Qed.

(** A tag that is not callable: the outer [try] of [html], when it
    returns, returns the fragment or element it created for the tag. *)
Lemma html_body_result fuel tag props children st v st' :
  is_function tag = false ->
  html_body (eval fuel) (runEffect fuel) tag props children st = (Ok v, st') ->
  exists n nd, v = VNode n /\ dom st' !! n = Some nd /\ nkind nd = kind_for tag.
Proof.
  intros Hf E. unfold html_body in E. rewrite Hf in E. unfold kind_for.
  destruct (eval_keeps_kinds fuel) as [Hev Hrun].
  destruct (_ || _).
  - unfold fragment_of, Dom.createDocumentFragment in E.
    set (k := fun frag : nat =>
           for_each (fun item => if is_nullish item then ret tt
                                 else n <- node_of item ;; Dom.appendChild frag n)
                    (flat children) ;;; ret (VNode frag)).
    assert (Ek : k (length (dom st))
                   (set_dom (fun d => d ++ [mkNode KFragment "" [] None [] []]) st)
                 = (Ok v, st')).
    { revert E. unfold k, bind, Dom.alloc_node, ret.
      destruct (for_each _ _ _) as [[[]|e|] s1]; intros E; congruence. }
    destruct (created_node_kept _ k st _ _ ltac:(intros n; unfold k, Dom.appendChild; kk) Ek)
      as (nd' & Hnd & Hk).
    apply bind_ok_inv in Ek as ([] & s1 & _ & Ek). injection Ek as <- <-.
    eauto.
  - cbv zeta in E. unfold Dom.createElement in E.
    destruct (Dom.valid_name (to_string tag)); [|discriminate].
    set (svg := match tag with VStr t => str_mem t SVG_TAGS | _ => false end) in *.
    set (k := fun element : nat =>
           (if truthy props then
              for_each (fun kv => apply_property (eval fuel) svg element (fst kv) (snd kv))
                       (entries props)
            else ret tt) ;;;
           for_each (bind_child (runEffect fuel) element) children ;;;
           ret (VNode element)).
    assert (Ek : k (length (dom st))
                   (set_dom (fun d => d ++ [mkNode (KElement svg (to_string tag)) "" [] None [] []]) st)
                 = (Ok v, st')) by exact E.
    assert (Hkk : forall n, keeps_kinds (k n)).
    { intros n. unfold k.
      apply kk_bind; [|intros _].
      { destruct (truthy props); [|apply kk_ret].
        apply kk_for_each. intros kv. apply kk_apply_property. exact Hev. }
      apply kk_bind; [|intros _; apply kk_ret].
      apply kk_for_each. intros c. apply kk_bind_child. exact Hrun. }
    destruct (created_node_kept _ k st _ _ Hkk Ek) as (nd' & Hnd & Hk).
    apply bind_ok_inv in Ek as ([] & s1 & _ & Ek).
    apply bind_ok_inv in Ek as ([] & s2 & _ & Ek). injection Ek as <- <-.
    eauto.
Qed.

(** Without callbacks among the [ref] properties nothing that reaches the
    outer handler lacks a message. *)
Lemma static_refs_throw_objects fuel props children :
  static_content props children -> refs_throw_objects fuel props.
Proof.
  intros [Hrefs _] k f Hin Hk Hf. rewrite (Hrefs k f Hin Hk) in Hf. discriminate.
Qed.


(** The properties [{id: "a", ref: () => { throw Error("no ref") }}]: the
    [ref] callback throws an [Error]. *)
Lemma failing_ref_has_message : refs_throw_objects 4 Examples.failing_ref_props.
Proof.
  intros k f Hin Hk Hf element st r st' E.
  simpl in Hin. destruct Hin as [Hin|[Hin|[]]]; injection Hin as <- <-; [discriminate|].
  vm_compute in E. injection E as <- _. split; reflexivity.
Defined.

(** [<p id="a">x{[1, null]}</p>] holds no callback. *)
Lemma static_paragraph :
  static_content (VObj [("id", VStr "a")]) [VStr "x"; VArr [VNum 1; VNull]].
Proof.
  split.
  - intros k f Hin Hk. simpl in Hin. destruct Hin as [Hin|[]].
    injection Hin as <- <-. discriminate.
  - repeat constructor.
Defined.


(** The three runs above: the paragraph is built even without fuel; the
    element whose [ref] callback throws is replaced by the comment "Error
    creating element: no ref" (node 1; the element, node 0, stays behind
    without a parent); and the component that throws is replaced by the
    comment "Error in component: bad". *)
Example html_diagnostic_comments :
  html_at 0 (VStr "p") (VObj [("id", VStr "a")]) [VStr "x"; VArr [VNum 1; VNull]]
    empty_state
    = (Ok (VNode 0),
       set_dom (fun _ =>
         [mkNode (KElement false "p") "" [1; 2]%nat None [("id", "a")] [];
          mkNode KText "x" [] (Some 0%nat) [] [];
          mkNode KText "1" [] (Some 0%nat) [] []]) empty_state)
  /\ html_at 4 (VStr "div") Examples.failing_ref_props [VStr "x"] empty_state
    = (Ok (VNode 1),
       set_dom (fun _ =>
         [mkNode (KElement false "div") "" [] None [("id", "a")] [];
          mkNode KComment "Error creating element: no ref" [] None [] []])
         (set_console (fun _ => [("Error creating element:", VErr "no ref")]) empty_state))
  /\ html_at 3 Examples.failing_component VNull [VStr "x"] empty_state
     = (Ok (VNode 0),
        set_dom (fun _ => [mkNode KComment "Error in component: bad" [] None [] []])
          (set_console (fun _ => [("Error in function component:", VErr "bad")])
             empty_state)).
Proof. repeat split; reflexivity. Qed.


(** Beside C7: a [ref] callback that throws null, or an object whose
    message is a Symbol, makes [html] itself throw a TypeError, because the
    outer handler evaluates [`${error.message}`]. *)
Example html_ref_throwing_null :
  fst (html_at 4 (VStr "div")
         (VObj [("ref", VFun (EThrow (EConst VNull)))]) [] empty_state)
    = Throw (VErr "Cannot read properties of null (reading 'message')")
  /\ fst (html_at 4 (VStr "div")
            (VObj [("ref", VFun (EThrow (EConst (VObj [("message", VFragment)]))))])
            [] empty_state)
     = Throw (VErr "Cannot convert a Symbol value to a string").
Proof. split; vm_compute; reflexivity. Qed.

(** * The region of a reactive child *)

Lemma remove_nat_notin a l : a ∉ l -> Dom.remove_nat a l = l.
Proof.
  unfold Dom.remove_nat. induction l as [|x l IH]; intros Hn; [reflexivity|].
  apply not_elem_of_cons in Hn as [Hx Hl].
  rewrite filter_cons_True by congruence. f_equal. auto.
Qed.

Lemma remove_nat_middle a l1 l2 :
  NoDup (l1 ++ a :: l2) -> Dom.remove_nat a (l1 ++ a :: l2) = l1 ++ l2.
Proof.
  intros Hnd. apply NoDup_app in Hnd as (_ & Hdis & Hnd2).
  apply NoDup_cons in Hnd2 as [Ha2 _].
  unfold Dom.remove_nat. rewrite filter_app, filter_cons_False by (intros H; apply H; reflexivity).
  fold (Dom.remove_nat a l1). fold (Dom.remove_nat a l2).
  rewrite !remove_nat_notin; auto.
  intros H1. apply (Hdis a H1). left.
Qed.

Lemma after_anchor ph before rest :
  ph ∉ before -> Dom.after ph (before ++ ph :: rest) = head rest.
Proof.
  induction before as [|b before IH]; intros Hn; simpl.
  - rewrite Nat.eqb_refl. reflexivity.
  - apply not_elem_of_cons in Hn as [Hb Hn].
    destruct (Nat.eqb_spec b ph); [congruence|auto].
Qed.

Lemma anchored_placeholder_not_before p ph before after st :
  anchored p ph before after st -> ph ∉ before.
Proof.
  intros H. pose proof (anc_nodup _ _ _ _ _ H) as Hnd.
  apply NoDup_app in Hnd as (_ & Hdis & _).
  intros Hin. apply (Hdis ph Hin). left.
Qed.

Lemma nextSibling_anchored p ph before after st :
  anchored p ph before after st ->
  Dom.nextSibling ph st = (Ok (head after), st).
Proof.
  intros H. destruct (anc_parent _ _ _ _ _ H) as (pn & Hp & _ & Hk).
  destruct (anc_placeholder _ _ _ _ _ H) as (phn & Hph & Hpar).
  unfold Dom.nextSibling, bind, Dom.get_node, ret. rewrite Hph, Hpar, Hp, Hk.
  rewrite after_anchor; auto. eapply anchored_placeholder_not_before; eauto.
Qed.

Lemma pruned_refl p st : pruned p [] st st.
Proof.
  split; auto.
  - intros x nd' H. exists nd'. auto.
  - intros a Ha. exfalso. eapply not_elem_of_nil; eauto.
Qed.

Lemma removeChild_first p ph before a rest st :
  anchored p ph before (a :: rest) st ->
  exists st',
    Dom.removeChild p a st = (Ok tt, st')
    /\ anchored p ph before rest st'
    /\ pruned p [a] st st'.
Proof.
  intros H. destruct (anc_parent _ _ _ _ _ H) as (pn & Hp & Hck & Hk).
  destruct (anc_placeholder _ _ _ _ _ H) as (phn & Hph & Hpar).
  destruct (anc_after _ _ _ _ _ H a) as (an & Ha & Hapar); [left|].
  pose proof (anc_nodup _ _ _ _ _ H) as Hnd.
  pose proof (anc_not_self _ _ _ _ _ H) as Hself.
  assert (Hpa : p <> a).
  { intros ->. apply Hself. apply elem_of_app. right. right. left. }
  assert (Hpph : p <> ph).
  { intros ->. apply Hself. apply elem_of_app. right. left. }
  assert (Haph : a <> ph).
  { intros ->. apply NoDup_app in Hnd as (_ & _ & Hnd).
    apply NoDup_cons in Hnd as [Hn _]. apply Hn. left. }
  assert (Hnd' : NoDup (before ++ ph :: rest)).
  { change (before ++ ph :: a :: rest) with (before ++ [ph] ++ a :: rest) in Hnd.
    rewrite app_assoc in Hnd. apply NoDup_app in Hnd as (Hn1 & Hdis & Hn2).
    apply NoDup_cons in Hn2 as [Har Hn2].
    change (before ++ ph :: rest) with (before ++ [ph] ++ rest). rewrite app_assoc.
    apply NoDup_app. split; [auto|]. split; [|auto].
    intros x Hx Hr. apply (Hdis x Hx). right. exact Hr. }
  assert (Hkids : Dom.remove_nat a (before ++ ph :: a :: rest) = before ++ ph :: rest).
  { change (before ++ ph :: a :: rest) with (before ++ [ph] ++ a :: rest).
    rewrite app_assoc, remove_nat_middle, <- app_assoc; auto.
    rewrite <- app_assoc. exact Hnd. }
  eexists. split.
  { unfold Dom.removeChild, bind, Dom.get_node. rewrite Ha.
    rewrite decide_True by exact Hapar.
    unfold Dom.detach, bind, Dom.get_node. rewrite Ha, Hapar.
    unfold Dom.update_node, modify. simpl. reflexivity. }
  split.
  - split; simpl.
    + exists (Dom.with_kids (Dom.remove_nat a) pn).
      rewrite list_lookup_alter_ne, list_lookup_alter_eq, Hp by auto.
      split; [reflexivity|]. split; [exact Hck|].
      simpl. rewrite Hk. exact Hkids.
    + exact Hnd'.
    + exists phn. rewrite !list_lookup_alter_ne by auto. auto.
    + intros x Hx.
      destruct (anc_after _ _ _ _ _ H x) as (xn & Hxn & Hxp); [right; auto|].
      assert (x <> a).
      { intros ->. apply NoDup_app in Hnd as (_ & _ & Hnd).
        apply NoDup_cons in Hnd as [_ Hnd]. apply NoDup_cons in Hnd as [Hn _]. auto. }
      assert (x <> p).
      { intros ->. apply Hself. apply elem_of_app. right. right. right. auto. }
      exists xn. rewrite !list_lookup_alter_ne by auto. auto.
    + intros Hin. apply Hself. apply elem_of_app in Hin as [Hin|Hin].
      * apply elem_of_app. auto.
      * apply elem_of_app. right. apply elem_of_cons in Hin as [->|Hin]; [left|].
        right. right. auto.
  - split; simpl; auto.
    + rewrite !length_alter. reflexivity.
    + intros x nd' Hx.
      destruct (decide (x = a)) as [->|Hxa].
      * rewrite list_lookup_alter_eq, list_lookup_alter_ne, Ha in Hx by auto.
        injection Hx as <-. exists an. simpl. auto.
      * rewrite list_lookup_alter_ne in Hx by auto.
        destruct (decide (x = p)) as [->|Hxp].
        -- rewrite list_lookup_alter_eq, Hp in Hx. injection Hx as <-.
           exists pn. simpl. auto.
        -- rewrite list_lookup_alter_ne in Hx by auto. exists nd'. auto.
    + intros x Hxp Hxa. rewrite !list_lookup_alter_ne; auto.
      intros ->. apply Hxa. left.
    + intros x Hx. apply list_elem_of_singleton in Hx as ->.
      rewrite list_lookup_alter_eq, list_lookup_alter_ne, Ha by auto. reflexivity.
Qed.

Lemma pruned_trans p r1 r2 a b c :
  pruned p r1 a b -> pruned p r2 b c -> pruned p (r1 ++ r2) a c.
Proof.
  intros [s1 e1 c1 o1 k1 f1 l1 n1 m1 d1] [s2 e2 c2 o2 k2 f2 l2 n2 m2 d2].
  split; try congruence.
  - intros x nd'' Hx. destruct (n2 x nd'' Hx) as (nd' & Hx' & Hk' & Hp').
    destruct (n1 x nd' Hx') as (nd & Hx0 & Hk & Hp).
    exists nd. split; [auto|]. split; [congruence|].
    destruct Hp' as [Hp'|Hp']; [|auto]. rewrite Hp'. exact Hp.
  - intros x Hxp Hx. rewrite m2, m1; auto.
    all: intros Hin; apply Hx; apply elem_of_app; auto.
  - intros x Hx. apply elem_of_app in Hx as [Hx|Hx]; [|auto].
    specialize (d1 x Hx).
    destruct (dom b !! x) as [nb|] eqn:Hb; [|discriminate].
    injection d1 as Hpb.
    assert (Hlt : (x < length (dom c))%nat).
    { rewrite l2. eapply lookup_lt_Some; eauto. }
    destruct (lookup_lt_is_Some_2 _ _ Hlt) as [nc Hc]. rewrite Hc. simpl.
    destruct (n2 x nc Hc) as (nb' & Hb' & _ & Hp).
    rewrite Hb in Hb'. injection Hb' as <-.
    destruct Hp as [Hp|Hp]; congruence.
Qed.

Lemma remove_following_anchored after : forall rounds p ph before st,
  anchored p ph before after st ->
  (length after <= rounds)%nat ->
  exists st',
    remove_following rounds p ph st = (Ok tt, st')
    /\ anchored p ph before [] st'
    /\ pruned p after st st'.
Proof.
  induction after as [|a rest IH]; intros rounds p ph before st H Hr.
  - exists st. split; [|split; [exact H|apply pruned_refl]].
    destruct rounds; simpl; unfold bind;
      rewrite (nextSibling_anchored _ _ _ _ _ H); reflexivity.
  - destruct rounds as [|rounds]; [simpl in Hr; lia|].
    destruct (removeChild_first _ _ _ _ _ _ H) as (st1 & HR & H1 & P1).
    destruct (IH rounds p ph before st1 H1) as (st' & HL & H' & P'); [simpl in Hr; lia|].
    exists st'. split; [|split; [exact H'|]].
    + simpl. unfold bind at 1. rewrite (nextSibling_anchored _ _ _ _ _ H). simpl.
      unfold bind at 1. rewrite HR. exact HL.
    + apply (pruned_trans p [a] rest st st1 st'); auto.
Qed.

Lemma ancestor_after_pruning p removed st st' fuel n x :
  pruned p removed st st' ->
  Dom.inclusive_ancestor fuel (dom st) n x = false ->
  Dom.inclusive_ancestor fuel (dom st') n x = false.
Proof.
  intros HP. revert x. induction fuel as [|fuel IH]; intros x; simpl; auto.
  intros H. apply orb_false_elim in H as [Hne H]. rewrite Hne. simpl.
  destruct (dom st' !! x) as [nd'|] eqn:Hx'; auto.
  destruct (pr_nodes _ _ _ _ HP x nd' Hx') as (nd & Hx & _ & Hpar).
  rewrite Hx in H.
  destruct Hpar as [Hpar|Hpar]; rewrite Hpar; auto.
  destruct (nparent nd); auto.
Qed.

Lemma take_for_insert_detached n nn st :
  dom st !! n = Some nn -> nparent nn = None -> nkind nn <> KFragment ->
  Dom.take_for_insert n st = (Ok [n], st).
Proof.
  intros Hn Hpar Hkind.
  unfold Dom.take_for_insert, bind, Dom.get_node. rewrite Hn.
  destruct (nkind nn); try congruence;
    unfold Dom.detach, bind, Dom.get_node, ret; rewrite Hn, Hpar; reflexivity.
Qed.

Lemma insert_detached p ph before n nn st :
  anchored p ph before [] st ->
  dom st !! n = Some nn ->
  nparent nn = None ->
  nkind nn <> KFragment ->
  n <> p ->
  n ∉ before ++ [ph] ->
  Dom.inclusive_ancestor (length (dom st)) (dom st) n p = false ->
  exists st',
    Dom.insertBefore p n None st = (Ok tt, st')
    /\ anchored p ph before [n] st'
    /\ signals st' = signals st /\ effects st' = effects st
    /\ currentEffect st' = currentEffect st /\ console st' = console st
    /\ counters st' = counters st /\ refs st' = refs st
    /\ length (dom st') = length (dom st)
    /\ (forall x, x <> p -> x <> n -> dom st' !! x = dom st !! x).
Proof.
  intros H Hn Hpar Hkind Hnp Hnk Hanc.
  destruct (anc_parent _ _ _ _ _ H) as (pn & Hp & Hck & Hk).
  destruct (anc_placeholder _ _ _ _ _ H) as (phn & Hph & Hphpar).
  pose proof (anc_nodup _ _ _ _ _ H) as Hnd.
  pose proof (anc_not_self _ _ _ _ _ H) as Hself.
  assert (Hnph : n <> ph).
  { intros ->. apply Hnk. apply elem_of_app. right. left. }
  assert (Hpph : p <> ph).
  { intros ->. apply Hself. apply elem_of_app. right. left. }
  eexists. split.
  { unfold Dom.insertBefore, bind at 1.
    unfold Dom.check_insert, bind, Dom.get_node, gets.
    rewrite Hp, Hn. simpl. rewrite Hck, Hanc. simpl.
    unfold ret. rewrite (take_for_insert_detached n nn st Hn Hpar Hkind).
    simpl. unfold bind, Dom.update_node, modify, ret. simpl. reflexivity. }
  split.
  - split; simpl.
    + exists (Dom.with_kids (Dom.insert_at None [n]) pn).
      rewrite list_lookup_alter_eq, list_lookup_alter_ne, Hp by auto.
      split; [reflexivity|]. split; [exact Hck|].
      simpl. rewrite Hk, <- app_assoc. reflexivity.
    + change (before ++ [ph; n]) with (before ++ [ph] ++ [n]). rewrite app_assoc.
      apply NoDup_app. split; [exact Hnd|]. split.
      * intros x Hx Hxn. apply list_elem_of_singleton in Hxn as ->. auto.
      * apply NoDup_singleton.
    + exists phn. rewrite !list_lookup_alter_ne by auto. auto.
    + intros a Ha. apply list_elem_of_singleton in Ha as ->.
      exists (Dom.with_parent (Some p) nn).
      rewrite list_lookup_alter_ne, list_lookup_alter_eq, Hn by auto. auto.
    + change (before ++ [ph; n]) with (before ++ [ph] ++ [n]). rewrite app_assoc.
      intros Hin. apply elem_of_app in Hin as [Hin|Hin]; [auto|].
      apply list_elem_of_singleton in Hin. auto.
  - simpl. repeat split; auto.
    + rewrite !length_alter. reflexivity.
    + intros x Hxp Hxn. rewrite !list_lookup_alter_ne; auto.
Qed.

Lemma nodup_bounded_length (l : list nat) n :
  NoDup l -> (forall x, x ∈ l -> (x < n)%nat) -> (length l <= n)%nat.
Proof.
  intros Hnd Hb. replace n with (length (seq 0 n)) at 1 by apply length_seq.
  apply NoDup_incl_length; [apply NoDup_ListNoDup; exact Hnd|].
  unfold incl. intros x Hx. apply in_seq. apply list_elem_of_In in Hx.
  specialize (Hb x Hx). lia.
Qed.

Lemma anchored_after_length p ph before after st :
  anchored p ph before after st -> (length after <= length (dom st))%nat.
Proof.
  intros H. apply nodup_bounded_length.
  - pose proof (anc_nodup _ _ _ _ _ H) as Hnd.
    apply NoDup_app in Hnd as (_ & _ & Hnd). apply NoDup_cons in Hnd as [_ Hnd]. exact Hnd.
  - intros x Hx. destruct (anc_after _ _ _ _ _ H x Hx) as (xn & Hxn & _).
    eapply lookup_lt_Some; eauto.
Qed.

(** One run of a reactive child's effect body whose callable returns the
    node [n]. *)
Lemma child_effect_node fuel p ph fn before after n nn st st1 :
  call_fn (eval fuel) fn [] st = (Ok (VNode n), st1) ->
  anchored p ph before after st1 ->
  dom st1 !! n = Some nn ->
  nparent nn = None ->
  nkind nn <> KFragment ->
  n <> p ->
  n ∉ before ++ ph :: after ->
  Dom.inclusive_ancestor (length (dom st1)) (dom st1) n p = false ->
  exists st',
    child_effect (eval fuel) p ph fn st = (Ok VUndef, st')
    /\ anchored p ph before [n] st'
    /\ (forall a, a ∈ after -> nparent <$> dom st' !! a = Some None)
    /\ (forall b, b ∈ before -> dom st' !! b = dom st1 !! b)
    /\ length (dom st') = length (dom st1)
    /\ signals st' = signals st1 /\ effects st' = effects st1
    /\ currentEffect st' = currentEffect st1 /\ console st' = console st1.
Proof.
  intros Hcall H Hn Hpar Hkind Hnp Hnk Hanc.
  destruct (remove_following_anchored after (length (dom st1)) p ph before st1 H)
    as (st2 & HL & H2 & P2); [eapply anchored_after_length; eauto|].
  assert (Hn_after : n ∉ after).
  { intros Hin. apply Hnk. apply elem_of_app. right. right. exact Hin. }
  assert (Hn2 : dom st2 !! n = Some nn).
  { rewrite (pr_same _ _ _ _ P2); auto. }
  destruct (insert_detached p ph before n nn st2 H2 Hn2 Hpar Hkind Hnp)
    as (st' & HI & H' & Hs & He & Hc & Ho & Hk & Hr & Hlen & Hsame).
  { intros Hin. apply Hnk. apply elem_of_app in Hin as [Hin|Hin].
    - apply elem_of_app. auto.
    - apply list_elem_of_singleton in Hin as ->. apply elem_of_app. right. left. }
  { rewrite (pr_length _ _ _ _ P2). eapply ancestor_after_pruning; eauto. }
  pose proof (anc_nodup _ _ _ _ _ H) as Hnd.
  pose proof (anc_not_self _ _ _ _ _ H) as Hself.
  exists st'. split.
  { unfold child_effect, try_catch, bind at 1. rewrite Hcall. simpl.
    unfold bind at 1. unfold gets at 1. unfold bind at 1. rewrite HL.
    unfold bind at 1. rewrite (nextSibling_anchored _ _ _ _ _ H2). simpl.
    unfold bind at 1. rewrite HI. reflexivity. }
  split; [exact H'|]. split.
  { intros a Ha.
    assert (a <> p).
    { intros ->. apply Hself. apply elem_of_app. right. right. exact Ha. }
    assert (a <> n) by (intros ->; auto).
    rewrite Hsame by auto. apply (pr_removed _ _ _ _ P2). exact Ha. }
  split.
  { intros b Hb.
    assert (b <> p).
    { intros ->. apply Hself. apply elem_of_app. auto. }
    assert (b <> n).
    { intros ->. apply Hnk. apply elem_of_app. auto. }
    assert (b ∉ after).
    { intros Hin. apply NoDup_app in Hnd as (_ & Hdis & _).
      apply (Hdis b Hb). right. exact Hin. }
    rewrite Hsame by auto. apply (pr_same _ _ _ _ P2); auto. }
  split; [rewrite Hlen; apply (pr_length _ _ _ _ P2)|].
  split; [rewrite Hs; apply (pr_signals _ _ _ _ P2)|].
  split; [rewrite He; apply (pr_effects _ _ _ _ P2)|].
  split; [rewrite Hc; apply (pr_current _ _ _ _ P2)|].
  rewrite Ho; apply (pr_console _ _ _ _ P2).
Qed.


Lemma counter_page_anchored :
  anchored 1 2 [] [3; 0]%nat
    (snd (call_fn (eval 7) counter_child []
            (set_current (Some 0%nat) (set_effects (alter bump 0%nat) counter_page)))).
Proof.
  split.
  - eexists. split; [reflexivity|]. split; reflexivity.
  - refine (bool_decide_unpack (NoDup [2; 3; 0]%nat) _). vm_compute. exact I.
  - eexists. split; reflexivity.
  - intros a Ha. apply list_elem_of_In in Ha. simpl in Ha.
    destruct Ha as [<-|[<-|[]]]; eexists; split; reflexivity.
  - intros Hin. apply list_elem_of_In in Hin. simpl in Hin.
    destruct Hin as [?|[?|[?|[]]]]; discriminate.
Qed.



(** Beside C2: two reactive children in one parent,
    [<div>{() => <b>{a()}</b>}{() => <i>{b()}</i>}</div>].  The rerun of
    the first removes the placeholder of the second (node 4) from the
    parent with everything else that follows its own; the reruns of the
    second then find no placeholder in the parent and append their
    results at the end, one more at each run. *)
Example reactive_siblings_interfere :
  kids_of 0 two_children_page = [1; 2; 4; 5]%nat
  /\ kids_of 0 (snd (write_at 8 0 (VNum 2) two_children_page)) = [1; 7]%nat
  /\ kids_of 0 (snd ((write_at 8 0 (VNum 2) ;;; write_at 8 1 (VNum 20))
                      two_children_page)) = [1; 7; 9]%nat
  /\ kids_of 0 (snd ((write_at 8 0 (VNum 2) ;;; write_at 8 1 (VNum 20) ;;;
                      write_at 8 1 (VNum 30)) two_children_page)) = [1; 7; 9; 11]%nat.
Proof. vm_compute. repeat split; reflexivity. Qed.

(** * Memos *)

Lemma denote_unread e : forall vals nc args t f,
  t ∉ reads vals nc e args ->
  denote (alter f t vals) nc e args = denote vals nc e args
  /\ reads (alter f t vals) nc e args = reads vals nc e args.
Proof.
  induction e; simpl; intros vals nc args t f Hn; auto.
  - (* ERead *)
    split; [|reflexivity]. rewrite list_lookup_alter_ne; auto.
    intros ->. apply Hn. left.
  - (* EThrow *)
    destruct (IHe vals nc args t f Hn) as [D1 R1]. rewrite D1, R1. auto.
  - (* ESeq *)
    apply not_elem_of_app in Hn as [H1 H2].
    destruct (IHe1 vals nc args t f H1) as [D1 R1]. rewrite D1, R1.
    destruct (denote vals nc e1 args); auto.
    destruct (IHe2 vals nc args t f H2) as [D2 R2]. rewrite D2, R2. auto.
  - (* EIf *)
    apply not_elem_of_app in Hn as [H1 H2].
    destruct (IHe1 vals nc args t f H1) as [D1 R1]. rewrite D1, R1.
    destruct (denote vals nc e1 args); auto.
    destruct (truthy a).
    + destruct (IHe2 vals nc args t f H2) as [D2 R2]. rewrite D2, R2. auto.
    + destruct (IHe3 vals nc args t f H2) as [D2 R2]. rewrite D2, R2. auto.
  - (* EAdd *)
    apply not_elem_of_app in Hn as [H1 H2].
    destruct (IHe1 vals nc args t f H1) as [D1 R1]. rewrite D1, R1.
    destruct (denote vals nc e1 args); auto.
    destruct (IHe2 vals nc args t f H2) as [D2 R2]. rewrite D2, R2. auto.
  - (* ELt *)
    apply not_elem_of_app in Hn as [H1 H2].
    destruct (IHe1 vals nc args t f H1) as [D1 R1]. rewrite D1, R1.
    destruct (denote vals nc e1 args); auto.
    destruct (IHe2 vals nc args t f H2) as [D2 R2]. rewrite D2, R2. auto.
Qed.

Lemma reads_mentions e : forall vals nc args t,
  t ∈ reads vals nc e args -> mentions_read t e = true.
Proof.
  induction e; simpl; intros vals nc args t Hin;
    try (exfalso; eapply not_elem_of_nil; eauto; fail).
  - apply list_elem_of_singleton in Hin as ->. apply Nat.eqb_refl.
  - eauto.
  - apply elem_of_app in Hin as [H|H]; apply orb_true_iff; [left; eauto|right].
    destruct (denote vals nc e1 args); try (exfalso; eapply not_elem_of_nil; eauto; fail).
    eauto.
  - apply elem_of_app in Hin as [H|H].
    + rewrite (IHe1 _ _ _ _ H). reflexivity.
    + destruct (denote vals nc e1 args); try (exfalso; eapply not_elem_of_nil; eauto; fail).
      destruct (truthy a).
      * rewrite (IHe2 _ _ _ _ H). rewrite orb_true_r. reflexivity.
      * rewrite (IHe3 _ _ _ _ H). rewrite orb_true_r. reflexivity.
  - apply elem_of_app in Hin as [H|H]; apply orb_true_iff; [left; eauto|right].
    destruct (denote vals nc e1 args); try (exfalso; eapply not_elem_of_nil; eauto; fail).
    eauto.
  - apply elem_of_app in Hin as [H|H]; apply orb_true_iff; [left; eauto|right].
    destruct (denote vals nc e1 args); try (exfalso; eapply not_elem_of_nil; eauto; fail).
    eauto.
Qed.

Lemma unmentioned_unread m e vals nc args :
  mentions_read m e = false -> m ∉ reads vals nc e args.
Proof.
  intros H Hin. rewrite (reads_mentions _ _ _ _ _ Hin) in H. discriminate.
Qed.

(** A quiet body leaves the subscribers of every signal it does not read. *)
Lemma quiet_unread_subs e :
  quiet e = true ->
  forall fuel args st t,
  (depth e < fuel)%nat ->
  t ∉ reads (values st) (length (counters st)) e args ->
  subs_of t (snd (eval fuel e args st)) = subs_of t st.
Proof.
  induction e; simpl; intros Hq fuel args st t Hd Hn; try discriminate;
    destruct fuel as [|fuel]; try lia; simpl; auto.
  - (* ERead *)
    assert (Hts : t <> s) by (intros ->; apply Hn; left).
    unfold read, try_catch, bind, get_signal, gets, modify, ret, throw, console_error.
    destruct (signals st !! s); simpl; auto.
    destruct (currentEffect st); simpl; auto.
    rewrite subs_of_alter, decide_False; auto.
  - (* EThrow *)
    unfold bind. specialize (IHe Hq fuel args st t ltac:(lia) Hn).
    destruct (eval fuel e args st) as [[v|x|] st1]; simpl in *; auto.
  - (* ESeq *)
    apply andb_prop in Hq as [Hq1 Hq2]. apply not_elem_of_app in Hn as [H1 H2].
    unfold bind.
    destruct (quiet_eval e1 Hq1 fuel args st) as (st1 & E1 & HQ1); [lia|].
    specialize (IHe1 Hq1 fuel args st t ltac:(lia) H1). rewrite E1 in *. simpl in IHe1.
    destruct (denote _ _ e1 args); simpl; auto.
    rewrite <- IHe1. apply IHe2; auto; try lia.
    rewrite (qs_values _ _ HQ1), (qs_counters _ _ HQ1). exact H2.
  - (* EIf *)
    apply andb_prop in Hq as [Hq Hq3]. apply andb_prop in Hq as [Hq1 Hq2].
    apply not_elem_of_app in Hn as [H1 H2]. unfold bind.
    destruct (quiet_eval e1 Hq1 fuel args st) as (st1 & E1 & HQ1); [lia|].
    specialize (IHe1 Hq1 fuel args st t ltac:(lia) H1). rewrite E1 in *. simpl in IHe1.
    destruct (denote _ _ e1 args); simpl; auto.
    rewrite <- IHe1. destruct (truthy a).
    + apply IHe2; auto; try lia.
      rewrite (qs_values _ _ HQ1), (qs_counters _ _ HQ1). exact H2.
    + apply IHe3; auto; try lia.
      rewrite (qs_values _ _ HQ1), (qs_counters _ _ HQ1). exact H2.
  - (* EAdd *)
    apply andb_prop in Hq as [Hq1 Hq2]. apply not_elem_of_app in Hn as [H1 H2].
    unfold bind.
    destruct (quiet_eval e1 Hq1 fuel args st) as (st1 & E1 & HQ1); [lia|].
    specialize (IHe1 Hq1 fuel args st t ltac:(lia) H1). rewrite E1 in *. simpl in IHe1.
    destruct (denote _ _ e1 args); simpl; auto.
    rewrite <- IHe1.
    rewrite <- (IHe2 Hq2 fuel args st1 t); try lia.
    + destruct (eval fuel e2 args st1) as [[v|x|] st2]; reflexivity.
    + rewrite (qs_values _ _ HQ1), (qs_counters _ _ HQ1). exact H2.
  - (* ELt *)
    apply andb_prop in Hq as [Hq1 Hq2]. apply not_elem_of_app in Hn as [H1 H2].
    unfold bind.
    destruct (quiet_eval e1 Hq1 fuel args st) as (st1 & E1 & HQ1); [lia|].
    specialize (IHe1 Hq1 fuel args st t ltac:(lia) H1). rewrite E1 in *. simpl in IHe1.
    destruct (denote _ _ e1 args); simpl; auto.
    rewrite <- IHe1.
    rewrite <- (IHe2 Hq2 fuel args st1 t); try lia.
    + destruct (eval fuel e2 args st1) as [[v|x|] st2]; reflexivity.
    + rewrite (qs_values _ _ HQ1), (qs_counters _ _ HQ1). exact H2.
  - (* ETick *)
    unfold bind, gets, modify, ret, throw. simpl.
    destruct (counters st !! c); reflexivity.
Qed.

Lemma subs_extend_mono l st st' t x :
  subs_extend l st st' -> x ∈ subs_of t st -> x ∈ subs_of t st'.
Proof.
  intros H Hx. destruct (H t) as (suffix & -> & _). apply elem_of_app. auto.
Qed.

Lemma subs_extend_new l st st' t x :
  subs_extend l st st' -> x ∈ subs_of t st' -> x ∈ subs_of t st \/ x ∈ l.
Proof.
  intros H Hx. destruct (H t) as (suffix & E & Hl & _). rewrite E in Hx.
  apply elem_of_app in Hx as [Hx|Hx]; auto.
Qed.

Lemma value_of_values s st : value_of s st = values st !! s.
Proof. unfold value_of. rewrite values_lookup. reflexivity. Qed.

Lemma memo_store_transfer m em fn D l st st' :
  memo_store m em fn D st ->
  length (signals st') = length (signals st) ->
  (forall e, body_of e st' = body_of e st) ->
  length (effects st') = length (effects st) ->
  effects_depth st' = effects_depth st ->
  currentEffect st' = None ->
  subs_extend l st st' ->
  (forall x, x ∈ l -> (x < length (effects st))%nat) ->
  em ∉ subs_of m st' ->
  memo_store m em fn D st'.
Proof.
  intros [a1 a2 a3 a4 a5 a6 a7 a8 a9 a10] Hs Hb He Hd Hc Hext Hl Hown.
  split; auto; try congruence; try (rewrite Hd; exact a9).
  - intros e Hlt Hne. destruct (a6 e) as (b & Hb1 & Hq); [lia|auto|].
    exists b. rewrite Hb. auto.
  - intros t. destruct (a7 t) as [Hnd Hbound]. split.
    + destruct (Hext t) as (suffix & _ & _ & Hn). auto.
    + intros x Hx. rewrite He.
      destruct (subs_extend_new _ _ _ _ _ Hext Hx); auto.
Qed.

Lemma memo_fresh_transfer m em fn l st st' :
  memo_fresh m em fn st ->
  values st' = values st ->
  length (counters st') = length (counters st) ->
  subs_extend l st st' ->
  memo_fresh m em fn st'.
Proof.
  intros [I1 I2] Hv Hc Hext. split.
  - intros t Ht Hlt. rewrite Hv, Hc in Ht.
    eapply subs_extend_mono; eauto. apply I1; auto.
    rewrite <- !values_length, Hv in *. exact Hlt.
  - intros v Hd. rewrite Hv, Hc in Hd. rewrite value_of_values, Hv, <- value_of_values.
    auto.
Qed.

(** A quiet subscriber's run keeps a memo store and an up-to-date memo. *)
Lemma notify_quiet_memo k m em fn D e st :
  memo_store m em fn D st ->
  (e < length (effects st))%nat -> e <> em ->
  (D + 2 <= k)%nat ->
  exists st',
    notify (runEffect k) e st = (Ok tt, st')
    /\ length (effects st') = length (effects st)
    /\ memo_store m em fn D st'
    /\ values st' = values st
    /\ length (counters st') = length (counters st)
    /\ subs_extend [e] st st'
    /\ (memo_fresh m em fn st -> memo_fresh m em fn st').
Proof.
  intros HM Hlt Hne Hk.
  destruct (ms_others _ _ _ _ _ HM e Hlt Hne) as (b & Hb & Hq).
  pose proof (quiet_body_depth_le _ _ _ Hb) as Hdb.
  destruct (ms_depth _ _ _ _ _ HM) as [HD _].
  destruct (notify_quiet_effect k e b st Hb Hq) as (r & st' & HN & Hran & _); [lia|].
  pose proof (ran_extend _ _ _ _ _ Hran) as Hext.
  exists st'. split; [exact HN|].
  assert (Hlen : length (signals st') = length (signals st)).
  { rewrite <- !values_length, (ran_values _ _ _ _ _ Hran). reflexivity. }
  split; [rewrite (ran_effects _ _ _ _ _ Hran); apply length_alter|].
  split.
  { eapply (memo_store_transfer m em fn D [e] st st'); eauto.
    - intros x. unfold body_of. rewrite (ran_effects _ _ _ _ _ Hran).
      apply (body_of_bump e x st).
    - rewrite (ran_effects _ _ _ _ _ Hran). apply length_alter.
    - unfold effects_depth at 1. rewrite (ran_effects _ _ _ _ _ Hran).
      apply (effects_depth_bump e st).
    - apply (ran_current _ _ _ _ _ Hran).
    - intros x Hx. apply list_elem_of_singleton in Hx as ->. exact Hlt.
    - intros Hin. destruct (subs_extend_new _ _ _ _ _ Hext Hin) as [H|H].
      + apply (ms_not_own _ _ _ _ _ HM H).
      + apply list_elem_of_singleton in H. auto. }
  split; [apply (ran_values _ _ _ _ _ Hran)|].
  split; [apply (ran_counters _ _ _ _ _ Hran)|].
  split; [exact Hext|].
  intros HF. eapply memo_fresh_transfer; eauto.
  - apply (ran_values _ _ _ _ _ Hran).
  - apply (ran_counters _ _ _ _ _ Hran).
Qed.

Lemma notify_memo_unfold label k em m fn n st :
  effects st !! em = Some (mkEffect (MemoEffect m (VFun fn)) n) ->
  try_report label (runEffect (S k) em ;;; ret tt) st =
  let st0 := set_current (Some em) (set_effects (alter bump em) st) in
  match eval k fn [] st0 with
  | (Ok v, st1) =>
      match write (eval k) (runEffect k) m v st1 with
      | (Ok _, st2) => (Ok tt, set_current None st2)
      | (Throw x, st2) =>
          (Ok tt,
           set_console (fun l => l ++ [(label, x)])
             (set_console (fun l => l ++ [("Error in effect:", x)])
                (set_current None
                   (set_console (fun l => l ++ [("Error in memo function:", x)]) st2))))
      | (Diverge, st2) => (Diverge, st2)
      end
  | (Throw x, st1) =>
      (Ok tt,
       set_console (fun l => l ++ [(label, x)])
         (set_console (fun l => l ++ [("Error in effect:", x)])
            (set_current None
               (set_console (fun l => l ++ [("Error in memo function:", x)]) st1))))
  | (Diverge, st1) => (Diverge, st1)
  end.
Proof.
  intros He. unfold try_report, try_catch, bind. rewrite runEffect_S.
  unfold runEffect_body, try_catch, bind, modify, get_effect, ret, console_error, throw.
  cbn -[runEffect eval write]. rewrite list_lookup_alter_eq, He.
  cbn -[runEffect eval write].
  unfold try_catch, bind, console_error, modify, throw, ret.
  cbn -[runEffect eval write].
  destruct (eval k fn [] _) as [[v|x|] st1]; cbn -[runEffect eval write]; try reflexivity.
  destruct (write (eval k) (runEffect k) m v st1) as [[w|x|] st2]; reflexivity.
Qed.

Lemma subs_extend_eq_l l a a' b :
  (forall t, subs_of t a' = subs_of t a) -> subs_extend l a b -> subs_extend l a' b.
Proof. intros E H t. rewrite E. apply H. Qed.

Lemma subs_extend_eq_r l a b b' :
  (forall t, subs_of t b' = subs_of t b) -> subs_extend l a b -> subs_extend l a b'.
Proof. intros E H t. rewrite E. apply H. Qed.

Lemma subs_extend_weaken l l' a b :
  (forall x, x ∈ l -> x ∈ l') -> subs_extend l a b -> subs_extend l' a b.
Proof.
  intros Hl H t. destruct (H t) as (s & E & I & N). exists s. split; auto.
Qed.

Lemma quiet_step_extend st st' c :
  quiet_step st st' -> currentEffect st = Some c -> subs_extend [c] st st'.
Proof.
  intros HQ Hc t. destruct (qs_subs _ _ HQ t) as [->|(c' & Hc' & ->)].
  - exists []. rewrite app_nil_r. split; [reflexivity|]. split; auto.
    intros x Hx. exfalso. eapply not_elem_of_nil; eauto.
  - assert (c' = c) as -> by congruence.
    unfold set_add. destruct (decide (c ∈ subs_of t st)) as [Hin|Hin].
    + exists []. rewrite app_nil_r. split; [reflexivity|]. split; auto.
      intros x Hx. exfalso. eapply not_elem_of_nil; eauto.
    + exists [c]. split; [reflexivity|]. split; auto.
      intros Hnd. apply NoDup_app. split; [auto|]. split; [|apply NoDup_singleton].
      intros x Hx Hxe. apply list_elem_of_singleton in Hxe as ->. auto.
Qed.

(** The state in which a memo's effect body starts. *)
Lemma memo_entry_facts m em fn D st :
  memo_store m em fn D st ->
  let st0 := set_current (Some em) (set_effects (alter bump em) st) in
  values st0 = values st
  /\ counters st0 = counters st
  /\ (forall t, subs_of t st0 = subs_of t st)
  /\ (forall e, body_of e st0 = body_of e st)
  /\ effects_depth st0 = effects_depth st
  /\ length (effects st0) = length (effects st)
  /\ (em < length (effects st))%nat.
Proof.
  intros HM st0. repeat split; auto.
  - intros e. apply (body_of_bump em e st).
  - apply (effects_depth_bump em st).
  - simpl. apply length_alter.
  - pose proof (ms_body _ _ _ _ _ HM) as Hb. unfold body_of in Hb.
    destruct (effects st !! em) eqn:E; [|discriminate]. eapply lookup_lt_Some; eauto.
Qed.

Lemma notify_memo label k m em fn D st :
  memo_store m em fn D st ->
  (D + 3 <= k)%nat ->
  exists st',
    try_report label (runEffect k em ;;; ret tt) st = (Ok tt, st')
    /\ length (effects st') = length (effects st)
    /\ length (values st') = length (values st)
    /\ memo_store m em fn D st'
    /\ memo_fresh m em fn st'
    /\ (forall t, t <> m -> values st' !! t = values st !! t)
    /\ length (counters st') = length (counters st)
    /\ subs_extend (em :: subs_of m st) st st'.
Proof.
  intros HM Hk. destruct k as [|k]; [lia|].
  pose proof (ms_body _ _ _ _ _ HM) as Hb. unfold body_of in Hb.
  destruct (effects st !! em) as [[b n]|] eqn:He; [|discriminate].
  simpl in Hb. injection Hb as ->.
  rewrite (notify_memo_unfold label k em m fn n st He). cbv zeta.
  destruct (memo_entry_facts m em fn D st HM) as (Hv0 & Hc0 & Hs0 & Hb0 & Hd0 & Hl0 & Hem).
  set (st0 := set_current (Some em) (set_effects (alter bump em) st)) in *.
  pose proof (ms_quiet _ _ _ _ _ HM) as Hq.
  destruct (ms_depth _ _ _ _ _ HM) as [HD Hdf].
  destruct (quiet_eval fn Hq k [] st0) as (st1 & HE & HQ); [lia|].
  pose proof (unmentioned_unread m fn (values st0) (length (counters st0)) []
                (ms_no_self _ _ _ _ _ HM)) as Hunread.
  assert (Hm1 : subs_of m st1 = subs_of m st).
  { rewrite <- Hs0. pose proof (quiet_unread_subs fn Hq k [] st0 m ltac:(lia) Hunread) as H.
    rewrite HE in H. exact H. }
  assert (Hreads : forall t,
             t ∈ reads (values st) (length (counters st)) fn [] ->
             (t < length (signals st))%nat -> em ∈ subs_of t st1).
  { intros t Ht Hlt.
    eapply (quiet_reads_subscribe fn Hq k [] st0 st1 _ em);
      [lia|exact HE|reflexivity| |exact Hlt].
    rewrite Hv0, Hc0. exact Ht. }
  assert (Hext1 : subs_extend [em] st st1).
  { eapply subs_extend_eq_l; [|eapply (quiet_step_extend st0 st1 em HQ); reflexivity].
    intros t. symmetry. apply Hs0. }
  assert (Hval1 : values st1 = values st) by (rewrite (qs_values _ _ HQ); exact Hv0).
  assert (Hcnt1 : length (counters st1) = length (counters st)).
  { rewrite (qs_counters _ _ HQ), Hc0. reflexivity. }
  assert (Hbody1 : forall e, body_of e st1 = body_of e st).
  { intros e. unfold body_of. rewrite (qs_effects _ _ HQ). apply Hb0. }
  assert (Hdep1 : effects_depth st1 = effects_depth st).
  { unfold effects_depth. rewrite (qs_effects _ _ HQ). exact Hd0. }
  assert (Hlen1 : length (effects st1) = length (effects st)).
  { rewrite (qs_effects _ _ HQ). exact Hl0. }
  assert (Hsig1 : length (signals st1) = length (signals st)).
  { rewrite <- !values_length, Hval1. reflexivity. }
  rewrite HE, Hv0, Hc0.
  destruct (denote (values st) (length (counters st)) fn []) as [v|x|] eqn:Dn.
  - (* the function returned [v] *)
    pose proof (ms_plain _ _ _ _ _ HM _ _ _ Dn) as Hplain.
    destruct (lookup_lt_is_Some_2 (signals st1) m) as [sg Hsg];
      [rewrite Hsig1; apply (ms_signal _ _ _ _ _ HM)|].
    assert (Hsubs_sg : sig_subs sg = subs_of m st).
    { rewrite <- Hm1. unfold subs_of. rewrite Hsg. reflexivity. }
    destruct (ms_wf _ _ _ _ _ HM m) as [Hnd Hbound].
    destruct (write_ok_quiet k st1 m sg v v Hsg) as (st1' & st2 & HW & HQ' & Hsame & Hfan).
    { rewrite Hsubs_sg. exact Hnd. }
    { intros e Hin. rewrite Hsubs_sg in Hin.
      destruct (ms_others _ _ _ _ _ HM e (Hbound e Hin)) as (b & Hbe & Hqe).
      { intros ->. apply (ms_not_own _ _ _ _ _ HM Hin). }
      exists b. rewrite Hbody1. auto. }
    { apply quiet_updater_literal; auto. }
    { congruence. }
    { unfold write_fuel. rewrite updater_depth_literal by auto. rewrite Hdep1. lia. }
    { apply next_value_literal; auto. }
    unfold write_at in HW. rewrite HW.
    exists (set_current None st2). split; [reflexivity|].
    assert (Hval2 : values st2 = alter (fun _ => v) m (values st)).
    { rewrite (fan_values _ _ _ Hfan), assigned_values, (qs_values _ _ HQ'), Hval1.
      reflexivity. }
    assert (Hext12 : subs_extend (sig_subs sg) st1 (set_current None st2)).
    { apply (subs_extend_eq_l _ (assigned m v st1') st1).
      - intros t. rewrite assigned_subs. symmetry. apply Hsame.
      - apply (subs_extend_eq_r _ _ st2); [intros t; reflexivity|].
        apply (fan_extend _ _ _ Hfan). }
    assert (Hext : subs_extend (em :: subs_of m st) st (set_current None st2)).
    { change (em :: subs_of m st) with ([em] ++ subs_of m st).
      eapply subs_extend_trans; [exact Hext1|]. rewrite <- Hsubs_sg. exact Hext12. }
    assert (Hm2 : subs_of m st2 = subs_of m st).
    { rewrite (fan_subs _ _ _ Hfan).
      - rewrite assigned_subs, Hsame. exact Hm1.
      - intros e Hin. rewrite assigned_subs, Hsame, Hm1, <- Hsubs_sg. exact Hin. }
    assert (Hcnt2 : length (counters st2) = length (counters st)).
    { rewrite (fan_counters _ _ _ Hfan). unfold assigned. simpl.
      rewrite (qs_counters _ _ HQ'). exact Hcnt1. }
    assert (Hlen2 : length (effects st2) = length (effects st)).
    { rewrite (fan_length _ _ _ Hfan). unfold assigned. simpl.
      rewrite (qs_effects _ _ HQ'). exact Hlen1. }
    split; [exact Hlen2|].
    split; [change (values (set_current None st2)) with (values st2);
            rewrite Hval2; apply length_alter|].
    split.
    { apply (memo_store_transfer m em fn D (em :: subs_of m st) st _ HM).
      - simpl. rewrite <- !values_length, Hval2. apply length_alter.
      - intros e. unfold body_of. simpl. fold (body_of e st2).
        rewrite (fan_bodies _ _ _ Hfan). unfold body_of, assigned. simpl.
        rewrite (qs_effects _ _ HQ'). apply Hbody1.
      - exact Hlen2.
      - change (effects_depth st2 = effects_depth st).
        rewrite (fan_depth _ _ _ Hfan). unfold effects_depth, assigned. simpl.
        rewrite (qs_effects _ _ HQ'). exact Hdep1.
      - reflexivity.
      - exact Hext.
      - intros x Hx. apply elem_of_cons in Hx as [->|Hx]; auto.
      - change (subs_of m (set_current None st2)) with (subs_of m st2).
        rewrite Hm2. apply (ms_not_own _ _ _ _ _ HM). }
    split.
    { split.
      - intros t Ht Hlt. change (values (set_current None st2)) with (values st2) in Ht.
        change (counters (set_current None st2)) with (counters st2) in Ht.
        rewrite Hval2, Hcnt2 in Ht.
        destruct (denote_unread fn (values st) (length (counters st)) [] m (fun _ => v))
          as [_ HR]; [rewrite <- Hv0, <- Hc0; exact Hunread|].
        rewrite HR in Ht.
        eapply subs_extend_mono; [exact Hext12|].
        apply Hreads; auto.
          change (signals (set_current None st2)) with (signals st2) in Hlt.
          rewrite <- values_length, Hval2, length_alter, values_length in Hlt. exact Hlt.
      - intros v' Hd. change (values (set_current None st2)) with (values st2) in Hd.
        change (counters (set_current None st2)) with (counters st2) in Hd.
        rewrite Hval2, Hcnt2 in Hd.
        destruct (denote_unread fn (values st) (length (counters st)) [] m (fun _ => v))
          as [HDn _]; [rewrite <- Hv0, <- Hc0; exact Hunread|].
        rewrite HDn, Dn in Hd. injection Hd as <-.
        rewrite value_of_values.
        change (values (set_current None st2)) with (values st2).
        rewrite Hval2, list_lookup_alter_eq.
        destruct (lookup_lt_is_Some_2 (values st) m) as [old Hold];
          [rewrite values_length; apply (ms_signal _ _ _ _ _ HM)|].
        rewrite Hold. reflexivity. }
    split.
    { intros t Ht. change (values (set_current None st2)) with (values st2).
      rewrite Hval2, list_lookup_alter_ne; auto. }
    split; [exact Hcnt2|exact Hext].
  - (* the function threw *)
    eexists. split; [reflexivity|].
    split; [exact Hlen1|].
    split; [change (length (values st1) = length (values st)); rewrite Hval1; reflexivity|].
    split.
    { apply (memo_store_transfer m em fn D [em] st _ HM).
      - exact Hsig1.
      - exact Hbody1.
      - exact Hlen1.
      - exact Hdep1.
      - reflexivity.
      - apply (subs_extend_eq_r _ _ st1); [intros t; reflexivity|exact Hext1].
      - intros y Hy. apply list_elem_of_singleton in Hy as ->. exact Hem.
      - change (em ∉ subs_of m st1). rewrite Hm1. apply (ms_not_own _ _ _ _ _ HM). }
    split.
    { split.
      - intros t Ht Hlt. apply (Hreads t); auto.
        + change (t ∈ reads (values st1) (length (counters st1)) fn []) in Ht.
          rewrite Hval1, Hcnt1 in Ht. exact Ht.
        + change (t < length (signals st1))%nat in Hlt. rewrite Hsig1 in Hlt. exact Hlt.
      - intros v' Hd.
        change (denote (values st1) (length (counters st1)) fn [] = Ok v') in Hd.
        rewrite Hval1, Hcnt1, Dn in Hd. discriminate. }
    split.
    { intros t _. change (values st1 !! t = values st !! t). rewrite Hval1. reflexivity. }
    split; [exact Hcnt1|].
    eapply subs_extend_weaken; [|eapply subs_extend_eq_r; [|exact Hext1]].
    + intros y Hy. apply list_elem_of_singleton in Hy as ->. left.
    + intros t. reflexivity.
  - exfalso. eapply denote_quiet; eauto.
Qed.

(** The fan-out of a write in a memo store: over quiet subscribers and
    possibly the memo's own effect. *)
Lemma fan_out_memo k m em fn D l : forall st,
  memo_store m em fn D st ->
  (forall x, x ∈ l -> (x < length (effects st))%nat) ->
  (D + 3 <= k)%nat ->
  exists st',
    for_each (notify (runEffect k)) l st = (Ok tt, st')
    /\ memo_store m em fn D st'
    /\ length (values st') = length (values st)
    /\ (forall t, t <> m -> values st' !! t = values st !! t)
    /\ (memo_fresh m em fn st -> memo_fresh m em fn st')
    /\ (em ∈ l -> memo_fresh m em fn st').
Proof.
  induction l as [|e l IH]; intros st HM Hb Hk; simpl.
  - exists st. split; [reflexivity|]. split; [exact HM|]. split; [auto|].
    split; [auto|]. split; [auto|]. intros Hin. exfalso. eapply not_elem_of_nil; eauto.
  - destruct (decide (e = em)) as [->|Hne].
    + destruct (notify_memo "Error in signal subscriber:" k m em fn D st HM Hk)
        as (st1 & HN & Hlen & Hvl1 & HM1 & HF1 & Hv1 & _ & _).
      destruct (IH st1 HM1) as (st' & HL & HM' & Hvl' & Hv' & HP & _); auto.
      { intros x Hx. rewrite Hlen. apply Hb. right. exact Hx. }
      exists st'. split.
      { unfold bind. unfold notify. rewrite HN. exact HL. }
      split; [exact HM'|]. split; [congruence|]. split.
      { intros t Ht. rewrite Hv', Hv1; auto. }
      split; auto.
    + destruct (notify_quiet_memo k m em fn D e st HM) as
        (st1 & HN & Hlen & HM1 & Hv1 & _ & _ & HF1); auto; [apply Hb; left|lia|].
      destruct (IH st1 HM1) as (st' & HL & HM' & Hvl' & Hv' & HP & HP2); auto.
      { intros x Hx. rewrite Hlen. apply Hb. right. exact Hx. }
      exists st'. split.
      { unfold bind. rewrite HN. exact HL. }
      split; [exact HM'|]. split; [congruence|]. split.
      { intros t Ht. rewrite Hv', Hv1; auto. }
      split; auto.
      intros Hin. apply elem_of_cons in Hin as [?|Hin]; [congruence|auto].
Qed.

Lemma assigned_memo_store m em fn D s v st :
  memo_store m em fn D st -> memo_store m em fn D (assigned s v st).
Proof.
  intros HM. apply (memo_store_transfer m em fn D [] st _ HM).
  - unfold assigned. simpl. apply length_alter.
  - reflexivity.
  - reflexivity.
  - reflexivity.
  - apply (ms_current _ _ _ _ _ HM).
  - apply (subs_extend_eq_r _ _ st); [intros t; apply assigned_subs|].
    apply subs_extend_refl.
  - intros x Hx. exfalso. eapply not_elem_of_nil; eauto.
  - rewrite assigned_subs. apply (ms_not_own _ _ _ _ _ HM).
Qed.

(** Assigning a signal the memo does not depend on keeps the memo fresh. *)
Lemma assigned_memo_fresh m em fn D s v st :
  memo_store m em fn D st ->
  memo_fresh m em fn st ->
  s <> m -> (s < length (signals st))%nat ->
  em ∉ subs_of s st ->
  memo_fresh m em fn (assigned s v st).
Proof.
  intros HM [I1 I2] Hsm Hlt Hnot.
  assert (Hun : s ∉ reads (values st) (length (counters st)) fn []).
  { intros Hin. apply Hnot. apply I1; auto. }
  destruct (denote_unread fn (values st) (length (counters st)) [] s (fun _ => v) Hun)
    as [HD HR].
  split.
  - intros t Ht Hlt'. rewrite assigned_subs.
    rewrite assigned_values in Ht. change (counters (assigned s v st)) with (counters st) in Ht.
    rewrite HR in Ht. apply I1; auto.
    unfold assigned in Hlt'. simpl in Hlt'. rewrite length_alter in Hlt'. exact Hlt'.
  - intros v' Hd. rewrite assigned_values in Hd.
    change (counters (assigned s v st)) with (counters st) in Hd.
    rewrite HD in Hd. rewrite value_of_values, assigned_values.
    rewrite list_lookup_alter_ne by auto. rewrite <- value_of_values. auto.
Qed.

(** Computing the new value, of a plain argument or of a quiet updater,
    keeps a memo store and an up-to-date memo. *)
Lemma new_value_keeps_memo k m em fn D next cur st :
  memo_store m em fn D st ->
  memo_fresh m em fn st ->
  total_updater next -> (updater_depth next < k)%nat ->
  exists v st1,
    (if is_function next then call_fn (eval k) next [cur] else ret next) st = (Ok v, st1)
    /\ memo_store m em fn D st1
    /\ memo_fresh m em fn st1
    /\ values st1 = values st
    /\ forall t, subs_of t st1 = subs_of t st.
Proof.
  intros HM HF Ht Hd.
  destruct (total_updater_value k next cur st Ht Hd) as [v Hv].
  destruct (new_value_phase k next cur st (total_updater_quiet _ Ht) Hd
              (fun _ => ms_current _ _ _ _ _ HM)) as (st1 & HN & _ & HQ & Hsub).
  rewrite Hv in HN.
  assert (Hext : subs_extend [] st st1).
  { apply (subs_extend_eq_r _ _ st); [exact Hsub|apply subs_extend_refl]. }
  exists v, st1. split; [exact HN|]. split.
  { apply (memo_store_transfer m em fn D [] st _ HM).
    - rewrite <- !values_length, (qs_values _ _ HQ). reflexivity.
    - intros e. unfold body_of. rewrite (qs_effects _ _ HQ). reflexivity.
    - rewrite (qs_effects _ _ HQ). reflexivity.
    - unfold effects_depth. rewrite (qs_effects _ _ HQ). reflexivity.
    - rewrite (qs_current _ _ HQ). apply (ms_current _ _ _ _ _ HM).
    - exact Hext.
    - intros x Hx. exfalso. eapply not_elem_of_nil; eauto.
    - rewrite Hsub. apply (ms_not_own _ _ _ _ _ HM). }
  split.
  { apply (memo_fresh_transfer m em fn [] st _ HF);
      [apply (qs_values _ _ HQ)|apply (qs_counters _ _ HQ)|exact Hext]. }
  split; [apply (qs_values _ _ HQ)|exact Hsub].
Qed.

(** A write to a signal other than the memo's keeps the memo up to date. *)
Lemma write_keeps_memo_fresh k m em fn D s next st :
  memo_store m em fn D st ->
  memo_fresh m em fn st ->
  s <> m -> (s < length (signals st))%nat ->
  total_updater next -> (updater_depth next <= D)%nat ->
  (D + 3 <= k)%nat ->
  exists v st',
    write_at k s next st = (Ok v, st')
    /\ memo_store m em fn D st'
    /\ memo_fresh m em fn st'
    /\ length (signals st') = length (signals st).
Proof.
  intros HM0 HF0 Hsm Hlt0 Ht Hd Hk.
  destruct (lookup_lt_is_Some_2 _ _ Hlt0) as [sg Hsg0].
  destruct (new_value_keeps_memo k m em fn D next (sig_value sg) st HM0 HF0 Ht ltac:(lia))
    as (v & st1 & HN & HM & HF & Hvals & Hsubs).
  assert (Hsg : signals st1 !! s = Some sg).
  { eapply lookup_same_values; eauto. }
  assert (Hlt : (s < length (signals st1))%nat) by (eapply lookup_lt_Some; eauto).
  pose proof (assigned_memo_store m em fn D s v st1 HM) as HMa.
  destruct (fan_out_memo k m em fn D (sig_subs sg) (assigned s v st1) HMa)
    as (st' & HL & HM' & Hvl' & Hv' & HP1 & HP2); auto.
  { intros x Hx. unfold assigned. simpl.
    destruct (ms_wf _ _ _ _ _ HM s) as [_ Hb]. apply Hb.
    unfold subs_of. rewrite Hsg. exact Hx. }
  assert (Hlen' : length (signals st') = length (signals st)).
  { rewrite <- !values_length, Hvl', assigned_values, length_alter, Hvals. reflexivity. }
  assert (Hs' : values st' !! s = Some v).
  { rewrite Hv' by auto. rewrite assigned_values, list_lookup_alter_eq.
    rewrite values_lookup, Hsg. reflexivity. }
  rewrite values_lookup in Hs'.
  destruct (signals st' !! s) as [g2|] eqn:Hg2; [|discriminate].
  simpl in Hs'. injection Hs' as Hg2v.
  exists v, st'. split.
  { rewrite <- Hg2v. apply (write_steps k s next sg v st st1 sg (st') g2); auto. }
  split; [exact HM'|]. split; [|exact Hlen'].
  destruct (decide (em ∈ sig_subs sg)) as [Hin|Hnin]; [auto|].
  apply HP1. eapply assigned_memo_fresh; eauto.
  unfold subs_of. rewrite Hsg. exact Hnin.
Qed.

Lemma list_max_snoc l x : list_max (l ++ [x]) = Nat.max (list_max l) x.
Proof. rewrite list_max_app. simpl. lia. Qed.

Lemma memo_allocated_store fn D st k :
  quiet_store D st ->
  quiet fn = true -> (depth fn <= D)%nat ->
  mentions_read (length (signals st)) fn = false ->
  never_function k fn -> (depth fn < k)%nat ->
  memo_store (length (signals st)) (length (effects st)) fn D (memo_allocated fn st).
Proof.
  intros [Q1 Q2 Q3 Q4] Hq Hd Hm Hnf Hk.
  split; auto.
  - unfold memo_allocated. simpl. rewrite length_app. simpl. lia.
  - unfold body_of, memo_allocated. simpl.
    rewrite lookup_app_r, Nat.sub_diag by lia. reflexivity.
  - intros vals nc v Hden.
    apply (Hnf (mkState (map (fun x => mkSignal x []) vals) [] None []
                  (repeat 0 nc) [] []) v).
    rewrite eval_quiet_fst by auto. unfold values. simpl.
    rewrite map_map. simpl. rewrite map_id, repeat_length. exact Hden.
  - intros e Hlt Hne. unfold memo_allocated in Hlt. simpl in Hlt.
    rewrite length_app in Hlt. simpl in Hlt.
    destruct (Q1 e) as (b & Hb & Hqb); [lia|].
    exists b. split; auto. unfold body_of, memo_allocated. simpl.
    rewrite lookup_app_l by lia. exact Hb.
  - intros t. unfold subs_of, memo_allocated. simpl.
    destruct (decide (t < length (signals st))%nat) as [Hlt|Hge].
    + rewrite lookup_app_l by auto. destruct (Q2 t) as [Hnd Hb]. split; auto.
      intros x Hx. rewrite length_app. simpl. specialize (Hb x Hx). lia.
    + destruct (decide (t = length (signals st))) as [->|Hne].
      * rewrite lookup_app_r, Nat.sub_diag by lia. simpl. split; [apply NoDup_nil_2|].
        intros x Hx. exfalso. eapply not_elem_of_nil; eauto.
      * rewrite lookup_ge_None_2; [simpl; split; [apply NoDup_nil_2|]|].
        -- intros x Hx. exfalso. eapply not_elem_of_nil; eauto.
        -- rewrite length_app. simpl. lia.
  - unfold subs_of, memo_allocated. simpl.
    rewrite lookup_app_r, Nat.sub_diag by lia. simpl. apply not_elem_of_nil.
  - split; auto. unfold effects_depth, memo_allocated. simpl.
    rewrite map_app. simpl.
    rewrite (list_max_snoc (map (fun ef => body_depth (eff_body ef)) (effects st)) 0).
    fold (effects_depth st). lia.
Qed.

Lemma setMemo_establishes k fn D st :
  quiet_store D st ->
  quiet fn = true -> (depth fn <= D)%nat ->
  mentions_read (length (signals st)) fn = false ->
  never_function k fn ->
  (D + 3 <= k)%nat ->
  exists st',
    setMemo_at k (VFun fn) st = (Ok (VFun (ERead (length (signals st)))), st')
    /\ memo_store (length (signals st)) (length (effects st)) fn D st'
    /\ memo_fresh (length (signals st)) (length (effects st)) fn st'
    /\ length (signals st') = S (length (signals st)).
Proof.
  intros HQ Hq Hd Hm Hnf Hk.
  pose proof (memo_allocated_store fn D st k HQ Hq Hd Hm Hnf ltac:(lia)) as HM.
  destruct (notify_memo "Error initializing effect:" k _ _ fn D _ HM Hk)
    as (st' & HN & _ & Hvl & HM' & HF' & _).
  exists st'. split.
  { unfold setMemo_at, setMemo, try_catch, bind at 1. unfold setSignal at 1.
    unfold setEffect, bind. cbn -[runEffect try_report].
    fold (memo_allocated fn st).
    change (length (effects (set_signals (fun l => l ++ [mkSignal VUndef []]) st)))
      with (length (effects st)).
    unfold bind in HN. rewrite HN. reflexivity. }
  split; [exact HM'|]. split; [exact HF'|].
  rewrite <- values_length, Hvl, values_length. unfold memo_allocated. simpl.
  rewrite length_app. simpl. lia.
Qed.

Lemma writes_keep_memo_fresh k m em fn D ws : forall st,
  memo_store m em fn D st ->
  memo_fresh m em fn st ->
  Forall (fun w => fst w <> m /\ (fst w < length (signals st))%nat
                   /\ total_updater (snd w) /\ (updater_depth (snd w) <= D)%nat) ws ->
  (D + 3 <= k)%nat ->
  exists st',
    write_all k ws st = (Ok tt, st')
    /\ memo_store m em fn D st'
    /\ memo_fresh m em fn st'.
Proof.
  induction ws as [|[s v] ws IH]; intros st HM HF Hall Hk.
  - exists st. split; [reflexivity|auto].
  - apply Forall_cons in Hall as [(Hsm & Hlt & Hv & Hdv) Hall]. simpl in *.
    destruct (write_keeps_memo_fresh k m em fn D s v st HM HF Hsm Hlt Hv Hdv Hk)
      as (r & st1 & HW & HM1 & HF1 & Hlen).
    destruct (IH st1 HM1 HF1) as (st' & HL & HM' & HF'); auto.
    { eapply Forall_impl; [exact Hall|]. intros w (? & ? & ? & ?).
      rewrite Hlen. auto. }
    exists st'. split; [|auto].
    unfold write_all. simpl. unfold bind at 1. unfold bind at 1. rewrite HW.
    unfold ret at 1. exact HL.
Qed.


Lemma add_val_plain a b : is_function (add_val a b) = false.
Proof. destruct a, b; reflexivity. Qed.

Lemma lt_val_plain a b : is_function (lt_val a b) = false.
Proof. destruct a, b; reflexivity. Qed.

Lemma two_signals_quiet : quiet_store 2 two_signals.
Proof.
  split.
  - intros e He. simpl in He. assert (e = 0)%nat as -> by lia.
    eexists. split; [reflexivity|]. apply QuietUser. reflexivity.
  - intros [|[|t]]; unfold subs_of; cbn; (split; [|intros x Hx]).
    + refine (bool_decide_unpack (NoDup [0%nat]) _). vm_compute. exact I.
    + apply list_elem_of_singleton in Hx as ->. lia.
    + apply NoDup_nil_2.
    + exfalso. eapply not_elem_of_nil; eauto.
    + apply NoDup_nil_2.
    + destruct t; cbn in Hx; exfalso; eapply not_elem_of_nil; eauto.
  - reflexivity.
  - vm_compute. lia.
Qed.

Lemma sum_if_small_never_function : never_function 5 sum_if_small.
Proof.
  intros st v H. rewrite eval_quiet_fst in H by (try reflexivity; vm_compute; lia).
  unfold sum_if_small in H. simpl in H.
  destruct (values st !! 0%nat) as [a|]; simpl in H; [|discriminate].
  destruct (truthy (lt_val a (VNum 5))).
  - destruct (values st !! 1%nat) as [b|]; simpl in H; [|discriminate].
    injection H as <-. apply add_val_plain.
  - injection H as <-. reflexivity.
Qed.

Lemma three_memo_writes :
  Forall (fun w => (fst w < length (signals two_signals))%nat
                   /\ total_updater (snd w) /\ (updater_depth (snd w) <= 2)%nat)
    [(0, VNum 3); (1, increment); (0, VNum 7)]%nat.
Proof.
  repeat constructor; simpl; try lia. apply increment_total.
Defined.



(** The same program run: the memo holds 3 after creation ([1 + 2]), 5
    after the first write ([3 + 2]), 6 after the second ([3 + 3]), and 0
    after the third ([a = 7] is not below 5). *)
Example memo_program_values :
  value_of 2 (snd (setMemo_at 5 (VFun sum_if_small) two_signals)) = Some (VNum 3)
  /\ value_of 2
       (snd ((getter <- setMemo_at 5 (VFun sum_if_small) ;;
              write_all 5 [(0, VNum 3)]%nat ;;; ret getter) two_signals))
     = Some (VNum 5)
  /\ value_of 2
       (snd ((getter <- setMemo_at 5 (VFun sum_if_small) ;;
              write_all 5 [(0, VNum 3); (1, increment)]%nat ;;; ret getter) two_signals))
     = Some (VNum 6)
  /\ value_of 2
       (snd ((getter <- setMemo_at 5 (VFun sum_if_small) ;;
              write_all 5 [(0, VNum 3); (1, increment); (0, VNum 7)]%nat ;;;
              ret getter) two_signals))
     = Some (VNum 0).
Proof. vm_compute. repeat split; reflexivity. Qed.

(** * References *)

Lemma set_refs_id st : set_refs (fun l => l) st = st.
Proof. destruct st; reflexivity. Qed.

(** X1.  The accessor made by [setRef()] first yields null; a call with an
    argument other than undefined stores the argument and returns it, and
    later calls without an argument, or with undefined, return the stored
    value and leave the store as it is.  The slots of other references are
    not touched. *)
Theorem ref_accessor_round_trip
    (ev : expr -> list val -> M val) (st : state) (x : val) :
  x <> VUndef ->
  exists st1 st2,
    setRef st = (Ok (VRefFn (length (refs st))), st1)
    /\ call_fn ev (VRefFn (length (refs st))) [] st1 = (Ok VNull, st1)
    /\ call_fn ev (VRefFn (length (refs st))) [x] st1 = (Ok x, st2)
    /\ call_fn ev (VRefFn (length (refs st))) [] st2 = (Ok x, st2)
    /\ call_fn ev (VRefFn (length (refs st))) [VUndef] st2 = (Ok x, st2)
    /\ forall r', r' <> length (refs st) -> refs st2 !! r' = refs st !! r'.
Proof.
  intros Hx.
  exists (set_refs (fun l => l ++ [VNull]) st).
  exists (set_refs (<[length (refs st) := x]>) (set_refs (fun l => l ++ [VNull]) st)).
  assert (Hnew : (refs st ++ [VNull]) !! length (refs st) = Some VNull).
  { apply list_lookup_middle. reflexivity. }
  assert (Hset : <[length (refs st) := x]> (refs st ++ [VNull]) !! length (refs st) = Some x).
  { apply list_lookup_insert_eq. rewrite length_app. simpl. lia. }
  split; [reflexivity|].
  split.
  { unfold call_fn, ref_accessor, bind, ret, gets. simpl. rewrite Hnew. reflexivity. }
  split.
  { unfold call_fn, ref_accessor, bind, ret, gets, modify. simpl.
    destruct x; try congruence; simpl; rewrite Hset; reflexivity. }
  split.
  { unfold call_fn, ref_accessor, bind, ret, gets. simpl. rewrite Hset. reflexivity. }
  split.
  { unfold call_fn, ref_accessor, bind, ret, gets. simpl. rewrite Hset. reflexivity. }
  intros r' Hr. simpl. rewrite list_lookup_insert_ne by auto.
  destruct (decide (r' < length (refs st))%nat) as [Hlt|Hge].
  - apply lookup_app_l. exact Hlt.
  - rewrite (lookup_ge_None_2 (refs st)) by lia.
    apply lookup_ge_None_2. rewrite length_app. simpl. lia.
Qed.

Lemma ref_accessor_round_trip_witness :
  exists st1 st2,
    setRef empty_state = (Ok (VRefFn 0), st1)
    /\ call_fn (eval 1) (VRefFn 0) [] st1 = (Ok VNull, st1)
    /\ call_fn (eval 1) (VRefFn 0) [VNode 3] st1 = (Ok (VNode 3), st2)
    /\ call_fn (eval 1) (VRefFn 0) [] st2 = (Ok (VNode 3), st2)
    /\ call_fn (eval 1) (VRefFn 0) [VUndef] st2 = (Ok (VNode 3), st2)
    /\ forall r', r' <> 0%nat -> refs st2 !! r' = refs empty_state !! r'.
Proof.
  apply (ref_accessor_round_trip (eval 1) empty_state (VNode 3)). discriminate.
Defined.

(** * Subscriptions *)

Lemma set_signals_id st : set_signals (fun l => l) st = st.
Proof. destruct st; reflexivity. Qed.

Lemma subscribe_twice (e s : nat) (l : list signal) :
  alter (fun g => mkSignal (sig_value g) (set_add e (sig_subs g))) s
    (alter (fun g => mkSignal (sig_value g) (set_add e (sig_subs g))) s l)
  = alter (fun g => mkSignal (sig_value g) (set_add e (sig_subs g))) s l.
Proof.
  rewrite list_alter_alter_eq. apply list_alter_ext; auto.
  intros g _. simpl. rewrite set_add_idem. reflexivity.
Qed.

Lemma read_unfold s sg st :
  signals st !! s = Some sg ->
  read s st =
    (Ok (sig_value sg),
     match currentEffect st with Some e => subscribed e s st | None => st end).
Proof.
  intros Hs.
  unfold read, try_catch, bind, get_signal, gets, modify, ret. rewrite Hs.
  destruct (currentEffect st); reflexivity.
Qed.

(** X2.  A read returns the signal's value and changes no value.  Inside an
    effect it adds that effect to the signal's subscribers unless it is
    there already, so the set keeps its members, their order, and stays free
    of duplicates; outside an effect it adds nothing.  Other signals keep
    their subscribers, and reading again in the same effect changes
    nothing. *)
Theorem read_subscribes_once (s : nat) (sg : signal) (st : state) :
  signals st !! s = Some sg ->
  NoDup (sig_subs sg) ->
  exists st',
    read s st = (Ok (sig_value sg), st')
    /\ subs_of s st' = match currentEffect st with
                       | Some e => set_add e (sig_subs sg)
                       | None => sig_subs sg
                       end
    /\ NoDup (subs_of s st')
    /\ (exists new, subs_of s st' = sig_subs sg ++ new
                    /\ forall x, x ∈ new -> currentEffect st = Some x)
    /\ (forall t, t <> s -> subs_of t st' = subs_of t st)
    /\ values st' = values st
    /\ read s st' = (Ok (sig_value sg), st').
Proof.
  intros Hs Hnd. rewrite (read_unfold s sg st Hs).
  destruct (currentEffect st) as [e|] eqn:Hc.
  - exists (subscribed e s st). split; [reflexivity|].
    assert (Hsub : subs_of s (subscribed e s st) = set_add e (sig_subs sg)).
    { unfold subscribed. rewrite subs_of_alter, decide_True by auto.
      rewrite Hs. reflexivity. }
    split; [exact Hsub|].
    split; [rewrite Hsub; apply set_add_nodup; exact Hnd|].
    split.
    { rewrite Hsub. unfold set_add. destruct (decide (e ∈ sig_subs sg)).
      - exists []. rewrite app_nil_r. split; [reflexivity|].
        intros x Hx. exfalso. eapply not_elem_of_nil; eauto.
      - exists [e]. split; [reflexivity|].
        intros x Hx. apply list_elem_of_singleton in Hx as ->. reflexivity. }
    split.
    { intros t Ht. unfold subscribed. rewrite subs_of_alter, decide_False by auto.
      reflexivity. }
    split.
    { apply values_alter_subs. reflexivity. }
    rewrite (read_unfold s (mkSignal (sig_value sg) (set_add e (sig_subs sg)))).
    + change (currentEffect (subscribed e s st)) with (currentEffect st). rewrite Hc.
      f_equal. destruct st; unfold subscribed, set_signals; simpl. f_equal.
      apply subscribe_twice.
    + unfold subscribed. simpl. rewrite list_lookup_alter_eq, Hs. reflexivity.
  - exists st. split; [reflexivity|].
    assert (Hsub : subs_of s st = sig_subs sg) by (unfold subs_of; rewrite Hs; reflexivity).
    split; [exact Hsub|].
    split; [rewrite Hsub; exact Hnd|].
    split.
    { exists []. rewrite app_nil_r. split; [exact Hsub|].
      intros x Hx. exfalso. eapply not_elem_of_nil; eauto. }
    split; [reflexivity|]. split; [reflexivity|].
    rewrite (read_unfold s sg st Hs), Hc. reflexivity.
Qed.

Lemma read_subscribes_once_witness :
  exists st',
    read 0 (set_current (Some 3%nat) three_subscribers) = (Ok (VNum 0), st')
    /\ subs_of 0 st' = set_add 3 [0; 1; 2]%nat
    /\ NoDup (subs_of 0 st')
    /\ (exists new, subs_of 0 st' = [0; 1; 2]%nat ++ new
                    /\ forall x, x ∈ new -> Some 3%nat = Some x)
    /\ (forall t, t <> 0%nat ->
          subs_of t st' = subs_of t (set_current (Some 3%nat) three_subscribers))
    /\ values st' = values (set_current (Some 3%nat) three_subscribers)
    /\ read 0 st' = (Ok (VNum 0), st').
Proof.
  apply (read_subscribes_once 0 (mkSignal (VNum 0) [0; 1; 2]%nat)
           (set_current (Some 3%nat) three_subscribers)).
  - reflexivity.
  - refine (bool_decide_unpack (NoDup [0; 1; 2]%nat) _). vm_compute. exact I.
Defined.

(** X3.  No subscription is ever dropped: after a write whose updater and
    subscribers are quiet, every signal still has all the subscribers it
    had, in the same order, whatever the subscribers read on this run; what
    is new comes after them and is among the effects the write ran. *)
Theorem write_keeps_every_subscription
    (fuel : nat) (st : state) (s : nat) (sg : signal) (next v : val) :
  signals st !! s = Some sg ->
  NoDup (sig_subs sg) ->
  (forall e, e ∈ sig_subs sg -> quiet_effect st e) ->
  quiet_updater next ->
  (is_function next = true -> currentEffect st = None) ->
  (write_fuel st next <= fuel)%nat ->
  next_value fuel next (sig_value sg) st = Ok v ->
  exists st',
    write_at fuel s next st = (Ok v, st')
    /\ subs_of s st' = sig_subs sg
    /\ forall t, exists new,
         subs_of t st' = subs_of t st ++ new
         /\ forall x, x ∈ new -> x ∈ sig_subs sg.
Proof.
  intros Hs Hnd Hq Hu Hc Hf Hv.
  destruct (write_ok_quiet fuel st s sg next v Hs Hnd Hq Hu Hc Hf Hv)
    as (st1 & st' & HW & HQ & Hsame & Hfan).
  exists st'. split; [exact HW|].
  assert (Hs1 : subs_of s st = sig_subs sg) by (unfold subs_of; rewrite Hs; reflexivity).
  split.
  - rewrite (fan_subs _ _ _ Hfan).
    + rewrite assigned_subs, Hsame. exact Hs1.
    + intros e He. rewrite assigned_subs, Hsame, Hs1. exact He.
  - intros t. destruct (fan_extend _ _ _ Hfan t) as (new & Heq & Hin & _).
    exists new. rewrite Heq, assigned_subs, Hsame. split; [reflexivity|exact Hin].
Qed.

Lemma write_keeps_every_subscription_witness :
  exists st',
    write_at 4 0 increment three_subscribers = (Ok (VNum 1), st')
    /\ subs_of 0 st' = [0; 1; 2]%nat
    /\ forall t, exists new,
         subs_of t st' = subs_of t three_subscribers ++ new
         /\ forall x, x ∈ new -> x ∈ [0; 1; 2]%nat.
Proof.
  apply (write_keeps_every_subscription 4 three_subscribers 0
           (mkSignal (VNum 0) [0; 1; 2]%nat) increment (VNum 1)).
  - reflexivity.
  - exact nodup_012.
  - exact three_subscribers_quiet.
  - reflexivity.
  - reflexivity.
  - vm_compute. lia.
  - reflexivity.
Defined.

(** * Memos whose compute function fails *)

(** In a memo store every effect other than the memo's is run by a
    notification without a change of the values. *)
Lemma notify_other_in_memo_store k m em fn D e st :
  memo_store m em fn D st ->
  (e < length (effects st))%nat -> e <> em ->
  (D + 2 <= k)%nat ->
  exists st',
    notify (runEffect k) e st = (Ok tt, st')
    /\ memo_store m em fn D st'
    /\ values st' = values st
    /\ length (counters st') = length (counters st)
    /\ length (effects st') = length (effects st)
    /\ exists new, console st' = console st ++ new.
Proof.
  intros HM He Hne Hk.
  destruct (notify_quiet_memo k m em fn D e st HM He Hne Hk)
    as (st' & HN & Hlen & HM' & Hv & Hc & _ & _).
  exists st'. split; [exact HN|]. split; [exact HM'|]. split; [exact Hv|].
  split; [exact Hc|]. split; [exact Hlen|].
  destruct (ms_others _ _ _ _ _ HM e He Hne) as (b & Hb & Hqb).
  destruct (ms_depth _ _ _ _ _ HM) as [HD _].
  pose proof (quiet_body_depth_le e b st Hb) as Hle.
  destruct (notify_quiet_effect k e b st Hb Hqb ltac:(lia)) as (r & st2 & HN2 & Hran & _).
  rewrite HN in HN2. injection HN2 as <-.
  destruct (ran_console _ _ _ _ _ Hran) as (extra & Hcon).
  eexists. exact Hcon.
Qed.

(** The memo's effect, run while the compute function throws: the failure
    is reported and the memo's signal is not written. *)
Lemma notify_memo_failing label k m em fn D st err :
  memo_store m em fn D st ->
  (D + 3 <= k)%nat ->
  denote (values st) (length (counters st)) fn [] = Throw err ->
  exists st',
    try_report label (runEffect k em ;;; ret tt) st = (Ok tt, st')
    /\ memo_store m em fn D st'
    /\ values st' = values st
    /\ length (counters st') = length (counters st)
    /\ length (effects st') = length (effects st)
    /\ exists extra,
         console st' = console st ++ extra ++
           [("Error in memo function:", err); ("Error in effect:", err); (label, err)].
Proof.
  intros HM Hk Hden.
  destruct (notify_memo label k m em fn D st HM Hk)
    as (st' & HN & Hlen & _ & HM' & _ & _ & Hcnt & _).
  exists st'. split; [exact HN|]. split; [exact HM'|].
  destruct k as [|k]; [lia|].
  pose proof (ms_body _ _ _ _ _ HM) as Hb. unfold body_of in Hb.
  destruct (effects st !! em) as [[b n]|] eqn:He; [|discriminate].
  simpl in Hb. injection Hb as ->.
  rewrite (notify_memo_unfold label k em m fn n st He) in HN. cbv zeta in HN.
  destruct (memo_entry_facts m em fn D st HM) as (Hv0 & Hc0 & _).
  destruct (ms_depth _ _ _ _ _ HM) as [_ Hdf].
  destruct (quiet_eval fn (ms_quiet _ _ _ _ _ HM) k []
              (set_current (Some em) (set_effects (alter bump em) st)))
    as (st1 & HE & HQ); [lia|].
  rewrite HE, Hv0, Hc0, Hden in HN. injection HN as <-.
  split.
  { match goal with |- values ?x = _ => change (values x) with (values st1) end.
    rewrite (qs_values _ _ HQ). exact Hv0. }
  split; [exact Hcnt|]. split; [exact Hlen|].
  destruct (qs_console _ _ HQ) as (extra & Hcon).
  exists extra. simpl. rewrite Hcon. simpl.
  rewrite <- !app_assoc. reflexivity.
Qed.

(** The fan-out of a write in a memo store whose compute function throws
    on the present values. *)
Lemma fan_out_memo_failing k m em fn D err l : forall st,
  memo_store m em fn D st ->
  (forall x, x ∈ l -> (x < length (effects st))%nat) ->
  (D + 3 <= k)%nat ->
  denote (values st) (length (counters st)) fn [] = Throw err ->
  exists st',
    for_each (notify (runEffect k)) l st = (Ok tt, st')
    /\ values st' = values st
    /\ exists new,
         console st' = console st ++ new
         /\ (em ∈ l -> ("Error in memo function:", err) ∈ new).
Proof.
  induction l as [|e l IH]; intros st HM Hb Hk Hden; simpl.
  - exists st. split; [reflexivity|]. split; [reflexivity|].
    exists []. rewrite app_nil_r. split; [reflexivity|].
    intros Hin. exfalso. eapply not_elem_of_nil; eauto.
  - destruct (decide (e = em)) as [->|Hne].
    + destruct (notify_memo_failing "Error in signal subscriber:" k m em fn D st err
                  HM Hk Hden) as (st1 & HN & HM1 & Hv1 & Hc1 & Hl1 & extra & Hcon1).
      destruct (IH st1 HM1) as (st' & HL & Hv' & new & Hcon' & _); auto.
      { intros x Hx. rewrite Hl1. apply Hb. right. exact Hx. }
      { rewrite Hv1, Hc1. exact Hden. }
      exists st'. split.
      { unfold bind. unfold notify. rewrite HN. exact HL. }
      split; [congruence|].
      eexists. split.
      { rewrite Hcon', Hcon1, <- !app_assoc. reflexivity. }
      intros _. apply elem_of_app. right. apply elem_of_app. left. left.
    + destruct (notify_other_in_memo_store k m em fn D e st HM)
        as (st1 & HN & HM1 & Hv1 & Hc1 & Hl1 & new1 & Hcon1);
        auto; [apply Hb; left|lia|].
      destruct (IH st1 HM1) as (st' & HL & Hv' & new & Hcon' & Hin'); auto.
      { intros x Hx. rewrite Hl1. apply Hb. right. exact Hx. }
      { rewrite Hv1, Hc1. exact Hden. }
      exists st'. split.
      { unfold bind. rewrite HN. exact HL. }
      split; [congruence|].
      exists (new1 ++ new). split.
      { rewrite Hcon', Hcon1, <- app_assoc. reflexivity. }
      intros Hin. apply elem_of_cons in Hin as [?|Hin]; [congruence|].
      apply elem_of_app. right. auto.
Qed.

(** X4.  When a write makes a memo's compute function throw, the writer
    still gets its value back and the memo keeps the value of its last
    successful computation; the failure is reported on the console when
    the memo's effect is among the subscribers of the written signal. *)
Theorem memo_keeps_value_when_recompute_throws
    (k D m em s : nat) (fn : expr) (sg : signal) (v err : val) (st : state) :
  memo_store m em fn D st ->
  s <> m ->
  signals st !! s = Some sg ->
  is_function v = false ->
  (D + 3 <= k)%nat ->
  fst (eval k fn [] (assigned s v st)) = Throw err ->
  exists st',
    write_at k s v st = (Ok v, st')
    /\ value_of s st' = Some v
    /\ value_of m st' = value_of m st
    /\ fst (read m st') = fst (read m st)
    /\ exists new,
         console st' = console st ++ new
         /\ (em ∈ sig_subs sg -> ("Error in memo function:", err) ∈ new).
Proof.
  intros HM Hsm Hsg Hv Hk Hthrow.
  destruct (ms_depth _ _ _ _ _ HM) as [_ Hdf].
  rewrite eval_quiet_fst in Hthrow by (try apply (ms_quiet _ _ _ _ _ HM); lia).
  pose proof (assigned_memo_store m em fn D s v st HM) as HMa.
  destruct (fan_out_memo_failing k m em fn D err (sig_subs sg) (assigned s v st) HMa)
    as (st' & HL & Hv' & new & Hcon & Hin); auto.
  { intros x Hx. unfold assigned. simpl.
    destruct (ms_wf _ _ _ _ _ HM s) as [_ Hb]. apply Hb.
    unfold subs_of. rewrite Hsg. exact Hx. }
  assert (Hs' : values st' !! s = Some v).
  { rewrite Hv', assigned_values, list_lookup_alter_eq.
    rewrite values_lookup, Hsg. reflexivity. }
  assert (Hm' : value_of m st' = value_of m st).
  { rewrite !value_of_values, Hv', assigned_values.
    apply list_lookup_alter_ne. auto. }
  exists st'. split.
  { unfold write_at, write, try_catch, bind, get_signal. rewrite Hsg, Hv.
    unfold ret at 1. unfold modify. fold (assigned s v st).
    rewrite (assigned_lookup _ _ _ _ Hsg). cbn [sig_subs]. rewrite HL.
    rewrite values_lookup in Hs'.
    destruct (signals st' !! s) as [sg'|]; [|discriminate].
    simpl in Hs'. injection Hs' as ->. reflexivity. }
  split; [rewrite value_of_values; exact Hs'|].
  split; [exact Hm'|].
  split.
  { unfold value_of in Hm'.
    destruct (lookup_lt_is_Some_2 (signals st) m (ms_signal _ _ _ _ _ HM)) as [g Hg].
    rewrite Hg in Hm'. destruct (signals st' !! m) as [g'|] eqn:Hg'; [|discriminate].
    simpl in Hm'. injection Hm' as Hm'.
    rewrite (read_value m g' st' Hg'), (read_value m g st Hg), Hm'. reflexivity. }
  exists new. split; [exact Hcon|exact Hin].
Qed.

Lemma guarded_sum_never_function : never_function 5 guarded_sum.
Proof.
  intros st v H. rewrite eval_quiet_fst in H by (try reflexivity; vm_compute; lia).
  unfold guarded_sum in H. simpl in H.
  destruct (values st !! 0%nat) as [a|]; simpl in H; [|discriminate].
  destruct (truthy (lt_val a (VNum 5))).
  - destruct (values st !! 1%nat) as [b|]; simpl in H; [|discriminate].
    injection H as <-. apply add_val_plain.
  - discriminate.
Qed.

Lemma guarded_memo_store : memo_store 2 1 guarded_sum 2 guarded_memo.
Proof.
  destruct (setMemo_establishes 5 guarded_sum 2 two_signals)
    as (st' & HE & HM & _).
  - exact two_signals_quiet.
  - reflexivity.
  - vm_compute. lia.
  - reflexivity.
  - exact guarded_sum_never_function.
  - lia.
  - replace guarded_memo with st'; [exact HM|].
    change guarded_memo with (snd (setMemo_at 5 (VFun guarded_sum) two_signals)).
    rewrite HE. reflexivity.
Qed.

Lemma memo_keeps_value_when_recompute_throws_witness :
  exists st',
    write_at 5 0 (VNum 7) guarded_memo = (Ok (VNum 7), st')
    /\ value_of 0 st' = Some (VNum 7)
    /\ value_of 2 st' = value_of 2 guarded_memo
    /\ fst (read 2 st') = fst (read 2 guarded_memo)
    /\ exists new,
         console st' = console guarded_memo ++ new
         /\ (1%nat ∈ [0; 1]%nat ->
             ("Error in memo function:", VErr "too big") ∈ new).
Proof.
  apply (memo_keeps_value_when_recompute_throws 5 2 2 1 0 guarded_sum
           (mkSignal (VNum 1) [0; 1]%nat) (VNum 7) (VErr "too big") guarded_memo).
  - exact guarded_memo_store.
  - lia.
  - reflexivity.
  - reflexivity.
  - lia.
  - reflexivity.
Defined.

(** A run of that store: the memo holds 3, and still holds 3 after
    [a] is set to 7, for which the compute function throws. *)
Example guarded_memo_values :
  value_of 2 guarded_memo = Some (VNum 3)
  /\ value_of 2 (snd (write_at 5 0 (VNum 7) guarded_memo)) = Some (VNum 3)
  /\ value_of 2 (snd (write_at 5 0 (VNum 2) guarded_memo)) = Some (VNum 4).
Proof. vm_compute. repeat split; reflexivity. Qed.

(** X5.  [setMemo] of a compute function that throws on its first run
    still returns the memo's read accessor, and that accessor yields
    undefined; the failure is reported three times, by the memo, by its
    effect and by [setEffect]. *)
Theorem memo_of_failing_function_reads_undefined
    (k : nat) (fn : expr) (err : val) (st : state) :
  quiet fn = true ->
  (depth fn + 2 <= k)%nat ->
  fst (eval k fn [] (memo_allocated fn st)) = Throw err ->
  exists getMemoValue st',
    setMemo_at k (VFun fn) st = (Ok getMemoValue, st')
    /\ getMemoValue = VFun (ERead (length (signals st)))
    /\ value_of (length (signals st)) st' = Some VUndef
    /\ fst (call_fn (eval k) getMemoValue [] st') = Ok VUndef
    /\ exists extra,
         console st' = console st ++ extra ++
           [("Error in memo function:", err); ("Error in effect:", err);
            ("Error initializing effect:", err)].
Proof.
  intros Hq Hk Hthrow.
  rewrite eval_quiet_fst in Hthrow by (auto; lia).
  destruct k as [|k]; [lia|].
  set (m := length (signals st)). set (em := length (effects st)).
  assert (He : effects (memo_allocated fn st) !! em
               = Some (mkEffect (MemoEffect m (VFun fn)) 0)).
  { unfold memo_allocated. simpl. apply list_lookup_middle. reflexivity. }
  pose proof (notify_memo_unfold "Error initializing effect:" k em m fn 0
                (memo_allocated fn st) He) as HU. cbv zeta in HU.
  destruct (quiet_eval fn Hq k []
              (set_current (Some em) (set_effects (alter bump em) (memo_allocated fn st))))
    as (st1 & HE & HQ); [lia|].
  rewrite HE in HU.
  change (values (set_current (Some em) (set_effects (alter bump em) (memo_allocated fn st))))
    with (values (memo_allocated fn st)) in HU.
  change (counters (set_current (Some em) (set_effects (alter bump em) (memo_allocated fn st))))
    with (counters (memo_allocated fn st)) in HU.
  rewrite Hthrow in HU.
  assert (Hval : values st1 = values st ++ [VUndef]).
  { rewrite (qs_values _ _ HQ). unfold values, memo_allocated. simpl.
    rewrite map_app. reflexivity. }
  assert (Hm : values st1 !! m = Some VUndef).
  { rewrite Hval. apply list_lookup_middle. unfold m. rewrite values_length. reflexivity. }
  eexists. eexists. split.
  { subst m em.
    unfold setMemo_at, setMemo, try_catch, bind at 1. unfold setSignal at 1.
    unfold setEffect, bind. cbn -[runEffect try_report].
    fold (memo_allocated fn st).
    change (length (effects (set_signals (fun l => l ++ [mkSignal VUndef []]) st)))
      with (length (effects st)).
    unfold bind in HU. rewrite HU. reflexivity. }
  split; [reflexivity|].
  split.
  { rewrite value_of_values. exact Hm. }
  split.
  { simpl. rewrite values_lookup in Hm. simpl in Hm. fold m.
    match goal with |- fst (read m ?x) = _ =>
      destruct (signals x !! m) as [g|] eqn:Hg end.
    - rewrite (read_value m g _ Hg). simpl in Hg.
      rewrite Hg in Hm. simpl in Hm. injection Hm as ->. reflexivity.
    - simpl in Hg. rewrite Hg in Hm. discriminate. }
  destruct (qs_console _ _ HQ) as (extra & Hcon).
  exists extra. simpl. rewrite Hcon. simpl. rewrite <- !app_assoc. reflexivity.
Qed.

Lemma memo_of_failing_function_reads_undefined_witness :
  exists getMemoValue st',
    setMemo_at 3 (VFun (EThrow (EConst (VErr "no")))) one_signal = (Ok getMemoValue, st')
    /\ getMemoValue = VFun (ERead (length (signals one_signal)))
    /\ value_of (length (signals one_signal)) st' = Some VUndef
    /\ fst (call_fn (eval 3) getMemoValue [] st') = Ok VUndef
    /\ exists extra,
         console st' = console one_signal ++ extra ++
           [("Error in memo function:", VErr "no"); ("Error in effect:", VErr "no");
            ("Error initializing effect:", VErr "no")].
Proof.
  apply (memo_of_failing_function_reads_undefined 3 (EThrow (EConst (VErr "no")))
           (VErr "no") one_signal).
  - reflexivity.
  - simpl. lia.
  - reflexivity.
Defined.

(** * Reactive text children *)

(** A quiet callback leaves the tree as it is. *)
Lemma quiet_eval_dom e :
  quiet e = true ->
  forall fuel args st, dom (snd (eval fuel e args st)) = dom st.
Proof.
  induction e; simpl; intros Hq fuel args st; try discriminate;
    destruct fuel as [|fuel]; simpl; auto.
  - (* ERead *)
    unfold read, try_catch, bind, get_signal, gets, modify, ret, throw, console_error.
    destruct (signals st !! s); simpl; auto.
    destruct (currentEffect st); simpl; auto.
  - (* EThrow *)
    unfold bind. specialize (IHe Hq fuel args st).
    destruct (eval fuel e args st) as [[v|x|] st1]; simpl in *; auto.
  - (* ESeq *)
    apply andb_prop in Hq as [Hq1 Hq2]. unfold bind.
    specialize (IHe1 Hq1 fuel args st).
    destruct (eval fuel e1 args st) as [[v|x|] st1]; simpl in *; auto.
    rewrite IHe2; auto.
  - (* EIf *)
    apply andb_prop in Hq as [Hq Hq3]. apply andb_prop in Hq as [Hq1 Hq2]. unfold bind.
    specialize (IHe1 Hq1 fuel args st).
    destruct (eval fuel e1 args st) as [[v|x|] st1]; simpl in *; auto.
    destruct (truthy v); [rewrite IHe2|rewrite IHe3]; auto.
  - (* EAdd *)
    apply andb_prop in Hq as [Hq1 Hq2]. unfold bind.
    specialize (IHe1 Hq1 fuel args st).
    destruct (eval fuel e1 args st) as [[v|x|] st1]; simpl in *; auto.
    specialize (IHe2 Hq2 fuel args st1).
    destruct (eval fuel e2 args st1) as [[w|x|] st2]; simpl in *; congruence.
  - (* ELt *)
    apply andb_prop in Hq as [Hq1 Hq2]. unfold bind.
    specialize (IHe1 Hq1 fuel args st).
    destruct (eval fuel e1 args st) as [[v|x|] st1]; simpl in *; auto.
    specialize (IHe2 Hq2 fuel args st1).
    destruct (eval fuel e2 args st1) as [[w|x|] st2]; simpl in *; congruence.
  - (* ETick *)
    unfold bind, gets, modify, ret, throw. simpl.
    destruct (counters st !! c); reflexivity.
Qed.

(** Assigning [textContent] of a text node. *)
Lemma set_textContent_text ph phn s st :
  dom st !! ph = Some phn -> nkind phn = KText ->
  Dom.set_textContent ph s st = (Ok tt, set_dom (alter (Dom.with_data s) ph) st).
Proof.
  intros Hph Hk. unfold Dom.set_textContent, bind, Dom.get_node.
  rewrite Hph, Hk. reflexivity.
Qed.

(** The effect of a reactive child whose callable is quiet, on a text
    placeholder: the store after the callable, with the placeholder's text
    set to the result or to the failure. *)
Lemma child_effect_text fuel p ph body phn st st1 :
  dom st !! ph = Some phn -> nkind phn = KText ->
  quiet body = true ->
  snd (eval fuel body [] st) = st1 ->
  match fst (eval fuel body [] st) with
  | Ok v =>
      is_node v = false -> is_array v = false ->
      child_effect (eval fuel) p ph (VFun body) st
        = (Ok VUndef, set_dom (alter (Dom.with_data (shown v)) ph) st1)
  | Throw (VErr msg) =>
      child_effect (eval fuel) p ph (VFun body) st
        = (Ok VUndef,
           set_dom (alter (Dom.with_data ("Error: " +:+ msg)) ph)
             (set_console (fun l => l ++ [("Error in reactive child function:", VErr msg)])
                st1))
  | _ => True
  end.
Proof.
  intros Hph Hk Hq Hst.
  pose proof (quiet_eval_dom body Hq fuel [] st) as Hdom. rewrite Hst in Hdom.
  destruct (eval fuel body [] st) as [[v|x|] st0] eqn:HE; simpl in *; subst st0; auto.
  - intros Hn Ha. unfold child_effect, try_catch, bind at 1. unfold call_fn.
    rewrite HE. unfold shown.
    destruct (is_nullish v) eqn:Hnull.
    + unfold bind. rewrite (set_textContent_text ph phn "" st1); [reflexivity| |auto].
      rewrite Hdom. exact Hph.
    + destruct v; try discriminate; unfold bind;
        (rewrite (set_textContent_text ph phn _ st1); [reflexivity| |auto]);
        rewrite Hdom; exact Hph.
  - destruct x; auto.
    unfold child_effect, try_catch, bind at 1. unfold call_fn. rewrite HE.
    unfold bind, console_error, modify, message_of, ret.
    cbn -[Dom.set_textContent append].
    rewrite (set_textContent_text ph phn); [reflexivity| |auto].
    simpl. rewrite Hdom. exact Hph.
Qed.

Lemma effect_entry_lookup e ef st :
  effects st !! e = Some ef ->
  effects (set_effects (alter bump e) st) !! e = Some (bump ef).
Proof. intros He. simpl. rewrite list_lookup_alter_eq, He. reflexivity. Qed.

(** [runEffect] of a reactive child's effect, in terms of the child's body. *)
Lemma run_child_effect fuel e n p ph fn st st1 :
  effects st !! e = Some (mkEffect (ChildEffect p ph fn) n) ->
  child_effect (eval fuel) p ph fn
    (set_current (Some e) (set_effects (alter bump e) st)) = (Ok VUndef, st1) ->
  runEffect (S fuel) e st = (Ok VUndef, set_current None st1).
Proof.
  intros He HC.
  rewrite runEffect_S. unfold runEffect_body, bind at 1. unfold modify at 1.
  unfold bind at 1. unfold get_effect at 1.
  cbn -[eval runEffect child_effect]. rewrite list_lookup_alter_eq, He.
  cbn -[eval runEffect child_effect].
  unfold try_catch, bind at 1. unfold modify at 1.
  unfold bind at 1. rewrite HC. reflexivity.
Qed.



(** X7.  A rerun of a reactive child whose callable throws [Error(msg)]
    does not fail: it shows ["Error: msg"] in the child's placeholder,
    reports the failure on the console, and changes nothing else in the
    tree and no signal value. *)
Theorem reactive_child_failure_is_shown
    (fuel e n p ph : nat) (body : expr) (phn : node) (msg : string) (st : state) :
  effects st !! e = Some (mkEffect (ChildEffect p ph (VFun body)) n) ->
  dom st !! ph = Some phn ->
  nkind phn = KText ->
  quiet body = true ->
  (depth body < fuel)%nat ->
  fst (eval fuel body [] st) = Throw (VErr msg) ->
  exists st',
    runEffect (S fuel) e st = (Ok VUndef, st')
    /\ dom st' = alter (Dom.with_data ("Error: " +:+ msg)) ph (dom st)
    /\ values st' = values st
    /\ exists extra,
         console st' = console st ++ extra ++
           [("Error in reactive child function:", VErr msg)].
Proof.
  intros He Hph Hk Hq Hd Hv.
  rewrite eval_quiet_fst in Hv by auto.
  set (st0 := set_current (Some e) (set_effects (alter bump e) st)).
  destruct (quiet_eval body Hq fuel [] st0 Hd) as (st1 & HE & HQ).
  change (values st0) with (values st) in HE.
  change (counters st0) with (counters st) in HE.
  rewrite Hv in HE.
  pose proof (child_effect_text fuel p ph body phn st0 st1 Hph Hk Hq) as HC.
  rewrite HE in HC. specialize (HC eq_refl).
  eexists. split; [exact (run_child_effect fuel e n p ph _ st _ He HC)|].
  split.
  { simpl. f_equal. pose proof (quiet_eval_dom body Hq fuel [] st0) as Hdom.
    rewrite HE in Hdom. exact Hdom. }
  split.
  { change (values st1 = values st). apply (qs_values _ _ HQ). }
  destruct (qs_console _ _ HQ) as (extra & Hcon).
  exists extra. simpl. rewrite Hcon, <- app_assoc. reflexivity.
Qed.

Lemma reactive_child_failure_is_shown_witness :
  exists st',
    runEffect 4 0 guarded_page = (Ok VUndef, st')
    /\ dom st' = alter (Dom.with_data ("Error: " +:+ "too big")) 1%nat (dom guarded_page)
    /\ values st' = values guarded_page
    /\ exists extra,
         console st' = console guarded_page ++ extra ++
           [("Error in reactive child function:", VErr "too big")].
Proof.
  apply (reactive_child_failure_is_shown 3 0 1 0 1 guarded_label
           (mkNode KText "Error: too big" [] (Some 0%nat) [] []) "too big" guarded_page).
  - reflexivity.
  - reflexivity.
  - reflexivity.
  - reflexivity.
  - simpl. lia.
  - reflexivity.
Defined.

(** * Text children of elements, fragments and roots *)

Lemma with_text_appended_dom p s st :
  (p < length (dom st))%nat ->
  dom (with_text_appended p s st)
  = alter (Dom.with_kids (fun kids => kids ++ [length (dom st)])) p (dom st)
    ++ [text_node p s].
Proof.
  intros Hp. unfold with_text_appended. simpl.
  rewrite (alter_app_r_alt _ (dom st)) by lia. rewrite Nat.sub_diag. simpl.
  rewrite alter_app_l by lia. reflexivity.
Qed.

Lemma with_texts_appended_dom p texts : forall st,
  (p < length (dom st))%nat ->
  dom (with_texts_appended p texts st)
  = alter (Dom.with_kids (fun kids => kids ++ seq (length (dom st)) (length texts)))
      p (dom st)
    ++ map (text_node p) texts.
Proof.
  induction texts as [|s rest IH]; intros st Hp; simpl.
  - rewrite app_nil_r. symmetry. apply list_alter_id.
    intros [k d kids par at' pr]. unfold Dom.with_kids. simpl.
    rewrite app_nil_r. reflexivity.
  - rewrite IH by (rewrite with_text_appended_dom by auto;
                   rewrite length_app, length_alter; lia).
    rewrite with_text_appended_dom by auto.
    rewrite length_app, length_alter. simpl.
    rewrite alter_app_l by (rewrite length_alter; lia).
    rewrite list_alter_alter_eq, <- app_assoc. simpl. f_equal.
    apply list_alter_ext; auto.
    intros nd _. unfold Dom.with_kids. simpl. rewrite <- app_assoc. simpl.
    replace (length (dom st) + 1)%nat with (S (length (dom st))) by lia. reflexivity.
Qed.

Lemma with_texts_appended_rest p texts : forall st,
  signals (with_texts_appended p texts st) = signals st
  /\ effects (with_texts_appended p texts st) = effects st
  /\ currentEffect (with_texts_appended p texts st) = currentEffect st
  /\ console (with_texts_appended p texts st) = console st
  /\ counters (with_texts_appended p texts st) = counters st
  /\ refs (with_texts_appended p texts st) = refs st.
Proof.
  induction texts as [|s rest IH]; intros st; simpl; [tauto|].
  destruct (IH (with_text_appended p s st)) as (H1 & H2 & H3 & H4 & H5 & H6).
  rewrite H1, H2, H3, H4, H5, H6. tauto.
Qed.

Lemma dom_closed_snoc d nd :
  dom_closed d ->
  (forall q, nparent nd = Some q -> (q <= length d)%nat) ->
  dom_closed (d ++ [nd]).
Proof.
  intros Hc Hnd n x q Hn Hq. rewrite length_app. simpl.
  destruct (decide (n < length d)%nat) as [Hlt|Hge].
  - rewrite lookup_app_l in Hn by auto. specialize (Hc n x q Hn Hq). lia.
  - rewrite lookup_app_r in Hn by lia.
    destruct (n - length d)%nat; simpl in Hn; [|discriminate].
    injection Hn as <-. specialize (Hnd q Hq). lia.
Qed.

Lemma dom_closed_texts p texts d f :
  dom_closed d -> (p < length d)%nat ->
  dom_closed (alter (Dom.with_kids f) p d ++ map (text_node p) texts).
Proof.
  intros Hc Hp n x q Hn Hq. rewrite length_app, length_alter.
  destruct (decide (n < length d)%nat) as [Hlt|Hge].
  - rewrite lookup_app_l in Hn by (rewrite length_alter; auto).
    rewrite list_lookup_alter in Hn. destruct (decide (p = n)) as [->|Hne].
    + destruct (d !! n) as [nd|] eqn:Hd; [|discriminate]. simpl in Hn.
      injection Hn as <-. simpl in Hq. specialize (Hc n nd q Hd Hq). lia.
    + specialize (Hc n x q Hn Hq). lia.
  - rewrite lookup_app_r in Hn by (rewrite length_alter; lia).
    rewrite list_lookup_fmap in Hn.
    destruct (texts !! (n - length (alter (Dom.with_kids f) p d))%nat); [|discriminate].
    simpl in Hn. injection Hn as <-. simpl in Hq. injection Hq as <-. lia.
Qed.

(** A loop that appends a text node to [p] for each item it keeps. *)
Lemma append_texts_loop (f : val -> M unit) (keep : val -> bool) (p : nat) :
  (forall c st pn,
     is_primitive c = true ->
     dom st !! p = Some pn -> Dom.can_have_kids pn = true -> dom_closed (dom st) ->
     f c st = (Ok tt, if keep c then with_text_appended p (to_string c) st else st)) ->
  forall items st pn,
    Forall (fun c => is_primitive c = true) items ->
    dom st !! p = Some pn -> Dom.can_have_kids pn = true -> dom_closed (dom st) ->
    for_each f items st = (Ok tt, with_texts_appended p (texts_of keep items) st).
Proof.
  intros Hf. induction items as [|c items IH]; intros st pn Hall Hp Hk Hc.
  - reflexivity.
  - apply Forall_cons in Hall as [Hprim Hall].
    assert (Hlt : (p < length (dom st))%nat) by (eapply lookup_lt_Some; eauto).
    simpl. unfold bind. rewrite (Hf c st pn Hprim Hp Hk Hc).
    unfold texts_of. simpl. destruct (keep c); simpl.
    + apply (IH _ (Dom.with_kids (fun kids => kids ++ [length (dom st)]) pn)); auto.
      * rewrite with_text_appended_dom by auto.
        rewrite lookup_app_l by (rewrite length_alter; auto).
        rewrite list_lookup_alter_eq, Hp. reflexivity.
      * rewrite with_text_appended_dom by auto.
        apply (dom_closed_texts p [to_string c]); auto.
    + apply (IH _ pn); auto.
Qed.

Lemma flat_val_primitive c : is_primitive c = true -> flat_val c = [c].
Proof. destruct c; try discriminate; reflexivity. Qed.

Lemma texts_of_app keep a b : texts_of keep (a ++ b) = texts_of keep a ++ texts_of keep b.
Proof. unfold texts_of. rewrite List.filter_app, map_app. reflexivity. Qed.

Lemma with_texts_appended_app p a : forall b st,
  with_texts_appended p (a ++ b) st
  = with_texts_appended p b (with_texts_appended p a st).
Proof. induction a as [|s a IH]; intros b st; simpl; [reflexivity|apply IH]. Qed.

(** Appending texts keeps what the next append needs. *)
Lemma with_texts_appended_keeps p texts st pn :
  dom st !! p = Some pn -> Dom.can_have_kids pn = true -> dom_closed (dom st) ->
  exists pn',
    dom (with_texts_appended p texts st) !! p = Some pn'
    /\ Dom.can_have_kids pn' = true
    /\ dom_closed (dom (with_texts_appended p texts st)).
Proof.
  intros Hp Hk Hc.
  assert (Hlt : (p < length (dom st))%nat) by (eapply lookup_lt_Some; eauto).
  rewrite with_texts_appended_dom by auto.
  eexists. split.
  { rewrite lookup_app_l by (rewrite length_alter; auto).
    rewrite list_lookup_alter_eq, Hp. reflexivity. }
  split; [exact Hk|]. apply dom_closed_texts; auto.
Qed.

(** A loop over items that are primitives or collections of them, each
    appended to [p] as the texts of what it flattens to. *)
Lemma append_texts_nested (f : val -> M unit) (keep : val -> bool) (p : nat) :
  (forall c st pn,
     Forall (fun x => is_primitive x = true) (flat_val c) ->
     dom st !! p = Some pn -> Dom.can_have_kids pn = true -> dom_closed (dom st) ->
     f c st = (Ok tt, with_texts_appended p (texts_of keep (flat_val c)) st)) ->
  forall items st pn,
    Forall (fun x => is_primitive x = true) (flat items) ->
    dom st !! p = Some pn -> Dom.can_have_kids pn = true -> dom_closed (dom st) ->
    for_each f items st = (Ok tt, with_texts_appended p (texts_of keep (flat items)) st).
Proof.
  intros Hf. induction items as [|c items IH]; intros st pn Hall Hp Hk Hc.
  - reflexivity.
  - change (flat (c :: items)) with (flat_val c ++ flat items) in *.
    apply Forall_app in Hall as [Hc1 Hrest].
    simpl. unfold bind. rewrite (Hf c st pn Hc1 Hp Hk Hc).
    rewrite texts_of_app, with_texts_appended_app.
    destruct (with_texts_appended_keeps p (texts_of keep (flat_val c)) st pn Hp Hk Hc)
      as (pn' & Hp' & Hk' & Hc').
    apply (IH _ pn'); auto.
Qed.

Section ChildBinder.

Variable run : nat -> M val.

(** The child binder of [html] on a primitive. *)
Lemma bind_item_primitive p c st pn :
  is_primitive c = true ->
  dom st !! p = Some pn -> Dom.can_have_kids pn = true -> dom_closed (dom st) ->
  bind_item run p c st
  = (Ok tt, if not_nullish c then with_text_appended p (to_string c) st else st).
Proof.
  intros Hprim Hp Hk Hc. unfold bind_item, try_catch.
  destruct c; try discriminate; simpl; try reflexivity;
    rewrite (append_fresh_text p _ st pn Hp Hk Hc); reflexivity.
Qed.

(** The child binder of [html] on a primitive or a collection of them. *)
Lemma bind_child_primitives p c st pn :
  Forall (fun x => is_primitive x = true) (flat_val c) ->
  dom st !! p = Some pn -> Dom.can_have_kids pn = true -> dom_closed (dom st) ->
  bind_child run p c st
  = (Ok tt, with_texts_appended p (texts_of not_nullish (flat_val c)) st).
Proof.
  intros Hall Hp Hk Hc.
  destruct (is_array c) eqn:Ha.
  - destruct c; try discriminate. rewrite flat_val_arr in *.
    unfold bind_child, try_catch.
    rewrite (append_texts_loop (bind_item run p) not_nullish p
               (fun c st pn => bind_item_primitive p c st pn) (flat items) st pn);
      auto.
  - assert (Hprim : is_primitive c = true).
    { destruct c; try discriminate; try reflexivity;
        simpl in Hall; apply Forall_cons in Hall as [H _]; discriminate. }
    rewrite (flat_val_primitive c Hprim).
    replace (bind_child run p c) with (bind_item run p c)
      by (destruct c; try discriminate; reflexivity).
    rewrite (bind_item_primitive p c st pn); auto.
    unfold texts_of. simpl. destruct (not_nullish c); reflexivity.
Qed.

End ChildBinder.

(** The tree after a fresh, childless node has received text children. *)
Lemma fresh_parent_with_texts nd texts st :
  nkids nd = [] ->
  dom (with_texts_appended (length (dom st)) texts (set_dom (fun d => d ++ [nd]) st))
  = dom st ++
    mkNode (nkind nd) (ndata nd) (seq (S (length (dom st))) (length texts))
           (nparent nd) (nattrs nd) (nprops nd)
    :: map (text_node (length (dom st))) texts.
Proof.
  intros Hk. rewrite with_texts_appended_dom by (simpl; rewrite length_app; simpl; lia).
  simpl. rewrite (alter_app_r_alt _ (dom st)) by lia. rewrite Nat.sub_diag. simpl.
  rewrite <- app_assoc. simpl. unfold Dom.with_kids. rewrite Hk, length_app. simpl.
  replace (length (dom st) + 1)%nat with (S (length (dom st))) by lia. reflexivity.
Qed.

Lemma valid_name_truthy tag : Dom.valid_name tag = true -> truthy (VStr tag) = true.
Proof. destruct tag; [discriminate|reflexivity]. Qed.

(** X8.  [html(tag, null, ...children)] with children that are primitives,
    or collections nested to any depth of primitives, returns a new element,
    in the SVG namespace exactly when the tag is one of the listed SVG tags,
    whose children are one text node per child other than null and
    undefined, in order, each holding [String(child)]; so [0] and [false]
    are rendered.  Nothing else in the store changes. *)
Theorem html_element_with_primitive_children
    (fuel : nat) (tag : string) (props : val) (children : list val) (st : state) :
  Dom.valid_name tag = true ->
  truthy props = false ->
  Forall (fun c => is_primitive c = true) (flat children) ->
  dom_closed (dom st) ->
  exists st',
    html_at fuel (VStr tag) props children st = (Ok (VNode (length (dom st))), st')
    /\ dom st' = dom st ++
         mkNode (KElement (str_mem tag SVG_TAGS) tag) ""
           (seq (S (length (dom st))) (length (texts_of not_nullish (flat children))))
           None [] []
         :: map (text_node (length (dom st))) (texts_of not_nullish (flat children))
    /\ signals st' = signals st /\ effects st' = effects st
    /\ currentEffect st' = currentEffect st
    /\ console st' = console st /\ refs st' = refs st.
Proof.
  intros Hvalid Hprops Hall Hc.
  set (el := mkNode (KElement (str_mem tag SVG_TAGS) tag) "" [] None [] []).
  set (st0 := set_dom (fun d => d ++ [el]) st).
  assert (Hloop :
    for_each (bind_child (runEffect fuel) (length (dom st))) children st0
    = (Ok tt, with_texts_appended (length (dom st))
                (texts_of not_nullish (flat children)) st0)).
  { apply (append_texts_nested _ not_nullish (length (dom st))
             (fun c st pn => bind_child_primitives (runEffect fuel) _ c st pn)
             children st0 el); auto.
    - unfold st0. simpl. apply list_lookup_middle. reflexivity.
    - apply dom_closed_snoc; auto. intros q Hq. discriminate. }
  exists (with_texts_appended (length (dom st)) (texts_of not_nullish (flat children)) st0).
  split.
  { unfold html_at, html, try_catch, html_body.
    pose proof (valid_name_truthy tag Hvalid) as Ht.
    cbn [is_function]. rewrite Ht. cbn [negb orb to_string].
    unfold bind at 1. unfold Dom.createElement. rewrite Hvalid.
    unfold Dom.alloc_node. fold el. fold st0. rewrite Hprops.
    unfold bind at 1. unfold ret at 1. unfold bind at 1. rewrite Hloop. reflexivity. }
  split; [apply (fresh_parent_with_texts el); reflexivity|].
  destruct (with_texts_appended_rest (length (dom st))
              (texts_of not_nullish (flat children)) st0) as (H1 & H2 & H3 & H4 & _ & H6).
  rewrite H1, H2, H3, H4, H6. repeat split; reflexivity.
Qed.

Lemma page_closed : dom_closed (dom page).
Proof.
  intros n nd q Hn Hq. destruct n as [|[|n]]; simpl in Hn; try discriminate;
    injection Hn as <-; simpl in Hq; try discriminate.
  injection Hq as <-. simpl. lia.
Qed.

Lemma html_element_with_primitive_children_witness :
  exists st',
    html_at 1 (VStr "p") VNull
      [VStr "n = "; VArr [VNum 0; VArr [VNull; VBool false]]; VUndef] page
      = (Ok (VNode (length (dom page))), st')
    /\ dom st' = dom page ++
         mkNode (KElement (str_mem "p" SVG_TAGS) "p") ""
           (seq (S (length (dom page)))
              (length (texts_of not_nullish
                 (flat [VStr "n = "; VArr [VNum 0; VArr [VNull; VBool false]]; VUndef]))))
           None [] []
         :: map (text_node (length (dom page)))
              (texts_of not_nullish
                 (flat [VStr "n = "; VArr [VNum 0; VArr [VNull; VBool false]]; VUndef]))
    /\ signals st' = signals page /\ effects st' = effects page
    /\ currentEffect st' = currentEffect page
    /\ console st' = console page /\ refs st' = refs page.
Proof.
  apply (html_element_with_primitive_children 1 "p" VNull
           [VStr "n = "; VArr [VNum 0; VArr [VNull; VBool false]]; VUndef] page).
  - reflexivity.
  - reflexivity.
  - repeat constructor.
  - exact page_closed.
Defined.

(** The texts of such children: ["n = "], ["0"] and ["false"]. *)
Example primitive_children_texts :
  texts_of not_nullish
    (flat [VStr "n = "; VArr [VNum 0; VArr [VNull; VBool false]]; VUndef])
  = ["n = "; "0"; "false"].
Proof. reflexivity. Qed.

(** The loop of [fragment_of] on primitives. *)
Lemma fragment_item_primitive frag c st pn :
  is_primitive c = true ->
  dom st !! frag = Some pn -> Dom.can_have_kids pn = true -> dom_closed (dom st) ->
  (if is_nullish c then ret tt else n <- node_of c ;; Dom.appendChild frag n) st
  = (Ok tt, if not_nullish c then with_text_appended frag (to_string c) st else st).
Proof.
  intros Hprim Hp Hk Hc.
  destruct c; try discriminate; simpl; try reflexivity;
    rewrite (append_fresh_text frag _ st pn Hp Hk Hc); reflexivity.
Qed.

Lemma fragment_of_primitives items st :
  Forall (fun c => is_primitive c = true) (flat items) ->
  dom_closed (dom st) ->
  fragment_of items st
  = (Ok (length (dom st)),
     with_texts_appended (length (dom st)) (texts_of not_nullish (flat items))
       (set_dom (fun d => d ++ [mkNode KFragment "" [] None [] []]) st)).
Proof.
  intros Hall Hc. unfold fragment_of, bind at 1.
  unfold Dom.createDocumentFragment, Dom.alloc_node. unfold bind at 1.
  rewrite (append_texts_loop _ not_nullish (length (dom st))
             (fun c st' pn => fragment_item_primitive (length (dom st)) c st' pn)
             (flat items) _ (mkNode KFragment "" [] None [] [])); auto.
  - simpl. apply list_lookup_middle. reflexivity.
  - apply dom_closed_snoc; auto. intros q Hq. discriminate.
Qed.

(** X9.  [html(Fragment, props, ...children)], and [html] with a tag that
    is null, undefined, empty, 0 or false, returns a new document fragment
    and ignores the properties.  When the children, flattened to any depth,
    are primitives, the fragment holds one text node per item other than
    null and undefined, in order, each holding [String(item)]. *)
Theorem html_fragment_of_primitives
    (fuel : nat) (tag props : val) (children : list val) (st : state) :
  tag = VFragment \/ truthy tag = false ->
  Forall (fun c => is_primitive c = true) (flat children) ->
  dom_closed (dom st) ->
  exists st',
    html_at fuel tag props children st = (Ok (VNode (length (dom st))), st')
    /\ dom st' = dom st ++
         mkNode KFragment ""
           (seq (S (length (dom st))) (length (texts_of not_nullish (flat children))))
           None [] []
         :: map (text_node (length (dom st))) (texts_of not_nullish (flat children))
    /\ signals st' = signals st /\ effects st' = effects st
    /\ currentEffect st' = currentEffect st
    /\ console st' = console st /\ refs st' = refs st.
Proof.
  intros Htag Hall Hc.
  set (st0 := set_dom (fun d => d ++ [mkNode KFragment "" [] None [] []]) st).
  exists (with_texts_appended (length (dom st)) (texts_of not_nullish (flat children)) st0).
  split.
  { unfold html_at, html, try_catch, html_body.
    assert (Hf : is_function tag = false).
    { destruct Htag as [->|Ht]; [reflexivity|]. destruct tag; try reflexivity; discriminate. }
    assert (Hfrag : (match tag with VFragment => true | _ => false end)
                    || negb (truthy tag) = true).
    { destruct Htag as [->|Ht]; [reflexivity|]. rewrite Ht. apply orb_true_r. }
    rewrite Hf, Hfrag. unfold bind.
    rewrite (fragment_of_primitives children st Hall Hc). reflexivity. }
  split; [apply (fresh_parent_with_texts (mkNode KFragment "" [] None [] [])); reflexivity|].
  destruct (with_texts_appended_rest (length (dom st))
              (texts_of not_nullish (flat children)) st0) as (H1 & H2 & H3 & H4 & _ & H6).
  rewrite H1, H2, H3, H4, H6. repeat split; reflexivity.
Qed.

Lemma html_fragment_of_primitives_witness :
  exists st',
    html_at 1 VFragment (VObj [("class", VStr "x")])
      [VArr [VStr "a"; VNull]; VNum 0] page
      = (Ok (VNode (length (dom page))), st')
    /\ dom st' = dom page ++
         mkNode KFragment ""
           (seq (S (length (dom page)))
              (length (texts_of not_nullish (flat [VArr [VStr "a"; VNull]; VNum 0]))))
           None [] []
         :: map (text_node (length (dom page)))
              (texts_of not_nullish (flat [VArr [VStr "a"; VNull]; VNum 0]))
    /\ signals st' = signals page /\ effects st' = effects page
    /\ currentEffect st' = currentEffect page
    /\ console st' = console page /\ refs st' = refs page.
Proof.
  apply (html_fragment_of_primitives 1 VFragment (VObj [("class", VStr "x")])
           [VArr [VStr "a"; VNull]; VNum 0] page).
  - left. reflexivity.
  - repeat constructor.
  - exact page_closed.
Defined.

(** * Mounting a failing component *)

Lemma alter_last {A} (f : A -> A) (d : list A) (x : A) :
  alter f (length d) (d ++ [x]) = d ++ [f x].
Proof. rewrite alter_app_r_alt by lia. rewrite Nat.sub_diag. reflexivity. Qed.

(** A node above the closed part of the tree is no ancestor of a node in
    it. *)
Lemma above_not_ancestor fuel d L c : forall r,
  (forall n nd q, (n < L)%nat -> d !! n = Some nd -> nparent nd = Some q -> (q < L)%nat) ->
  (r < L)%nat -> (L <= c)%nat ->
  Dom.inclusive_ancestor fuel d c r = false.
Proof.
  induction fuel as [|fuel IH]; intros r Hc Hr Hle; simpl.
  - rewrite orb_false_r. apply Nat.eqb_neq. lia.
  - apply orb_false_intro; [apply Nat.eqb_neq; lia|].
    destruct (d !! r) as [nd|] eqn:Hd; auto.
    destruct (nparent nd) as [q|] eqn:Hq; auto.
    apply IH; auto. eapply Hc; eauto.
Qed.

(** [r.appendChild(c)] for a node [c] that has no parent and is not a
    fragment. *)
Lemma append_detached r c st rn cn :
  dom st !! r = Some rn -> Dom.can_have_kids rn = true ->
  dom st !! c = Some cn -> nparent cn = None -> nkind cn <> KFragment ->
  Dom.inclusive_ancestor (length (dom st)) (dom st) c r = false ->
  Dom.appendChild r c st
  = (Ok tt,
     set_dom (fun d => alter (Dom.with_kids (fun k => k ++ [c])) r
                         (alter (Dom.with_parent (Some r)) c d)) st).
Proof.
  intros Hr Hk Hc Hpar Hkind Hanc.
  unfold Dom.appendChild, Dom.insertBefore, bind at 1.
  unfold Dom.check_insert, bind, Dom.get_node, gets.
  rewrite Hr, Hc. simpl. rewrite Hk, Hanc. simpl.
  unfold ret. rewrite (take_for_insert_detached c cn st Hc Hpar Hkind).
  simpl. unfold bind, Dom.update_node, modify, ret. simpl. reflexivity.
Qed.

Lemma createElement_ok svg tag st :
  Dom.valid_name tag = true ->
  Dom.createElement svg tag st
  = (Ok (length (dom st)),
     set_dom (fun d => d ++ [mkNode (KElement svg tag) "" [] None [] []]) st).
Proof. intros H. unfold Dom.createElement. rewrite H. reflexivity. Qed.

Lemma setAttribute_ok el name v st :
  Dom.valid_name name = true ->
  Element.setAttribute el name v st
  = (Ok tt, set_dom (alter (Dom.with_attrs (set_assoc name (to_string v))) el) st).
Proof. intros H. unfold Element.setAttribute. rewrite H. reflexivity. Qed.

(** Assigning a non-empty [textContent] to a childless element. *)
Lemma set_textContent_childless n nd s st :
  dom st !! n = Some nd ->
  (match nkind nd with KText | KComment => False | _ => True end) ->
  nkids nd = [] ->
  String.eqb s "" = false ->
  Dom.set_textContent n s st
  = (t <- Dom.createTextNode s ;; Dom.appendChild n t)
      (set_dom (alter (Dom.with_kids (fun _ => [])) n) st).
Proof.
  intros Hn Hk Hkids Hs. unfold Dom.set_textContent.
  rewrite (bind_ok _ _ st nd st) by (unfold Dom.get_node; rewrite Hn; reflexivity).
  destruct (nkind nd); try contradiction;
    rewrite Hkids, Hs; reflexivity.
Qed.

(** The [catch] block of lines 319-326 after the report: the error element
    is made, filled and appended to the root. *)
Lemma mount_error_element r rn msg st :
  dom st !! r = Some rn ->
  Dom.can_have_kids rn = true ->
  dom_closed (dom st) ->
  (errorNode <- Dom.createElement false "div" ;;
   Element.setAttribute errorNode "class" (VStr "olova-error") ;;;
   m <- message_of (VErr msg) ;;
   text <- template_text m ;;
   Dom.set_textContent errorNode ("Render Error: " +:+ text) ;;;
   root_append (VNode r) errorNode ;;;
   ret (inr errorNode : val + nat)) st
  = (Ok (inr (length (dom st))),
     set_dom (fun d =>
       alter (Dom.with_kids (fun k => k ++ [length d])) r d
       ++ [error_element r (S (length d));
           text_node (length d) ("Render Error: " +:+ msg)]) st).
Proof.
  intros Hr Hk Hc.
  assert (Hlt : (r < length (dom st))%nat) by (eapply lookup_lt_Some; eauto).
  pose (div := mkNode (KElement false "div") "" [] None [("class", "olova-error")] []).
  pose (sD := set_dom (fun d => d ++ [div]) st).
  assert (HsD : dom sD !! length (dom st) = Some div).
  { simpl. apply list_lookup_middle. reflexivity. }
  assert (HcD : dom_closed (dom sD)).
  { apply dom_closed_snoc; auto. intros q Hq. discriminate. }
  pose (text := "Render Error: " +:+ msg).
  pose (sE := with_text_appended (length (dom st)) text sD).
  assert (HdE : dom sE = dom st ++
            [Dom.with_kids (fun _ => [S (length (dom st))]) div;
             text_node (length (dom st)) text]).
  { unfold sE. rewrite with_text_appended_dom by (simpl; rewrite length_app; simpl; lia).
    simpl. rewrite length_app. simpl. rewrite alter_last, <- app_assoc. simpl.
    replace (length (dom st) + 1)%nat with (S (length (dom st))) by lia.
    reflexivity. }
  rewrite (bind_ok _ _ _ _ _ (createElement_ok false "div" st eq_refl)).
  rewrite (bind_ok _ _ _ _ _ (setAttribute_ok _ "class" (VStr "olova-error") _ eq_refl)).
  rewrite (bind_ok _ _ _ (VStr msg) _ eq_refl).
  rewrite (bind_ok (template_text (VStr msg)) _ _ msg _ eq_refl). fold text.
  assert (Hstep : set_dom (alter (Dom.with_kids (fun _ => [])) (length (dom st)))
            (set_dom (alter (Dom.with_attrs (set_assoc "class" (to_string (VStr "olova-error"))))
                        (length (dom st)))
               (set_dom (fun d => d ++ [mkNode (KElement false "div") "" [] None [] []]) st))
            = sD).
  { unfold sD. destruct st; unfold set_dom; simpl. f_equal.
    rewrite alter_last. simpl. rewrite alter_last. reflexivity. }
  erewrite bind_ok; cycle 1.
  { rewrite (set_textContent_childless (length (dom st))
               (mkNode (KElement false "div") "" [] None [("class", "olova-error")] [])
               text).
    - rewrite Hstep. apply (append_fresh_text _ text sD div HsD); auto.
    - simpl. rewrite alter_last. apply list_lookup_middle. reflexivity.
    - exact I.
    - reflexivity.
    - reflexivity. }
  fold sE.
  erewrite bind_ok; cycle 1.
  { unfold root_append.
    apply (append_detached r (length (dom st)) sE rn
             (Dom.with_kids (fun _ => [S (length (dom st))]) div)).
    - rewrite HdE, lookup_app_l by auto. exact Hr.
    - exact Hk.
    - rewrite HdE. apply list_lookup_middle. reflexivity.
    - reflexivity.
    - discriminate.
    - apply (above_not_ancestor _ _ (length (dom st))); auto.
      intros x nd q Hx Hnd Hq. rewrite HdE, lookup_app_l in Hnd by auto.
      eapply Hc; eauto. }
  unfold ret. f_equal.
  destruct st as [sg ef cu co cn d rf]. unfold set_dom. simpl in *. f_equal.
  rewrite HdE.
  rewrite (alter_app_r_alt _ d) by lia. rewrite Nat.sub_diag.
  rewrite alter_app_l by lia. reflexivity.
Qed.

(** X10.  When the component throws [Error(msg)], [render] reports it,
    appends to the root a new [div] of class [olova-error] whose only child
    is a text node holding ["Render Error: msg"], and returns that [div];
    the rest of the tree stays as the component left it. *)
Theorem render_failing_component
    (querySelector : list node -> string -> outcome (option nat))
    (fuel : nat) (component options : val) (msg : string) (r : nat) (rn : node)
    (st st0 st1 : state) :
  render_prepare fuel (VNode r) options st = (Ok tt, st0) ->
  view_of fuel component st0 = (Throw (VErr msg), st1) ->
  dom st1 !! r = Some rn ->
  Dom.can_have_kids rn = true ->
  dom_closed (dom st1) ->
  exists st',
    render querySelector fuel component (VNode r) options st
      = (Ok (VNode (length (dom st1))), st')
    /\ dom st' =
         alter (Dom.with_kids (fun k => k ++ [length (dom st1)])) r (dom st1)
         ++ [error_element r (S (length (dom st1)));
             text_node (length (dom st1)) ("Render Error: " +:+ msg)]
    /\ console st' = console st1 ++ [("Error rendering component:", VErr msg)]
    /\ signals st' = signals st1 /\ effects st' = effects st1.
Proof.
  intros Hprep Hview Hr Hk Hc.
  eexists. split.
  { unfold render, try_catch. rewrite (bind_ok _ _ st (Some (VNode r)) st eq_refl).
    rewrite (bind_ok _ _ _ _ _ Hprep).
    unfold render_view, bind at 1, try_catch, bind at 1.
    rewrite Hview.
    rewrite (bind_ok (console_error "Error rendering component:" (VErr msg)) _ st1 tt _
               eq_refl).
    rewrite (mount_error_element r rn msg
               (set_console (fun l => l ++ [("Error rendering component:", VErr msg)]) st1)
               Hr Hk Hc).
    reflexivity. }
  split; [reflexivity|]. split; [reflexivity|]. split; reflexivity.
Qed.

Lemma render_failing_component_witness :
  let st0 := snd (render_prepare 5 (VNode 0) VUndef page) in
  exists st',
    render page_query 5 (VFun (EThrow (EConst (VErr "boom")))) (VNode 0) VUndef page
      = (Ok (VNode (length (dom st0))), st')
    /\ dom st' =
         alter (Dom.with_kids (fun k => k ++ [length (dom st0)])) 0%nat (dom st0)
         ++ [error_element 0 (S (length (dom st0)));
             text_node (length (dom st0)) ("Render Error: " +:+ "boom")]
    /\ console st' = console st0 ++ [("Error rendering component:", VErr "boom")]
    /\ signals st' = signals st0 /\ effects st' = effects st0.
Proof.
  intros st0.
  apply (render_failing_component page_query 5 (VFun (EThrow (EConst (VErr "boom"))))
           VUndef "boom" 0 (mkNode (KElement false "div") "" [] None [("id", "app")] [])
           page st0 st0).
  - reflexivity.
  - reflexivity.
  - reflexivity.
  - reflexivity.
  - intros [|[|n]] nd p H Hp; simpl in H; inversion H; subst; simpl in Hp;
      try discriminate.
Defined.


(** A root that is no node: the failure stays inside [render]. *)
Example render_into_a_number :
  render page_query 3 (VStr "hi") (VNum 7) VUndef page
  = (Ok VNull,
     set_console (fun l => l ++ [("Error in render function:",
                                  VErr "TypeError: cannot create property 'textContent'")])
       page).
Proof. reflexivity. Qed.

(** * Mounting a collection *)

Lemma set_dom_set_dom f g st : set_dom f (set_dom g st) = set_dom (fun d => f (g d)) st.
Proof. destruct st; reflexivity. Qed.

(** Moving the text children of a fragment under a new parent: the loop of
    [insertBefore] over the nodes taken from the fragment. *)
Lemma reparent_texts p r texts : forall pre rest st,
  dom st = pre ++ map (text_node p) texts ++ rest ->
  for_each (fun k => Dom.update_node k (Dom.with_parent (Some r)))
    (seq (length pre) (length texts)) st
  = (Ok tt, set_dom (fun _ => pre ++ map (text_node r) texts ++ rest) st).
Proof.
  induction texts as [|s texts IH]; intros pre rest st Hd.
  - simpl. unfold ret. f_equal. destruct st; unfold set_dom; simpl in *.
    rewrite Hd. reflexivity.
  - simpl. unfold bind, Dom.update_node, modify.
    replace (S (length pre)) with (length (pre ++ [text_node r s]))
      by (rewrite length_app; simpl; lia).
    rewrite (IH (pre ++ [text_node r s]) rest).
    + f_equal. rewrite set_dom_set_dom. destruct st; unfold set_dom; simpl. f_equal.
      rewrite <- app_assoc. reflexivity.
    + simpl. rewrite Hd. simpl. rewrite (alter_app_r_alt _ pre) by lia.
      rewrite Nat.sub_diag. simpl. rewrite <- app_assoc. reflexivity.
Qed.

(** [r.appendChild(fragment)] for a fresh fragment of text nodes: the text
    nodes move under [r] and the fragment is left empty. *)
Lemma append_fragment_of_texts r rn texts st d :
  dom st = d ++ mkNode KFragment "" (seq (S (length d)) (length texts)) None [] []
             :: map (text_node (length d)) texts ->
  d !! r = Some rn ->
  Dom.can_have_kids rn = true ->
  dom_closed d ->
  Dom.appendChild r (length d) st
  = (Ok tt,
     set_dom (fun _ =>
       alter (Dom.with_kids (fun k => k ++ seq (S (length d)) (length texts))) r d
       ++ mkNode KFragment "" [] None [] [] :: map (text_node r) texts) st).
Proof.
  intros Hd Hr Hk Hc.
  assert (Hlt : (r < length d)%nat) by (eapply lookup_lt_Some; eauto).
  set (fragment := mkNode KFragment "" (seq (S (length d)) (length texts)) None [] []) in *.
  assert (Hr' : dom st !! r = Some rn) by (rewrite Hd, lookup_app_l by auto; exact Hr).
  assert (Hf : dom st !! length d = Some fragment).
  { rewrite Hd. apply list_lookup_middle. reflexivity. }
  assert (Hanc : Dom.inclusive_ancestor (length (dom st)) (dom st) (length d) r = false).
  { apply (above_not_ancestor _ _ (length d)); auto.
    intros x nd q Hx Hnd Hq. rewrite Hd, lookup_app_l in Hnd by auto.
    eapply Hc; eauto. }
  unfold Dom.appendChild, Dom.insertBefore.
  erewrite bind_ok; cycle 1.
  { unfold Dom.check_insert.
    rewrite (bind_ok _ _ st rn st) by (unfold Dom.get_node; rewrite Hr'; reflexivity).
    rewrite (bind_ok _ _ st fragment st) by (unfold Dom.get_node; rewrite Hf; reflexivity).
    rewrite (bind_ok _ _ st (dom st) st) by reflexivity.
    rewrite Hk, Hanc. reflexivity. }
  rewrite (bind_ok _ _ _ tt _ eq_refl).
  erewrite bind_ok; cycle 1.
  { unfold Dom.take_for_insert.
    rewrite (bind_ok _ _ st fragment st) by (unfold Dom.get_node; rewrite Hf; reflexivity).
    reflexivity. }
  erewrite bind_ok; cycle 1.
  { pose proof (reparent_texts (length d) r texts
                  (d ++ [mkNode KFragment "" [] None [] []]) []
                  (set_dom (alter (Dom.with_kids (fun _ => [])) (length d)) st)) as H.
    rewrite length_app in H. simpl in H.
    replace (length d + 1)%nat with (S (length d)) in H by lia.
    apply H. rewrite Hd, (alter_app_r_alt _ d) by lia.
    rewrite Nat.sub_diag, <- app_assoc, app_nil_r. reflexivity. }
  unfold Dom.update_node, modify. f_equal.
  rewrite !set_dom_set_dom. destruct st; unfold set_dom; simpl. f_equal.
  rewrite app_nil_r, <- app_assoc. rewrite alter_app_l by lia. reflexivity.
Qed.

(** The loop of lines 332-338 on a primitive. *)
Lemma render_item_primitive frag c st pn :
  is_primitive c = true ->
  dom st !! frag = Some pn -> Dom.can_have_kids pn = true -> dom_closed (dom st) ->
  (if truthy c then n <- node_of c ;; Dom.appendChild frag n else ret tt) st
  = (Ok tt, if truthy c then with_text_appended frag (to_string c) st else st).
Proof.
  intros Hprim Hp Hk Hc.
  destruct (truthy c) eqn:Ht; [|reflexivity].
  destruct c; try discriminate; simpl;
    rewrite (append_fresh_text frag _ st pn Hp Hk Hc); reflexivity.
Qed.

(** X12.  When the component yields a collection whose items, flattened to
    any depth, are primitives, [render] appends to the root one text node
    per truthy item, in order, each holding [String(item)]; null,
    undefined, [false], [0] and the empty string are left out.  It returns
    the document fragment it used to carry them, which is empty once they
    are mounted. *)
Theorem render_collection_of_primitives
    (querySelector : list node -> string -> outcome (option nat))
    (fuel : nat) (component options : val) (items : list val) (r : nat) (rn : node)
    (st st0 st1 : state) :
  render_prepare fuel (VNode r) options st = (Ok tt, st0) ->
  view_of fuel component st0 = (Ok (VArr items), st1) ->
  Forall (fun c => is_primitive c = true) (flat items) ->
  dom st1 !! r = Some rn ->
  Dom.can_have_kids rn = true ->
  dom_closed (dom st1) ->
  exists st',
    render querySelector fuel component (VNode r) options st
      = (Ok (VNode (length (dom st1))), st')
    /\ dom st' =
         alter (Dom.with_kids (fun k =>
                  k ++ seq (S (length (dom st1))) (length (texts_of truthy (flat items)))))
           r (dom st1)
         ++ mkNode KFragment "" [] None [] []
            :: map (text_node r) (texts_of truthy (flat items))
    /\ console st' = console st1
    /\ signals st' = signals st1 /\ effects st' = effects st1.
Proof.
  intros Hprep Hview Hall Hr Hk Hc.
  set (texts := texts_of truthy (flat items)).
  set (sF := set_dom (fun d => d ++ [mkNode KFragment "" [] None [] []]) st1).
  assert (Hloop :
    for_each (fun item => if truthy item
                          then n <- node_of item ;; Dom.appendChild (length (dom st1)) n
                          else ret tt) (flat items) sF
    = (Ok tt, with_texts_appended (length (dom st1)) texts sF)).
  { apply (append_texts_loop _ truthy (length (dom st1))
             (fun c st' pn => render_item_primitive (length (dom st1)) c st' pn)
             (flat items) sF (mkNode KFragment "" [] None [] [])); auto.
    - simpl. apply list_lookup_middle. reflexivity.
    - apply dom_closed_snoc; auto. intros q Hq. discriminate. }
  pose proof (fresh_parent_with_texts (mkNode KFragment "" [] None [] []) texts st1 eq_refl)
    as Hdom.
  fold sF in Hdom. simpl in Hdom.
  pose proof (append_fragment_of_texts r rn texts
                (with_texts_appended (length (dom st1)) texts sF) (dom st1)
                Hdom Hr Hk Hc) as Happ.
  destruct (with_texts_appended_rest (length (dom st1)) texts sF)
    as (H1 & H2 & _ & H4 & _).
  eexists. split.
  { unfold render, try_catch. rewrite (bind_ok _ _ st (Some (VNode r)) st eq_refl).
    rewrite (bind_ok _ _ _ _ _ Hprep).
    unfold render_view, bind at 1, try_catch, bind at 1.
    rewrite Hview. unfold ret at 1. cbn [negb truthy].
    rewrite (bind_ok Dom.createDocumentFragment _ st1 (length (dom st1)) sF eq_refl).
    rewrite (bind_ok _ _ _ _ _ Hloop).
    unfold root_append. rewrite (bind_ok _ _ _ _ _ Happ). reflexivity. }
  split; [reflexivity|].
  split; [simpl; rewrite H4; reflexivity|].
  split; [simpl; rewrite H1; reflexivity|simpl; rewrite H2; reflexivity].
Qed.

Lemma render_collection_of_primitives_witness :
  let st0 := snd (render_prepare 5 (VNode 0) VUndef page) in
  let items := [VStr "a"; VArr [VNum 0; VNum 2]; VBool false; VNull] in
  exists st',
    render page_query 5 (VArr items) (VNode 0) VUndef page
      = (Ok (VNode (length (dom st0))), st')
    /\ dom st' =
         alter (Dom.with_kids (fun k =>
                  k ++ seq (S (length (dom st0))) (length (texts_of truthy (flat items)))))
           0%nat (dom st0)
         ++ mkNode KFragment "" [] None [] []
            :: map (text_node 0) (texts_of truthy (flat items))
    /\ console st' = console st0
    /\ signals st' = signals st0 /\ effects st' = effects st0.
Proof.
  intros st0 items.
  apply (render_collection_of_primitives page_query 5 (VArr items) VUndef items 0
           (mkNode (KElement false "div") "" [] None [("id", "app")] [])
           page st0 st0).
  - reflexivity.
  - reflexivity.
  - repeat constructor.
  - reflexivity.
  - reflexivity.
  - intros [|[|n]] nd p H Hp; simpl in H; inversion H; subst; simpl in Hp;
      try discriminate.
Defined.

(** The texts of such a collection: ["a"] and ["2"]. *)
Example collection_texts :
  texts_of truthy (flat [VStr "a"; VArr [VNum 0; VNum 2]; VBool false; VNull])
  = ["a"; "2"].
Proof. reflexivity. Qed.

(** * Clearing the root *)

Lemma for_each_update f l : forall st,
  for_each (fun k => Dom.update_node k f) l st
  = (Ok tt, set_dom (fun d => foldl (fun d k => alter f k d) d l) st).
Proof.
  induction l as [|k l IH]; intros st; simpl.
  - unfold ret. f_equal. destruct st; reflexivity.
  - unfold bind, Dom.update_node, modify. rewrite IH, set_dom_set_dom. reflexivity.
Qed.

Lemma foldl_alter_lookup {A} (f : A -> A) l :
  (forall a, f (f a) = f a) ->
  forall (d : list A) (x : nat),
    foldl (fun d k => alter f k d) d l !! x
    = if decide (x ∈ l) then f <$> d !! x else d !! x.
Proof.
  intros Hf. induction l as [|k l IH]; intros d x; simpl.
  - reflexivity.
  - rewrite IH. rewrite list_lookup_alter.
    destruct (decide (x ∈ l)) as [Hin|Hnin].
    + destruct (decide (x ∈ k :: l)) as [_|Hno];
        [|exfalso; apply Hno; apply elem_of_cons; right; exact Hin].
      destruct (decide (k = x)) as [->|Hne]; [|reflexivity].
      destruct (d !! x); simpl; [rewrite Hf|]; reflexivity.
    + destruct (decide (k = x)) as [->|Hne].
      * destruct (decide (x ∈ x :: l)) as [_|Hno];
          [reflexivity|exfalso; apply Hno; apply elem_of_cons; left; reflexivity].
      * destruct (decide (x ∈ k :: l)) as [Hin|_]; [|reflexivity].
        apply elem_of_cons in Hin as [?|?]; [congruence|contradiction].
Qed.

Lemma foldl_alter_length {A} (f : A -> A) l : forall d : list A,
  length (foldl (fun d k => alter f k d) d l) = length d.
Proof.
  induction l as [|k l IH]; intros d; simpl; [reflexivity|].
  rewrite IH. apply length_alter.
Qed.

Lemma emptied_length r kids d : length (emptied r kids d) = length d.
Proof. unfold emptied. rewrite length_alter. apply foldl_alter_length. Qed.

Lemma emptied_lookup r kids d x :
  emptied r kids d !! x
  = (if decide (r = x) then Dom.with_kids (fun _ => []) else (fun nd => nd))
    <$> ((if decide (x ∈ kids) then Dom.with_parent None else (fun nd => nd)) <$> d !! x).
Proof.
  unfold emptied. rewrite list_lookup_alter.
  destruct (decide (r = x)) as [->|Hne]; rewrite foldl_alter_lookup by reflexivity;
    destruct (decide (x ∈ kids)); destruct (d !! x); reflexivity.
Qed.

Lemma emptied_closed r kids d : dom_closed d -> dom_closed (emptied r kids d).
Proof.
  intros Hc n nd q Hn Hq. rewrite emptied_length. rewrite emptied_lookup in Hn.
  destruct (d !! n) as [nd0|] eqn:Hd; [|discriminate]. simpl in Hn.
  injection Hn as <-.
  assert (nparent nd0 = Some q) as Hq0.
  { destruct (decide (r = n)), (decide (n ∈ kids)); simpl in Hq; congruence. }
  eapply Hc; eauto.
Qed.

(** [root.textContent = ""] on an element or fragment. *)
Lemma set_textContent_empty r rn st :
  dom st !! r = Some rn ->
  Dom.can_have_kids rn = true ->
  Dom.set_textContent r "" st = (Ok tt, set_dom (emptied r (nkids rn)) st).
Proof.
  intros Hr Hk. unfold Dom.set_textContent.
  rewrite (bind_ok _ _ st rn st) by (unfold Dom.get_node; rewrite Hr; reflexivity).
  unfold Dom.can_have_kids in Hk.
  destruct (nkind rn); try discriminate;
    rewrite (bind_ok _ _ _ _ _ (for_each_update _ _ _));
    unfold Dom.update_node, modify, bind; simpl; rewrite set_dom_set_dom; reflexivity.
Qed.

Lemma append_fresh_text_steps r s st rn :
  dom st !! r = Some rn -> Dom.can_have_kids rn = true -> dom_closed (dom st) ->
  Dom.appendChild r (length (dom st))
    (set_dom (fun d => d ++ [mkNode KText s [] None [] []]) st)
  = (Ok tt, with_text_appended r s st).
Proof. intros Hr Hk Hc. exact (append_fresh_text r s st rn Hr Hk Hc). Qed.

(** Lines 316-349 on a component that is a truthy primitive. *)
Lemma render_view_primitive fuel v r rn st :
  dom st !! r = Some rn -> Dom.can_have_kids rn = true -> dom_closed (dom st) ->
  is_primitive v = true -> truthy v = true ->
  render_view fuel v (VNode r) st = (Ok v, with_text_appended r (to_string v) st).
Proof.
  intros Hr Hk Hc Hprim Ht.
  pose proof (append_fresh_text r (to_string v) st rn Hr Hk Hc) as Happ.
  assert (Hfun : is_function v = false) by (destruct v; try discriminate; reflexivity).
  unfold render_view.
  match goal with |- bind ?m _ _ = _ =>
    assert (Hview : m st = (Ok (inl v), st))
      by (unfold try_catch, view_of; rewrite Hfun; reflexivity)
  end.
  rewrite (bind_ok _ _ _ _ _ Hview).
  rewrite Ht. cbn [negb].
  pose proof (append_fresh_text_steps r (to_string v) st rn Hr Hk Hc) as Hstep.
  destruct v; try discriminate; cbn [node_of];
    (rewrite (bind_ok (Dom.createTextNode _) _ st _ _ eq_refl);
     unfold root_append; rewrite (bind_ok _ _ _ _ _ Hstep); reflexivity).
Qed.

(** Lines 302-314 without a [beforeRender] hook. *)
Lemma render_prepare_plain fuel r rn fields st :
  dom st !! r = Some rn -> Dom.can_have_kids rn = true ->
  is_function (field "beforeRender" (VObj fields)) = false ->
  render_prepare fuel (VNode r) (VObj fields) st
  = (Ok tt, if keeps_content (VObj fields) then st
            else set_dom (emptied r (nkids rn)) st).
Proof.
  intros Hr Hk Hhook. unfold render_prepare.
  rewrite (bind_ok _ _ st (VObj fields) st eq_refl).
  assert (Hh : truthy (option_or "beforeRender" VNull (VObj fields))
               && is_function (option_or "beforeRender" VNull (VObj fields)) = false).
  { unfold option_or. revert Hhook. destruct (field "beforeRender" (VObj fields));
      intros Hhook; simpl in *; try reflexivity; try apply andb_false_r;
      discriminate. }
  rewrite Hh. unfold keeps_content.
  destruct (truthy (option_or "clear" (VBool true) (VObj fields))
            && negb (truthy (option_or "hydrate" (VBool false) (VObj fields)))).
  - unfold root_clear. rewrite (bind_ok _ _ _ _ _ (set_textContent_empty r rn st Hr Hk)).
    reflexivity.
  - reflexivity.
Qed.

(** X13.  [render] of a truthy primitive replaces what the root held:
    unless the options say [hydrate] (truthy) or [clear] falsy, the root's
    former children are taken out of it and the new text node is its only
    child; with [hydrate], or with [clear] falsy, the former children stay
    and the text node comes after them.  No options means [clear]. *)
Theorem render_clears_root_unless_hydrating
    (querySelector : list node -> string -> outcome (option nat))
    (fuel : nat) (v : val) (fields : list (string * val)) (r : nat) (rn : node)
    (st : state) :
  dom st !! r = Some rn ->
  Dom.can_have_kids rn = true ->
  dom_closed (dom st) ->
  is_primitive v = true ->
  truthy v = true ->
  is_function (field "beforeRender" (VObj fields)) = false ->
  exists st',
    render querySelector fuel v (VNode r) (VObj fields) st = (Ok v, st')
    /\ kids_of r st'
       = (if keeps_content (VObj fields) then nkids rn else []) ++ [length (dom st)]
    /\ dom st' !! length (dom st) = Some (text_node r (to_string v))
    /\ (forall k nd, k ∈ nkids rn -> k <> r -> dom st !! k = Some nd ->
          dom st' !! k
          = Some (if keeps_content (VObj fields) then nd else Dom.with_parent None nd))
    /\ render querySelector fuel v (VNode r) VUndef st
       = render querySelector fuel v (VNode r) (VObj []) st.
Proof.
  intros Hr Hk Hc Hprim Ht Hhook.
  assert (Hlt : (r < length (dom st))%nat) by (eapply lookup_lt_Some; eauto).
  pose proof (render_prepare_plain fuel r rn fields st Hr Hk Hhook) as Hprep.
  set (st0 := if keeps_content (VObj fields) then st
              else set_dom (emptied r (nkids rn)) st) in *.
  assert (Hlen0 : length (dom st0) = length (dom st)).
  { unfold st0. destruct (keeps_content _); [reflexivity|]. simpl. apply emptied_length. }
  assert (Hroot : exists rn0,
            dom st0 !! r = Some rn0 /\ Dom.can_have_kids rn0 = true
            /\ nkids rn0 = if keeps_content (VObj fields) then nkids rn else []).
  { unfold st0. destruct (keeps_content _); [exists rn; auto|]. simpl.
    rewrite emptied_lookup, Hr. rewrite decide_True by reflexivity.
    simpl. eexists. split; [reflexivity|].
    destruct (decide (r ∈ nkids rn)); split; auto. }
  destruct Hroot as (rn0 & Hr0 & Hk0 & Hkids0).
  assert (Hc0 : dom_closed (dom st0)).
  { unfold st0. destruct (keeps_content _); [exact Hc|]. simpl.
    apply emptied_closed. exact Hc. }
  exists (with_text_appended r (to_string v) st0). split.
  { unfold render, try_catch. rewrite (bind_ok _ _ st (Some (VNode r)) st eq_refl).
    rewrite (bind_ok _ _ _ _ _ Hprep).
    rewrite (render_view_primitive fuel v r rn0 st0 Hr0 Hk0 Hc0 Hprim Ht). reflexivity. }
  split.
  { rewrite (with_text_appended_kids r _ st0 rn0 Hr0), Hlen0, Hkids0. reflexivity. }
  split.
  { rewrite <- Hlen0. apply (with_text_appended_node r _ st0 rn0 Hr0). }
  split; [|reflexivity].
  intros k nd Hin Hkr Hnd.
  assert (Hklt : (k < length (dom st))%nat) by (eapply lookup_lt_Some; eauto).
  rewrite with_text_appended_dom by (rewrite Hlen0; exact Hlt).
  rewrite lookup_app_l by (rewrite length_alter, Hlen0; exact Hklt).
  rewrite list_lookup_alter_ne by auto.
  unfold st0. destruct (keeps_content _); [exact Hnd|]. simpl.
  rewrite emptied_lookup, Hnd. rewrite decide_False by auto.
  destruct (decide (k ∈ nkids rn)); [reflexivity|contradiction].
Qed.

Lemma render_clears_root_unless_hydrating_witness :
  exists st',
    render page_query 3 (VStr "new") (VNode 0) (VObj []) page = (Ok (VStr "new"), st')
    /\ kids_of 0 st'
       = (if keeps_content (VObj []) then [1%nat] else []) ++ [length (dom page)]
    /\ dom st' !! length (dom page) = Some (text_node 0 (to_string (VStr "new")))
    /\ (forall k nd, k ∈ [1%nat] -> k <> 0%nat -> dom page !! k = Some nd ->
          dom st' !! k
          = Some (if keeps_content (VObj []) then nd else Dom.with_parent None nd))
    /\ render page_query 3 (VStr "new") (VNode 0) VUndef page
       = render page_query 3 (VStr "new") (VNode 0) (VObj []) page.
Proof.
  apply (render_clears_root_unless_hydrating page_query 3 (VStr "new") [] 0
           (mkNode (KElement false "div") "" [1%nat] None [("id", "app")] []) page).
  - reflexivity.
  - reflexivity.
  - exact page_closed.
  - reflexivity.
  - reflexivity.
  - reflexivity.
Defined.

(** The same mount with and without [hydrate]: the old text node 1 stays
    under the root only when hydrating. *)
Example render_hydrate_keeps_children :
  kids_of 0 (snd (render page_query 3 (VStr "new") (VNode 0) VUndef page)) = [2%nat]
  /\ kids_of 0 (snd (render page_query 3 (VStr "new") (VNode 0)
                       (VObj [("hydrate", VBool true)]) page)) = [1; 2]%nat
  /\ kids_of 0 (snd (render page_query 3 (VStr "new") (VNode 0)
                       (VObj [("clear", VNum 0)]) page)) = [1; 2]%nat.
Proof. vm_compute. repeat split; reflexivity. Qed.

(** * Properties of a new element *)

(** [html(tag, {name: v})]: the element is created, the property applied,
    and the element returned. *)
Lemma html_single_property fuel tag name v st st' :
  Dom.valid_name tag = true ->
  apply_property (eval fuel) (str_mem tag SVG_TAGS) (length (dom st)) name v
    (set_dom (fun d => d ++ [mkNode (KElement (str_mem tag SVG_TAGS) tag) "" [] None [] []])
       st) = (Ok tt, st') ->
  html_at fuel (VStr tag) (VObj [(name, v)]) [] st = (Ok (VNode (length (dom st))), st').
Proof.
  intros Hvalid Happly.
  unfold html_at, html, try_catch, html_body.
  pose proof (valid_name_truthy tag Hvalid) as Ht.
  cbn [is_function]. rewrite Ht. cbn [negb orb to_string truthy entries].
  rewrite (bind_ok _ _ _ _ _ (createElement_ok _ tag st Hvalid)).
  cbn [for_each fst snd].
  rewrite (bind_ok _ _ _ tt st').
  - reflexivity.
  - rewrite (bind_ok _ _ _ _ _ Happly). reflexivity.
Qed.

Lemma plain_name_tests name :
  plain_attribute_name name = true ->
  String.eqb name "value" = false
  /\ String.eqb name "className" = false
  /\ String.eqb name "class" = false
  /\ String.eqb name "style" = false
  /\ String.eqb name "dangerouslySetInnerHTML" = false
  /\ String.eqb name "ref" = false
  /\ String.prefix "on" name = false.
Proof.
  unfold plain_attribute_name, str_mem. simpl. intros H.
  apply andb_prop in H as [H1 H2].
  apply negb_true_iff in H1. apply negb_true_iff in H2.
  repeat (apply orb_false_elim in H1 as [? H1]). auto 10.
Qed.

(** X14.  A property whose name is none of [value], [className], [class],
    [style], [dangerouslySetInnerHTML], [ref] and does not start with [on],
    given to an element outside SVG, becomes an attribute: [true] gives the
    attribute with an empty value, [false], null and undefined give no
    attribute, and a number or a string gives [String(value)]. *)
Theorem html_plain_attribute
    (fuel : nat) (tag name : string) (v : val) (st : state) :
  Dom.valid_name tag = true ->
  str_mem tag SVG_TAGS = false ->
  Dom.valid_name name = true ->
  plain_attribute_name name = true ->
  is_primitive v = true ->
  v <> VFragment ->
  html_at fuel (VStr tag) (VObj [(name, v)]) [] st
  = (Ok (VNode (length (dom st))),
     set_dom (fun d =>
       d ++ [mkNode (KElement false tag) "" [] None
               (match attribute_text v with Some s => [(name, s)] | None => [] end) []])
       st).
Proof.
  intros Htag Hsvg Hname Hplain Hprim Hsym.
  destruct (plain_name_tests name Hplain) as (N1 & N2 & N3 & N4 & N5 & N6 & N7).
  apply html_single_property; [exact Htag|]. rewrite Hsvg.
  unfold apply_property. rewrite N1, N2, N3, N4, N5, N6, N7. cbn [orb andb].
  assert (Hset : forall w,
    Element.setAttribute (length (dom st)) name w
      (set_dom (fun d => d ++ [mkNode (KElement false tag) "" [] None [] []]) st)
    = (Ok tt, set_dom (fun d => d ++ [mkNode (KElement false tag) "" [] None
                                       [(name, to_string w)] []]) st)).
  { intros w. rewrite (setAttribute_ok _ name w _ Hname). f_equal.
    rewrite set_dom_set_dom. destruct st; unfold set_dom; simpl. f_equal.
    rewrite alter_last. reflexivity. }
  assert (Hdel :
    Element.removeAttribute (length (dom st)) name
      (set_dom (fun d => d ++ [mkNode (KElement false tag) "" [] None [] []]) st)
    = (Ok tt, set_dom (fun d => d ++ [mkNode (KElement false tag) "" [] None [] []]) st)).
  { unfold Element.removeAttribute, Dom.update_node, modify. f_equal.
    rewrite set_dom_set_dom. destruct st; unfold set_dom; simpl. f_equal.
    rewrite alter_last. reflexivity. }
  destruct v as [| |[|]| | | | | | | | | | |]; try discriminate; try congruence;
    cbn [is_nullish attribute_text]; try reflexivity; try exact Hdel; apply Hset.
Qed.

Lemma html_plain_attribute_witness :
  html_at 1 (VStr "button") (VObj [("disabled", VBool true)]) [] empty_state
  = (Ok (VNode (length (dom empty_state))),
     set_dom (fun d =>
       d ++ [mkNode (KElement false "button") "" [] None
               (match attribute_text (VBool true) with
                | Some s => [("disabled", s)]
                | None => []
                end) []])
       empty_state).
Proof.
  apply (html_plain_attribute 1 "button" "disabled" (VBool true) empty_state);
    try reflexivity.
  discriminate.
Defined.

Lemma on_prefix_shape name :
  String.prefix "on" name = true ->
  exists rest, name = String "o" (String "n" rest).
Proof.
  destruct name as [|a [|b rest]]; cbn [String.prefix]; try discriminate.
  - destruct (Ascii.ascii_dec "o" a); discriminate.
  - destruct (Ascii.ascii_dec "o" a) as [<-|]; [|discriminate].
    destruct (Ascii.ascii_dec "n" b) as [<-|]; [|discriminate].
    intros _. exists rest. reflexivity.
Qed.

(** X15.  A function given under any property name that starts with [on]
    is registered as a listener for the rest of the name in lower case,
    on HTML and SVG elements alike, and sets no attribute: [onClick]
    listens for [click], and a name such as [once] is taken for a listener
    of [ce]. *)
Theorem html_event_listener
    (fuel : nat) (tag name : string) (handler : val) (st : state) :
  Dom.valid_name tag = true ->
  String.prefix "on" name = true ->
  is_function handler = true ->
  html_at fuel (VStr tag) (VObj [(name, handler)]) [] st
  = (Ok (VNode (length (dom st))),
     set_dom (fun d =>
       d ++ [mkNode (KElement (str_mem tag SVG_TAGS) tag) "" [] None []
               [("on:" +:+ to_lower (slice2 name), handler)]])
       st).
Proof.
  intros Htag Hon Hfun.
  apply html_single_property; [exact Htag|].
  destruct (on_prefix_shape name Hon) as (rest & ->).
  unfold apply_property.
  replace (is_nullish handler) with false by (destruct handler; try discriminate; reflexivity).
  cbn [String.eqb Ascii.eqb Bool.eqb orb andb]. rewrite Hon.
  unfold Element.set_prop, Dom.update_node, modify. f_equal.
  rewrite set_dom_set_dom. destruct st; unfold set_dom; simpl. f_equal.
  rewrite alter_last. reflexivity.
Qed.

Lemma html_event_listener_witness :
  html_at 1 (VStr "button") (VObj [("onClick", increment)]) [] empty_state
  = (Ok (VNode (length (dom empty_state))),
     set_dom (fun d =>
       d ++ [mkNode (KElement (str_mem "button" SVG_TAGS) "button") "" [] None []
               [("on:" +:+ to_lower (slice2 "onClick"), increment)]])
       empty_state).
Proof.
  apply (html_event_listener 1 "button" "onClick" increment empty_state); reflexivity.
Defined.

(** The event names of [onClick] and of [once]. *)
Example listener_names :
  to_lower (slice2 "onClick") = "click" /\ to_lower (slice2 "once") = "ce".
Proof. split; reflexivity. Qed.

(** * References given to an element *)

(** X16.  An element built with [ref] set to the accessor of [setRef()] is
    handed to that accessor: called without an argument afterwards, the
    accessor returns the element [html] returned. *)
Theorem html_ref_receives_element (fuel : nat) (tag : string) (st : state) :
  Dom.valid_name tag = true ->
  exists st',
    (inputRef <- setRef ;;
     element <- html_at fuel (VStr tag) (VObj [("ref", inputRef)]) [] ;;
     current <- call_fn (eval fuel) inputRef [] ;;
     ret (element, current)) st
    = (Ok (VNode (length (dom st)), VNode (length (dom st))), st')
    /\ refs st' = refs st ++ [VNode (length (dom st))].
Proof.
  intros Htag.
  set (r := length (refs st)).
  set (st1 := set_refs (fun l => l ++ [VNull]) st).
  set (st2 := set_dom (fun d => d ++ [mkNode (KElement (str_mem tag SVG_TAGS) tag) ""
                                        [] None [] []]) st1).
  set (st3 := set_refs (<[r := VNode (length (dom st))]>) st2).
  assert (Hrefs : refs st3 = refs st ++ [VNode (length (dom st))]).
  { unfold st3, st2, st1, r. simpl.
    rewrite (insert_app_r_alt (refs st)) by lia. rewrite Nat.sub_diag. reflexivity. }
  exists st3. split; [|exact Hrefs].
  rewrite (bind_ok setRef _ st (VRefFn r) st1 eq_refl).
  rewrite (bind_ok _ _ st1 (VNode (length (dom st))) st3).
  - rewrite (bind_ok _ _ st3 (VNode (length (dom st))) st3); [reflexivity|].
    unfold call_fn, ref_accessor, bind, ret, gets. cbn [head default].
    rewrite Hrefs. unfold r. rewrite list_lookup_middle by reflexivity. reflexivity.
  - apply (html_single_property fuel tag "ref" (VRefFn r) st1 st3 Htag).
    unfold apply_property. cbn [is_nullish String.eqb Ascii.eqb Bool.eqb orb andb is_function].
    unfold call_fn, ref_accessor. cbn [head default].
    reflexivity.
Qed.

Lemma html_ref_receives_element_witness :
  exists st',
    (inputRef <- setRef ;;
     element <- html_at 1 (VStr "input") (VObj [("ref", inputRef)]) [] ;;
     current <- call_fn (eval 1) inputRef [] ;;
     ret (element, current)) page
    = (Ok (VNode (length (dom page)), VNode (length (dom page))), st')
    /\ refs st' = refs page ++ [VNode (length (dom page))].
Proof.
  apply (html_ref_receives_element 1 "input" page). reflexivity.
Defined.

(** One run of a text binding's effect body on a text placeholder: the
    placeholder shows the outcome of the callable, and nothing else in the
    tree changes. *)
Lemma child_effect_displayed k p ph body phn st :
  dom st !! ph = Some phn -> nkind phn = KText ->
  quiet body = true ->
  displayable (denote (values st) (length (counters st)) body []) ->
  (depth body < k)%nat ->
  exists st1 st2,
    eval k body [] st = (denote (values st) (length (counters st)) body [], st1)
    /\ quiet_step st st1
    /\ child_effect (eval k) p ph (VFun body) st = (Ok VUndef, st2)
    /\ dom st2 = alter (Dom.with_data
                          (displayed (denote (values st) (length (counters st)) body [])))
                   ph (dom st)
    /\ signals st2 = signals st1 /\ effects st2 = effects st1
    /\ currentEffect st2 = currentEffect st1
    /\ counters st2 = counters st1.
Proof.
  intros Hph Hk Hq Hdisp Hd.
  destruct (quiet_eval body Hq k [] st Hd) as (st1 & HE & HQ).
  pose proof (child_effect_text k p ph body phn st st1 Hph Hk Hq) as HC.
  pose proof (quiet_eval_dom body Hq k [] st) as Hdom.
  rewrite HE in HC, Hdom. simpl in HC, Hdom. specialize (HC eq_refl).
  destruct (denote (values st) (length (counters st)) body []) as [v|x|].
  - destruct Hdisp as [Hn Ha]. specialize (HC Hn Ha).
    exists st1. eexists. split; [exact HE|]. split; [exact HQ|]. split; [exact HC|].
    simpl. rewrite Hdom. repeat split; reflexivity.
  - destruct Hdisp as [msg ->].
    exists st1. eexists. split; [exact HE|]. split; [exact HQ|]. split; [exact HC|].
    simpl. rewrite Hdom. repeat split; reflexivity.
  - contradiction.
Qed.

(** * Building a reactive text child *)

(** [setEffect] of a reactive child's body, in terms of the body's run. *)
Lemma setEffect_child k p ph fn st st1 :
  child_effect (eval k) p ph fn
    (set_current (Some (length (effects st)))
       (set_effects (alter bump (length (effects st)))
          (set_effects (fun l => l ++ [mkEffect (ChildEffect p ph fn) 0]) st)))
    = (Ok VUndef, st1) ->
  setEffect (runEffect (S k)) (ChildEffect p ph fn) st
  = (Ok VUndef, set_current None st1).
Proof.
  intros HC. unfold setEffect.
  rewrite (bind_ok _ _ st (length (effects st))
             (set_effects (fun l => l ++ [mkEffect (ChildEffect p ph fn) 0]) st) eq_refl).
  assert (Hrun : runEffect (S k) (length (effects st))
                   (set_effects (fun l => l ++ [mkEffect (ChildEffect p ph fn) 0]) st)
                 = (Ok VUndef, set_current None st1)).
  { apply (run_child_effect k _ 0 p ph fn); [|exact HC].
    simpl. apply list_lookup_middle. reflexivity. }
  rewrite (bind_ok _ _ _ tt (set_current None st1)); [reflexivity|].
  unfold try_report, try_catch. rewrite (bind_ok _ _ _ _ _ Hrun). reflexivity.
Qed.

(** [html(tag, null, fn)] with a quiet callable child whose outcome can be
    shown: the element, its placeholder and the child's effect. *)
Lemma build_text_binding k tag props body st :
  Dom.valid_name tag = true ->
  truthy props = false ->
  quiet body = true ->
  displayable (denote (values st) (length (counters st)) body []) ->
  (depth body < k)%nat ->
  dom_closed (dom st) ->
  exists st',
    html_at (S k) (VStr tag) props [VFun body] st = (Ok (VNode (length (dom st))), st')
    /\ dom st' = dom st ++
         [mkNode (KElement (str_mem tag SVG_TAGS) tag) "" [S (length (dom st))] None [] [];
          text_node (length (dom st))
            (displayed (denote (values st) (length (counters st)) body []))]
    /\ effects st' = effects st ++
         [mkEffect (ChildEffect (length (dom st)) (S (length (dom st))) (VFun body)) 1]
    /\ values st' = values st
    /\ length (counters st') = length (counters st)
    /\ currentEffect st' = None
    /\ (forall t, subs_of t st' = subs_of t st
                  \/ subs_of t st' = set_add (length (effects st)) (subs_of t st))
    /\ forall t,
         t ∈ reads (values st) (length (counters st)) body [] ->
         (t < length (signals st))%nat ->
         length (effects st) ∈ subs_of t st'.
Proof.
  intros Htag Hprops Hq Hdisp Hd Hc.
  set (el := length (dom st)).
  set (elnode := mkNode (KElement (str_mem tag SVG_TAGS) tag) "" [] None [] []).
  set (sA := set_dom (fun d => d ++ [elnode]) st).
  assert (HelA : dom sA !! el = Some elnode).
  { simpl. apply list_lookup_middle. reflexivity. }
  assert (HcA : dom_closed (dom sA)).
  { apply dom_closed_snoc; auto. intros q Hq'. discriminate. }
  assert (HlenA : length (dom sA) = S el).
  { simpl. rewrite length_app. simpl. unfold el. lia. }
  pose proof (append_fresh_text_steps el "" sA elnode HelA eq_refl HcA) as Happ.
  rewrite HlenA in Happ.
  set (sC := with_text_appended el "" sA) in *.
  assert (HdC : dom sC = dom st ++
            [mkNode (KElement (str_mem tag SVG_TAGS) tag) "" [S el] None [] [];
             text_node el ""]).
  { unfold sC. rewrite with_text_appended_dom by (rewrite HlenA; lia).
    rewrite HlenA. simpl. unfold el. rewrite alter_last, <- app_assoc. reflexivity. }
  set (e := length (effects st)).
  set (b := ChildEffect el (S el) (VFun body)).
  set (s0 := set_current (Some e)
               (set_effects (alter bump e)
                  (set_effects (fun l => l ++ [mkEffect b 0]) sC))).
  assert (Hph : dom s0 !! S el = Some (text_node el "")).
  { change (dom s0) with (dom sC). rewrite HdC.
    rewrite lookup_app_r by (unfold el; lia).
    replace (S el - length (dom st))%nat with 1%nat by (unfold el; lia). reflexivity. }
  destruct (child_effect_displayed k el (S el) body (text_node el "") s0 Hph eq_refl
              Hq Hdisp Hd)
    as (s1 & s2 & HE & HQ & HC & Hdom & Hsig & Heff & Hcur & Hcnt).
  change (values s0) with (values st) in *.
  change (counters s0) with (counters st) in *.
  change (dom s0) with (dom sC) in Hdom.
  pose proof (setEffect_child k el (S el) (VFun body) sC _ HC) as HS.
  assert (Hsame : forall t, subs_of t (set_current None s2) = subs_of t s1).
  { intros t. unfold subs_of. simpl. rewrite Hsig. reflexivity. }
  exists (set_current None s2). split.
  { unfold html_at, html, try_catch, html_body.
    pose proof (valid_name_truthy tag Htag) as Ht.
    cbn [is_function]. rewrite Ht. cbn [negb orb to_string].
    rewrite (bind_ok _ _ _ _ _ (createElement_ok _ tag st Htag)).
    fold elnode. fold sA. fold el. rewrite Hprops.
    rewrite (bind_ok (ret tt) _ sA tt sA eq_refl).
    cbn [for_each].
    rewrite (bind_ok _ _ sA tt (set_current None s2)).
    - reflexivity.
    - rewrite (bind_ok _ _ sA tt (set_current None s2)); [reflexivity|].
      unfold bind_child, bind_item, try_catch. cbn [is_nullish].
      rewrite (bind_ok (Dom.createTextNode "") _ sA (S el)
                 (set_dom (fun d => d ++ [mkNode KText "" [] None [] []]) sA)).
      + rewrite (bind_ok _ _ _ _ _ Happ).
        rewrite (bind_ok _ _ _ _ _ HS). reflexivity.
      + unfold Dom.createTextNode, Dom.alloc_node. rewrite HlenA. reflexivity. }
  split.
  { simpl. rewrite Hdom, HdC. rewrite alter_app_r_alt by (unfold el; lia).
    replace (S el - length (dom st))%nat with 1%nat by (unfold el; lia). reflexivity. }
  split.
  { simpl. rewrite Heff, (qs_effects _ _ HQ). simpl.
    unfold e. rewrite alter_last. reflexivity. }
  split.
  { unfold values. simpl. rewrite Hsig. apply (qs_values _ _ HQ). }
  split.
  { simpl. rewrite Hcnt. apply (qs_counters _ _ HQ). }
  split; [reflexivity|].
  split.
  { intros t. rewrite Hsame. destruct (qs_subs _ _ HQ t) as [Hs|(c & Hcc & Hs)].
    - left. exact Hs.
    - right. rewrite Hs. simpl in Hcc. injection Hcc as <-. reflexivity. }
  intros t Ht Hlt. rewrite Hsame.
  apply (quiet_reads_subscribe body Hq k [] s0 s1 _ e Hd HE eq_refl t Ht Hlt).
Qed.



(** * Text that follows the signals *)


Lemma set_add_binding c l :
  l = [] \/ l = [0%nat] -> c = 0%nat -> set_add c l = [0%nat].
Proof.
  intros [->| ->] ->; unfold set_add.
  - rewrite decide_False by apply not_elem_of_nil. reflexivity.
  - destruct (decide (0%nat ∈ [0%nat])) as [_|Hno]; [reflexivity|].
    exfalso. apply Hno. left.
Qed.

(** A run of the only effect of a store, the effect of a text binding. *)
Lemma run_text_binding k el ph body n txt st :
  effects st = [mkEffect (ChildEffect el ph (VFun body)) n] ->
  dom st !! ph = Some (text_node el txt) ->
  text_callable body -> (depth body < k)%nat ->
  (forall t, subs_of t st = [] \/ subs_of t st = [0%nat]) ->
  exists st',
    runEffect (S k) 0 st = (Ok VUndef, st')
    /\ effects st' = [mkEffect (ChildEffect el ph (VFun body)) (S n)]
    /\ dom st' = alter (Dom.with_data
                          (displayed (denote (values st) (length (counters st)) body [])))
                   ph (dom st)
    /\ values st' = values st
    /\ length (counters st') = length (counters st)
    /\ currentEffect st' = None
    /\ (forall t, subs_of t st' = [] \/ subs_of t st' = [0%nat])
    /\ (forall t, subs_of t st = [0%nat] -> subs_of t st' = [0%nat])
    /\ (forall t, t ∈ reads (values st) (length (counters st)) body [] ->
                  (t < length (signals st))%nat -> subs_of t st' = [0%nat]).
Proof.
  intros He Hph Hcall Hd Hsubs.
  set (s0 := set_current (Some 0%nat) (set_effects (alter bump 0%nat) st)).
  destruct (child_effect_displayed k el ph body (text_node el txt) s0 Hph eq_refl
              (proj1 Hcall) (proj2 Hcall _ _) Hd)
    as (s1 & s2 & HE & HQ & HC & Hdom & Hsig & Heff & Hcur & Hcnt).
  change (values s0) with (values st) in *.
  change (counters s0) with (counters st) in *.
  change (dom s0) with (dom st) in *.
  assert (He0 : effects st !! 0%nat = Some (mkEffect (ChildEffect el ph (VFun body)) n))
    by (rewrite He; reflexivity).
  assert (Hsubs1 : forall t, subs_of t s1 = subs_of t st \/ subs_of t s1 = [0%nat]).
  { intros t. destruct (qs_subs _ _ HQ t) as [Hs|(c & Hc & Hs)].
    - left. exact Hs.
    - right. rewrite Hs. apply set_add_binding.
      + apply (Hsubs t).
      + simpl in Hc. congruence. }
  assert (Hsame : forall t, subs_of t (set_current None s2) = subs_of t s1).
  { intros t. unfold subs_of. simpl. rewrite Hsig. reflexivity. }
  exists (set_current None s2). split.
  { apply (run_child_effect k 0 n el ph (VFun body) st s2 He0 HC). }
  split.
  { simpl. rewrite Heff, (qs_effects _ _ HQ). simpl. rewrite He. reflexivity. }
  split; [exact Hdom|].
  split.
  { unfold values. simpl. rewrite Hsig. apply (qs_values _ _ HQ). }
  split.
  { simpl. rewrite Hcnt. apply (qs_counters _ _ HQ). }
  split; [reflexivity|].
  split.
  { intros t. rewrite Hsame. destruct (Hsubs1 t) as [Hs|Hs]; rewrite Hs; auto. }
  split.
  { intros t Ht. rewrite Hsame. destruct (Hsubs1 t) as [Hs|Hs]; rewrite Hs; auto. }
  intros t Ht Hlt. rewrite Hsame.
  pose proof (quiet_reads_subscribe body (proj1 Hcall) k [] s0 s1 _ 0%nat Hd HE eq_refl
                t Ht Hlt) as Hin.
  destruct (Hsubs1 t) as [Hs|Hs]; [|exact Hs].
  rewrite Hs in Hin. destruct (Hsubs t) as [H0|H0]; [|rewrite Hs; exact H0].
  rewrite H0 in Hin. exfalso. eapply not_elem_of_nil; eauto.
Qed.

(** The value a total updater, or a plain value, gives the write accessor;
    computing it outside an effect leaves tree and subscriptions alone. *)
Lemma updater_phase k next cur st :
  total_updater next ->
  (updater_depth next < k)%nat ->
  currentEffect st = None ->
  exists v st1,
    (if is_function next then call_fn (eval k) next [cur] else ret next) st = (Ok v, st1)
    /\ quiet_step st st1
    /\ dom st1 = dom st
    /\ forall t, subs_of t st1 = subs_of t st.
Proof.
  intros Htot Hd Hcur.
  destruct (is_function next) eqn:Hf.
  - destruct next; try discriminate; [contradiction|]. destruct Htot as [Hq Hok].
    simpl in Hd. destruct (quiet_eval body Hq k [cur] st Hd) as (st1 & HE & HQ).
    destruct (Hok (values st) (length (counters st)) cur) as [v Hv].
    rewrite Hv in HE. exists v, st1. simpl. split; [exact HE|]. split; [exact HQ|].
    split.
    + pose proof (quiet_eval_dom body Hq k [cur] st) as H. rewrite HE in H. exact H.
    + intros t. destruct (qs_subs _ _ HQ t) as [Hs|(c & Hc & _)]; [exact Hs|congruence].
  - exists next, st. split; [reflexivity|]. split; [apply quiet_step_refl|].
    split; reflexivity.
Qed.

Lemma text_bound_quiet el ph body st st1 :
  text_bound el ph body st ->
  quiet_step st st1 ->
  dom st1 = dom st ->
  (forall t, subs_of t st1 = subs_of t st) ->
  text_bound el ph body st1.
Proof.
  intros [(n & He) Htext Hkids Hne Hsubs Htracked Hcur] HQ Hdom Hsame.
  split.
  - exists n. rewrite (qs_effects _ _ HQ). exact He.
  - rewrite Hdom, (qs_values _ _ HQ), (qs_counters _ _ HQ). exact Htext.
  - unfold kids_of. rewrite Hdom. exact Hkids.
  - exact Hne.
  - intros t. rewrite Hsame. apply Hsubs.
  - intros t Ht Hlt. rewrite Hsame.
    rewrite (qs_values _ _ HQ), (qs_counters _ _ HQ) in Ht.
    rewrite (quiet_step_signals_length _ _ HQ) in Hlt. apply Htracked; auto.
  - rewrite (qs_current _ _ HQ). exact Hcur.
Qed.

(** The assignment of a signal and the run of its subscribers keep a text
    binding in step with the signals. *)
Lemma assign_text_bound k el ph body s v st :
  text_bound el ph body st ->
  text_callable body -> (depth body < k)%nat ->
  (s < length (signals st))%nat ->
  exists st',
    for_each (notify (runEffect (S k))) (subs_of s st) (assigned s v st) = (Ok tt, st')
    /\ text_bound el ph body st'
    /\ values st' = values (assigned s v st)
    /\ length (dom st') = length (dom st)
    /\ forall x, x <> ph -> dom st' !! x = dom st !! x.
Proof.
  intros [(n & He) Htext Hkids Hne Hsubs Htracked Hcur] Hcall Hd Hlt.
  destruct (Hsubs s) as [Hnone|Hone].
  - (* no subscriber: the callable does not read [s] *)
    assert (Hun : s ∉ reads (values st) (length (counters st)) body []).
    { intros Hin. specialize (Htracked s Hin Hlt). rewrite Hnone in Htracked.
      discriminate. }
    destruct (denote_unread body (values st) (length (counters st)) [] s (fun _ => v) Hun)
      as [HD HR].
    exists (assigned s v st). split; [rewrite Hnone; reflexivity|].
    split; [|split; [reflexivity|split; [reflexivity|intros x _; reflexivity]]].
    split.
    + exists n. exact He.
    + rewrite assigned_values. change (counters (assigned s v st)) with (counters st).
      rewrite HD. exact Htext.
    + exact Hkids.
    + exact Hne.
    + intros t. rewrite assigned_subs. apply Hsubs.
    + intros t Ht Hlt'. rewrite assigned_subs.
      rewrite assigned_values in Ht. change (counters (assigned s v st)) with (counters st) in Ht.
      rewrite HR in Ht. apply Htracked; auto.
      unfold assigned in Hlt'. simpl in Hlt'. rewrite length_alter in Hlt'. exact Hlt'.
    + exact Hcur.
  - (* the binding's effect is subscribed and runs *)
    destruct (run_text_binding k el ph body n _ (assigned s v st) He Htext Hcall Hd)
      as (st' & HR & He' & Hdom' & Hval' & Hcnt' & Hcur' & Hsubs' & _ & Htr').
    { intros t. rewrite assigned_subs. apply Hsubs. }
    exists st'. split.
    { rewrite Hone. cbn [for_each].
      unfold bind, notify, try_report, try_catch. unfold bind. rewrite HR. reflexivity. }
    split; [|split; [exact Hval'|split; [rewrite Hdom', length_alter; reflexivity|]]];
      [|intros x Hx; rewrite Hdom'; apply list_lookup_alter_ne; auto].
    split.
    + exists (S n). exact He'.
    + rewrite Hdom', Hval', Hcnt'. change (dom (assigned s v st)) with (dom st).
      change (counters (assigned s v st)) with (counters st).
      rewrite list_lookup_alter_eq, Htext. reflexivity.
    + unfold kids_of in *. rewrite Hdom'. change (dom (assigned s v st)) with (dom st).
      rewrite list_lookup_alter_ne by auto. exact Hkids.
    + exact Hne.
    + exact Hsubs'.
    + intros t Ht Hlt'. rewrite Hval', Hcnt' in Ht. apply Htr'; auto.
      rewrite <- values_length, <- Hval', values_length. exact Hlt'.
    + exact Hcur'.
Qed.

(** A write of a plain value, or through a total updater, keeps a text
    binding in step with the signals. *)
Lemma write_text_bound k el ph body s next st :
  text_bound el ph body st ->
  text_callable body -> (depth body < k)%nat ->
  (s < length (signals st))%nat ->
  total_updater next ->
  (updater_depth next <= k)%nat ->
  exists v st',
    write_at (S k) s next st = (Ok v, st')
    /\ text_bound el ph body st'
    /\ length (signals st') = length (signals st)
    /\ length (dom st') = length (dom st)
    /\ forall x, x <> ph -> dom st' !! x = dom st !! x.
Proof.
  intros HB Hcall Hd Hlt Htot Hud.
  destruct (lookup_lt_is_Some_2 _ _ Hlt) as [sg Hsg].
  destruct (updater_phase (S k) next (sig_value sg) st Htot ltac:(lia)
              (tb_current _ _ _ _ HB))
    as (v & st1 & Hnext & HQ & Hdom1 & Hsame1).
  pose proof (text_bound_quiet el ph body st st1 HB HQ Hdom1 Hsame1) as HB1.
  pose proof (quiet_step_signals_length _ _ HQ) as Hlen1.
  assert (Hlt1 : (s < length (signals st1))%nat) by (rewrite Hlen1; exact Hlt).
  destruct (lookup_lt_is_Some_2 _ _ Hlt1) as [sg1 Hsg1].
  destruct (assign_text_bound k el ph body s v st1 HB1 Hcall Hd Hlt1)
    as (st2 & Hfan & HB2 & Hval2 & Hdl2 & Hsame2).
  assert (Hs2 : values st2 !! s = Some v).
  { rewrite Hval2, assigned_values, list_lookup_alter_eq, values_lookup, Hsg1.
    reflexivity. }
  assert (Hg2 : exists g2, signals st2 !! s = Some g2 /\ sig_value g2 = v).
  { rewrite values_lookup in Hs2. destruct (signals st2 !! s) as [g2|]; [|discriminate].
    simpl in Hs2. injection Hs2 as Hs2. exists g2. auto. }
  destruct Hg2 as (g2 & Hg2 & Hgv).
  exists v, st2. split.
  { rewrite <- Hgv.
    apply (write_steps (S k) s next sg v st st1 sg1 st2 g2 Hsg Hnext Hsg1); auto.
    replace (sig_subs sg1) with (subs_of s st1)
      by (unfold subs_of; rewrite Hsg1; reflexivity).
    exact Hfan. }
  split; [exact HB2|]. split; [|split].
  - rewrite <- (values_length st2), Hval2, assigned_values, length_alter, values_length.
    exact Hlen1.
  - rewrite Hdl2, Hdom1. reflexivity.
  - intros x Hx. rewrite (Hsame2 x Hx), Hdom1. reflexivity.
Qed.

(** A sequence of such writes keeps a text binding in step. *)
Lemma writes_text_bound k el ph body ws : forall st,
  text_bound el ph body st ->
  text_callable body -> (depth body < k)%nat ->
  Forall (fun w => (fst w < length (signals st))%nat
                   /\ total_updater (snd w) /\ (updater_depth (snd w) <= k)%nat) ws ->
  exists st',
    write_all (S k) ws st = (Ok tt, st')
    /\ text_bound el ph body st'
    /\ length (dom st') = length (dom st)
    /\ forall x, x <> ph -> dom st' !! x = dom st !! x.
Proof.
  induction ws as [|[s next] ws IH]; intros st HB Hcall Hd Hall.
  - exists st. split; [reflexivity|auto].
  - apply Forall_cons in Hall as [(Hlt & Htot & Hud) Hall]. simpl in *.
    destruct (write_text_bound k el ph body s next st HB Hcall Hd Hlt Htot Hud)
      as (v & st1 & HW & HB1 & Hlen & Hdl & Hsame1).
    destruct (IH st1 HB1 Hcall Hd) as (st' & HL & HB' & Hdl' & Hsame').
    { eapply Forall_impl; [exact Hall|]. intros w (? & ? & ?). rewrite Hlen. auto. }
    exists st'. split; [|split; [exact HB'|split; [congruence|]]];
      [|intros x Hx; rewrite (Hsame' x Hx); apply Hsame1; exact Hx].
    unfold write_all. simpl. unfold bind at 1. unfold bind at 1. rewrite HW.
    unfold ret at 1. exact HL.
Qed.

(** In a store without effects, the element built around a text callable
    is bound to it. *)
Lemma build_text_bound k tag body st :
  Dom.valid_name tag = true ->
  text_callable body ->
  (depth body < k)%nat ->
  effects st = [] ->
  (forall t, subs_of t st = []) ->
  dom_closed (dom st) ->
  exists st1,
    html_at (S k) (VStr tag) VNull [VFun body] st = (Ok (VNode (length (dom st))), st1)
    /\ text_bound (length (dom st)) (S (length (dom st))) body st1
    /\ dom st1 = dom st ++
         [mkNode (KElement (str_mem tag SVG_TAGS) tag) "" [S (length (dom st))] None [] [];
          text_node (length (dom st))
            (displayed (denote (values st) (length (counters st)) body []))]
    /\ length (signals st1) = length (signals st).
Proof.
  intros Htag [Hq Hdisp] Hd Heff Hsubs Hc.
  destruct (build_text_binding k tag VNull body st Htag eq_refl Hq (Hdisp _ _) Hd Hc)
    as (st1 & HH & Hdom1 & Heff1 & Hval1 & Hcnt1 & Hcur1 & Hsubs1 & Htr1).
  rewrite Heff in *. simpl in Heff1, Hsubs1, Htr1.
  assert (Hkinds : forall t, subs_of t st1 = [] \/ subs_of t st1 = [0%nat]).
  { intros t. destruct (Hsubs1 t) as [Hs|Hs]; rewrite Hs, Hsubs; auto. }
  assert (Hlen1 : length (signals st1) = length (signals st)).
  { rewrite <- !values_length, Hval1. reflexivity. }
  exists st1. split; [exact HH|]. split; [|split; [exact Hdom1|exact Hlen1]].
  split.
  - exists 1%nat. exact Heff1.
  - rewrite Hdom1, Hval1, Hcnt1. rewrite lookup_app_r by lia.
    replace (S (length (dom st)) - length (dom st))%nat with 1%nat by lia. reflexivity.
  - unfold kids_of. rewrite Hdom1. rewrite list_lookup_middle by reflexivity.
    reflexivity.
  - lia.
  - exact Hkinds.
  - intros t Ht Hlt. rewrite Hval1, Hcnt1 in Ht. rewrite Hlen1 in Hlt.
    specialize (Htr1 t Ht Hlt). destruct (Hkinds t) as [Hs|Hs]; [|exact Hs].
    rewrite Hs in Htr1. exfalso. eapply not_elem_of_nil; eauto.
  - exact Hcur1.
Qed.


Lemma count_label_callable : text_callable count_label.
Proof.
  split; [reflexivity|]. intros vals nc. unfold count_label. simpl.
  destruct (vals !! 0%nat) as [a|]; simpl.
  - split; reflexivity.
  - eexists. reflexivity.
Qed.


(** A run of that program: after the three writes the button's text
    node holds ["n = 8"]. *)
Example counter_button_text :
  data_of 1
    (snd ((element <- html_at 3 (VStr "button") VNull [VFun count_label] ;;
           write_all 3 [(0%nat, increment); (0%nat, VNum 7); (0%nat, increment)] ;;;
           ret element) one_signal))
  = "n = 8".
Proof. reflexivity. Qed.

(** * Mounting an element and keeping it in step *)

(** Lines 316-349 on a component that yields a detached node. *)
Lemma render_view_node fuel component r n rn nn st0 st1 :
  view_of fuel component st0 = (Ok (VNode n), st1) ->
  dom st1 !! r = Some rn -> Dom.can_have_kids rn = true ->
  dom st1 !! n = Some nn -> nparent nn = None -> nkind nn <> KFragment ->
  Dom.inclusive_ancestor (length (dom st1)) (dom st1) n r = false ->
  render_view fuel component (VNode r) st0
  = (Ok (VNode n),
     set_dom (fun d => alter (Dom.with_kids (fun k => k ++ [n])) r
                         (alter (Dom.with_parent (Some r)) n d)) st1).
Proof.
  intros Hview Hr Hk Hn Hpar Hkind Hanc.
  unfold render_view.
  match goal with |- bind ?m _ _ = _ =>
    assert (Hv : m st0 = (Ok (inl (VNode n)), st1))
      by (unfold try_catch; rewrite (bind_ok _ _ _ _ _ Hview); reflexivity)
  end.
  rewrite (bind_ok _ _ _ _ _ Hv). cbn [truthy negb node_of].
  rewrite (bind_ok (ret n) _ st1 n st1 eq_refl). unfold root_append.
  rewrite (bind_ok _ _ _ _ _ (append_detached r n st1 rn nn Hr Hk Hn Hpar Hkind Hanc)).
  reflexivity.
Qed.

(** X19.  When the component yields a node that has no parent (and is not
    a fragment), [render] appends it to the root after the root's present
    children and returns it; nothing else in the tree changes. *)
Theorem render_mounts_node
    (querySelector : list node -> string -> outcome (option nat))
    (fuel : nat) (component options : val) (r n : nat) (rn nn : node)
    (st st0 st1 : state) :
  render_prepare fuel (VNode r) options st = (Ok tt, st0) ->
  view_of fuel component st0 = (Ok (VNode n), st1) ->
  dom st1 !! r = Some rn ->
  Dom.can_have_kids rn = true ->
  dom st1 !! n = Some nn ->
  nparent nn = None ->
  nkind nn <> KFragment ->
  Dom.inclusive_ancestor (length (dom st1)) (dom st1) n r = false ->
  exists st',
    render querySelector fuel component (VNode r) options st = (Ok (VNode n), st')
    /\ kids_of r st' = nkids rn ++ [n]
    /\ dom st' !! n = Some (Dom.with_parent (Some r) nn)
    /\ (forall x, x <> r -> x <> n -> dom st' !! x = dom st1 !! x)
    /\ signals st' = signals st1 /\ effects st' = effects st1
    /\ console st' = console st1.
Proof.
  intros Hprep Hview Hr Hk Hn Hpar Hkind Hanc.
  assert (Hnr : n <> r).
  { intros ->. destruct (length (dom st1)); simpl in Hanc;
      rewrite Nat.eqb_refl in Hanc; discriminate. }
  eexists. split.
  { unfold render, try_catch. rewrite (bind_ok _ _ st (Some (VNode r)) st eq_refl).
    rewrite (bind_ok _ _ _ _ _ Hprep).
    rewrite (render_view_node fuel component r n rn nn st0 st1 Hview Hr Hk Hn Hpar
               Hkind Hanc).
    reflexivity. }
  split.
  { unfold kids_of. simpl. rewrite list_lookup_alter_eq, list_lookup_alter_ne, Hr by auto.
    reflexivity. }
  split.
  { simpl. rewrite list_lookup_alter_ne, list_lookup_alter_eq, Hn by auto. reflexivity. }
  split.
  { intros x Hxr Hxn. simpl. rewrite !list_lookup_alter_ne by auto. reflexivity. }
  split; [reflexivity|]. split; reflexivity.
Qed.

Lemma render_mounts_node_witness :
  let st0 := snd (render_prepare 5 (VNode 0) VUndef page) in
  let st1 := snd (view_of 5 (VFun (EHtml (EConst (VStr "p")) [] [EConst (VStr "hi")])) st0) in
  exists st',
    render page_query 5 (VFun (EHtml (EConst (VStr "p")) [] [EConst (VStr "hi")]))
      (VNode 0) VUndef page = (Ok (VNode 2), st')
    /\ kids_of 0 st' = [] ++ [2%nat]
    /\ dom st' !! 2%nat
       = Some (Dom.with_parent (Some 0%nat)
                 (mkNode (KElement false "p") "" [3%nat] None [] []))
    /\ (forall x, x <> 0%nat -> x <> 2%nat -> dom st' !! x = dom st1 !! x)
    /\ signals st' = signals st1 /\ effects st' = effects st1
    /\ console st' = console st1.
Proof.
  intros st0 st1.
  apply (render_mounts_node page_query 5
           (VFun (EHtml (EConst (VStr "p")) [] [EConst (VStr "hi")])) VUndef 0 2
           (mkNode (KElement false "div") "" [] None [("id", "app")] [])
           (mkNode (KElement false "p") "" [3%nat] None [] [])
           page st0 st1).
  - reflexivity.
  - reflexivity.
  - reflexivity.
  - reflexivity.
  - reflexivity.
  - reflexivity.
  - discriminate.
  - reflexivity.
Defined.

(** A text binding does not depend on the rest of the tree. *)
Lemma text_bound_frame el ph body st st' :
  text_bound el ph body st ->
  signals st' = signals st -> effects st' = effects st ->
  counters st' = counters st -> currentEffect st' = currentEffect st ->
  dom st' !! ph = dom st !! ph ->
  kids_of el st' = kids_of el st ->
  text_bound el ph body st'.
Proof.
  intros [(n & He) Htext Hkids Hne Hsubs Htracked Hcur] Hs Hef Hcn Hcu Hph Hk.
  assert (Hv : values st' = values st) by (unfold values; rewrite Hs; reflexivity).
  assert (Hsub : forall t, subs_of t st' = subs_of t st)
    by (intros t; unfold subs_of; rewrite Hs; reflexivity).
  split.
  - exists n. rewrite Hef. exact He.
  - rewrite Hph, Hv, Hcn. exact Htext.
  - rewrite Hk. exact Hkids.
  - exact Hne.
  - intros t. rewrite Hsub. apply Hsubs.
  - intros t Ht Hlt. rewrite Hsub. rewrite Hv, Hcn in Ht. rewrite Hs in Hlt.
    apply Htracked; auto.
  - rewrite Hcu. exact Hcur.
Qed.

Lemma eval_html_literal k tag child st :
  eval (S (S k)) (EHtml (EConst (VStr tag)) [] [EConst child]) [] st
  = html_at (S k) (VStr tag) VNull [child] st.
Proof. reflexivity. Qed.



(** A run of that program: the page's root holds the button alone,
    and the button's text is ["n = 3"]. *)
Example mounted_counter_text :
  let final :=
    snd ((mounted <- render page_query 4
                       (VFun (EHtml (EConst (VStr "button")) []
                                [EConst (VFun count_label)]))
                       (VNode 0) VUndef ;;
          write_all 3 [(0%nat, increment); (0%nat, increment); (0%nat, increment)] ;;;
          ret mounted)
         (set_signals (fun _ => [mkSignal (VNum 0) []]) page)) in
  kids_of 0 final = [2%nat] /\ kids_of 2 final = [3%nat] /\ data_of 3 final = "n = 3".
Proof. vm_compute. repeat split; reflexivity. Qed.

(** * Attributes of SVG elements *)

Lemma split_colon_plain name : has_colon name = false -> split_colon name = [name].
Proof.
  unfold has_colon.
  induction name as [|c rest IH]; cbn [list_ascii_of_string existsb split_colon];
    [reflexivity|].
  intros H. apply orb_false_elim in H as [Hc Hrest].
  rewrite Ascii.eqb_sym in Hc. rewrite Hc, (IH Hrest). reflexivity.
Qed.

Lemma append_single_attribute svg tag key text st :
  Dom.update_node (length (dom st)) (Dom.with_attrs (set_assoc key text))
    (set_dom (fun d => d ++ [mkNode (KElement svg tag) "" [] None [] []]) st)
  = (Ok tt,
     set_dom (fun d => d ++ [mkNode (KElement svg tag) "" [] None [(key, text)] []]) st).
Proof.
  unfold Dom.update_node, modify. f_equal.
  rewrite set_dom_set_dom. destruct st; unfold set_dom; simpl. f_equal.
  rewrite alter_last. reflexivity.
Qed.

(** X21.  On an SVG element a plain property is always set as an
    attribute holding [String(value)], booleans included: [false] gives the
    attribute ["false"] and removes nothing.  A name with the prefix
    [xlink:] or [xml:] is set in that namespace under the rest of the
    name. *)
Theorem html_svg_attribute
    (fuel : nat) (tag name : string) (v : val) (st : state) :
  Dom.valid_name tag = true ->
  str_mem tag SVG_TAGS = true ->
  Dom.valid_name name = true ->
  plain_attribute_name name = true ->
  has_colon name = false ->
  is_primitive v = true ->
  is_nullish v = false ->
  v <> VFragment ->
  html_at fuel (VStr tag) (VObj [(name, v)]) [] st
  = (Ok (VNode (length (dom st))),
     set_dom (fun d =>
       d ++ [mkNode (KElement true tag) "" [] None [(name, to_string v)] []]) st)
  /\ html_at fuel (VStr tag) (VObj [("xlink:" +:+ name, v)]) [] st
     = (Ok (VNode (length (dom st))),
        set_dom (fun d =>
          d ++ [mkNode (KElement true tag) "" [] None
                  [("http://www.w3.org/1999/xlink " +:+ name, to_string v)] []]) st)
  /\ html_at fuel (VStr tag) (VObj [("xml:" +:+ name, v)]) [] st
     = (Ok (VNode (length (dom st))),
        set_dom (fun d =>
          d ++ [mkNode (KElement true tag) "" [] None
                  [("http://www.w3.org/XML/1998/namespace " +:+ name, to_string v)] []])
          st).
Proof.
  intros Htag Hsvg Hname Hplain Hcolon Hprim Hnull Hsym.
  destruct (plain_name_tests name Hplain) as (N1 & N2 & N3 & N4 & N5 & N6 & N7).
  pose proof (split_colon_plain name Hcolon) as Hsplit.
  assert (Hobj : is_object v = false) by (destruct v; try discriminate; reflexivity).
  assert (Hfield : truthy (field "__html" v) = false)
    by (destruct v; try discriminate; reflexivity).
  split; [|split]; (apply html_single_property; [exact Htag|]); rewrite Hsvg;
    unfold apply_property; rewrite Hnull.
  - rewrite N1, N2, N3, N4, N5, N6, N7, Hsplit. cbn [orb andb].
    unfold Element.setAttribute. rewrite Hname. apply append_single_attribute.
  - change ("xlink:" +:+ name)
      with (String "x" (String "l" (String "i" (String "n" (String "k" (String ":" name)))))).
    cbn [String.eqb Ascii.eqb Bool.eqb orb andb split_colon].
    replace (String.prefix "on" (String "x" (String "l" (String "i" (String "n"
               (String "k" (String ":" name))))))) with false by reflexivity.
    rewrite Hsplit. cbn [String.eqb Ascii.eqb Bool.eqb].
    unfold Element.setAttributeNS. rewrite Hname. apply append_single_attribute.
  - change ("xml:" +:+ name) with (String "x" (String "m" (String "l" (String ":" name)))).
    cbn [String.eqb Ascii.eqb Bool.eqb orb andb split_colon].
    replace (String.prefix "on" (String "x" (String "m" (String "l" (String ":" name)))))
      with false by reflexivity.
    rewrite Hsplit. cbn [String.eqb Ascii.eqb Bool.eqb].
    unfold Element.setAttributeNS. rewrite Hname. apply append_single_attribute.
Qed.

Lemma html_svg_attribute_witness :
  html_at 1 (VStr "use") (VObj [("href", VStr "#a")]) [] empty_state
  = (Ok (VNode (length (dom empty_state))),
     set_dom (fun d =>
       d ++ [mkNode (KElement true "use") "" [] None
               [("href", to_string (VStr "#a"))] []]) empty_state)
  /\ html_at 1 (VStr "use") (VObj [("xlink:" +:+ "href", VStr "#a")]) [] empty_state
     = (Ok (VNode (length (dom empty_state))),
        set_dom (fun d =>
          d ++ [mkNode (KElement true "use") "" [] None
                  [("http://www.w3.org/1999/xlink " +:+ "href", to_string (VStr "#a"))]
                  []]) empty_state)
  /\ html_at 1 (VStr "use") (VObj [("xml:" +:+ "href", VStr "#a")]) [] empty_state
     = (Ok (VNode (length (dom empty_state))),
        set_dom (fun d =>
          d ++ [mkNode (KElement true "use") "" [] None
                  [("http://www.w3.org/XML/1998/namespace " +:+ "href",
                    to_string (VStr "#a"))] []])
          empty_state).
Proof.
  apply (html_svg_attribute 1 "use" "href" (VStr "#a") empty_state); try reflexivity.
  discriminate.
Defined.

(** The same boolean property on an HTML and on an SVG element. *)
Example boolean_attribute_html_and_svg :
  nattrs <$> dom (snd (html_at 1 (VStr "a") (VObj [("hidden", VBool false)]) []
                         empty_state)) !! 0%nat = Some []
  /\ nattrs <$> dom (snd (html_at 1 (VStr "g") (VObj [("hidden", VBool false)]) []
                            empty_state)) !! 0%nat = Some [("hidden", "false")].
Proof. split; reflexivity. Qed.

(** * A memo whose compute function returns a function *)

(** X22.  The memo's effect hands the result of the compute function to
    the memo's write accessor, so a result that is a function is taken for
    an updater: the memo then holds what that function returns on the
    memo's previous value (undefined at creation), not the function. *)
Theorem memo_calls_function_result
    (k : nat) (fn g : expr) (v : val) (st : state) :
  quiet fn = true ->
  quiet g = true ->
  (depth fn < k)%nat ->
  (depth g < k)%nat ->
  mentions_read (length (signals st)) fn = false ->
  mentions_read (length (signals st)) g = false ->
  fst (eval k fn [] (memo_allocated fn st)) = Ok (VFun g) ->
  fst (eval k g [VUndef] (memo_allocated fn st)) = Ok v ->
  exists getMemoValue st',
    setMemo_at (S k) (VFun fn) st = (Ok getMemoValue, st')
    /\ value_of (length (signals st)) st' = Some v
    /\ fst (call_fn (eval (S k)) getMemoValue [] st') = Ok v.
Proof.
  intros Hqf Hqg Hdf Hdg Hmf Hmg Hfn Hg.
  rewrite eval_quiet_fst in Hfn, Hg by auto.
  set (m := length (signals st)) in *. set (em := length (effects st)).
  set (sa := memo_allocated fn st) in *.
  assert (He : effects sa !! em = Some (mkEffect (MemoEffect m (VFun fn)) 0)).
  { unfold sa, memo_allocated. simpl. apply list_lookup_middle. reflexivity. }
  pose proof (notify_memo_unfold "Error initializing effect:" k em m fn 0 sa He) as HU.
  cbv zeta in HU.
  set (s0 := set_current (Some em) (set_effects (alter bump em) sa)) in *.
  destruct (quiet_eval fn Hqf k [] s0 Hdf) as (s1 & HE1 & HQ1).
  change (values s0) with (values sa) in HE1. change (counters s0) with (counters sa) in HE1.
  rewrite Hfn in HE1.
  destruct (quiet_eval g Hqg k [VUndef] s1 Hdg) as (s2 & HE2 & HQ2).
  rewrite (qs_values _ _ HQ1), (qs_counters _ _ HQ1) in HE2.
  change (values s0) with (values sa) in HE2. change (counters s0) with (counters sa) in HE2.
  rewrite Hg in HE2.
  assert (Hvals : values sa = values st ++ [VUndef]).
  { unfold values, sa, memo_allocated. simpl. rewrite map_app. reflexivity. }
  assert (Hm0 : subs_of m s0 = []).
  { unfold subs_of, s0, sa, memo_allocated. simpl.
    rewrite list_lookup_middle by reflexivity. reflexivity. }
  assert (Hm1 : subs_of m s1 = []).
  { pose proof (quiet_unread_subs fn Hqf k [] s0 m Hdf
                  (unmentioned_unread m fn _ _ [] Hmf)) as H.
    rewrite HE1 in H. simpl in H. rewrite H. exact Hm0. }
  assert (Hm2 : subs_of m s2 = []).
  { pose proof (quiet_unread_subs g Hqg k [VUndef] s1 m Hdg
                  (unmentioned_unread m g _ _ [VUndef] Hmg)) as H.
    rewrite HE2 in H. simpl in H. rewrite H. exact Hm1. }
  assert (Hlook : forall s', values s' = values sa ->
            exists sg, signals s' !! m = Some sg /\ sig_value sg = VUndef).
  { intros s' Hv. assert (H : values s' !! m = Some VUndef).
    { rewrite Hv, Hvals. apply list_lookup_middle. unfold m.
      rewrite values_length. reflexivity. }
    rewrite values_lookup in H. destruct (signals s' !! m) as [sg|]; [|discriminate].
    simpl in H. injection H as H. exists sg. auto. }
  destruct (Hlook s1 (qs_values _ _ HQ1)) as (sg & Hsg & Hsgv).
  destruct (Hlook s2) as (sg2 & Hsg2 & _).
  { rewrite (qs_values _ _ HQ2). apply (qs_values _ _ HQ1). }
  assert (Hsubs2 : sig_subs sg2 = []).
  { unfold subs_of in Hm2. rewrite Hsg2 in Hm2. exact Hm2. }
  assert (HW : write (eval k) (runEffect k) m (VFun g) s1 = (Ok v, assigned m v s2)).
  { change v with (sig_value (mkSignal v (sig_subs sg2))).
    apply (write_steps k m (VFun g) sg v s1 s2 sg2 (assigned m v s2)
             (mkSignal v (sig_subs sg2)) Hsg).
    - cbn [is_function call_fn]. rewrite Hsgv. exact HE2.
    - exact Hsg2.
    - rewrite Hsubs2. reflexivity.
    - apply (assigned_lookup _ _ _ _ Hsg2). }
  rewrite HE1, HW in HU.
  eexists. eexists. split.
  { subst m em sa.
    unfold setMemo_at, setMemo, try_catch, bind at 1. unfold setSignal at 1.
    unfold setEffect, bind. cbn -[runEffect try_report].
    fold (memo_allocated fn st).
    change (length (effects (set_signals (fun l => l ++ [mkSignal VUndef []]) st)))
      with (length (effects st)).
    unfold bind in HU. rewrite HU. reflexivity. }
  assert (Hfinal : signals (set_current None (assigned m v s2)) !! m
                   = Some (mkSignal v (sig_subs sg2))).
  { simpl. apply (assigned_lookup _ _ _ _ Hsg2). }
  subst m. split.
  { unfold value_of. rewrite Hfinal. reflexivity. }
  cbn [call_fn eval]. apply (read_value _ _ _ Hfinal).
Qed.

Lemma memo_calls_function_result_witness :
  exists getMemoValue st',
    setMemo_at 3 (VFun (EConst (VFun (EConst (VStr "ready"))))) one_signal
      = (Ok getMemoValue, st')
    /\ value_of (length (signals one_signal)) st' = Some (VStr "ready")
    /\ fst (call_fn (eval 3) getMemoValue [] st') = Ok (VStr "ready").
Proof.
  apply (memo_calls_function_result 2 (EConst (VFun (EConst (VStr "ready"))))
           (EConst (VStr "ready")) (VStr "ready") one_signal).
  - reflexivity.
  - reflexivity.
  - simpl. lia.
  - simpl. lia.
  - reflexivity.
  - reflexivity.
  - reflexivity.
  - reflexivity.
Defined.

(** * Element children of a new element *)

Lemma parentless_not_descendant fuel d c el eln :
  d !! el = Some eln -> nparent eln = None -> c <> el ->
  Dom.inclusive_ancestor fuel d c el = false.
Proof.
  intros Hel Hpar Hne.
  destruct fuel; simpl; rewrite (proj2 (Nat.eqb_neq c el) Hne); [reflexivity|].
  rewrite Hel, Hpar. reflexivity.
Qed.

Section NodeChildren.

Variable run : nat -> M val.

(** The child binder of [html] over nodes that have no parent. *)
Lemma bind_node_children el : forall cs st eln,
  dom st !! el = Some eln ->
  Dom.can_have_kids eln = true ->
  nparent eln = None ->
  NoDup cs ->
  el ∉ cs ->
  (forall c, c ∈ cs ->
     exists cn, dom st !! c = Some cn /\ nparent cn = None /\ nkind cn <> KFragment) ->
  exists st',
    for_each (bind_child run el) (map VNode cs) st = (Ok tt, st')
    /\ dom st' !! el = Some (Dom.with_kids (fun k => k ++ cs) eln)
    /\ (forall c cn, c ∈ cs -> dom st !! c = Some cn ->
          dom st' !! c = Some (Dom.with_parent (Some el) cn))
    /\ (forall x, x ∉ cs -> x <> el -> dom st' !! x = dom st !! x)
    /\ length (dom st') = length (dom st)
    /\ signals st' = signals st /\ effects st' = effects st
    /\ currentEffect st' = currentEffect st /\ console st' = console st.
Proof.
  induction cs as [|c cs IH]; intros st eln Hel Hk Hpar Hnd Hnot Hall.
  - exists st. split; [reflexivity|]. split.
    { rewrite Hel. f_equal. destruct eln. unfold Dom.with_kids. simpl.
      rewrite app_nil_r. reflexivity. }
    split; [intros c cn Hc; exfalso; eapply not_elem_of_nil; eauto|].
    repeat split; reflexivity.
  - apply NoDup_cons in Hnd as [Hc_cs Hnd].
    assert (Hce : c <> el) by (intros ->; apply Hnot; left).
    destruct (Hall c) as (cn & Hc & Hcpar & Hckind); [left|].
    pose proof (append_detached el c st eln cn Hel Hk Hc Hcpar Hckind
                  (parentless_not_descendant _ _ c el eln Hel Hpar Hce)) as Happ.
    set (st1 := set_dom (fun d => alter (Dom.with_kids (fun k => k ++ [c])) el
                                    (alter (Dom.with_parent (Some el)) c d)) st) in *.
    assert (Hel1 : dom st1 !! el = Some (Dom.with_kids (fun k => k ++ [c]) eln)).
    { simpl. rewrite list_lookup_alter_eq, list_lookup_alter_ne, Hel by auto.
      reflexivity. }
    destruct (IH st1 _ Hel1 Hk Hpar Hnd) as
      (st' & HL & Hel' & Hcs' & Hrest' & Hlen' & Hs' & He' & Hcu' & Hco').
    { intros Hin. apply Hnot. right. exact Hin. }
    { intros c' Hc'. destruct (Hall c') as (cn' & Hcn' & Hp' & Hk'); [right; exact Hc'|].
      exists cn'. split; [|auto]. simpl.
      rewrite !list_lookup_alter_ne; auto.
      - intros ->. contradiction.
      - intros ->. apply Hnot. right. exact Hc'. }
    exists st'. split.
    { simpl. unfold bind. unfold bind_item at 1. unfold try_catch. cbn [is_nullish].
      rewrite Happ. exact HL. }
    split.
    { rewrite Hel'. f_equal. unfold Dom.with_kids. simpl. rewrite <- app_assoc.
      reflexivity. }
    split.
    { intros x xn Hx Hxn. apply elem_of_cons in Hx as [->|Hx].
      - rewrite Hrest' by auto. simpl.
        rewrite list_lookup_alter_ne, list_lookup_alter_eq, Hxn by auto. reflexivity.
      - rewrite (Hcs' x xn Hx); [reflexivity|]. simpl.
        rewrite !list_lookup_alter_ne; auto.
        + intros ->. contradiction.
        + intros ->. apply Hnot. right. exact Hx. }
    split.
    { intros x Hx Hxe. rewrite Hrest'; auto.
      - simpl. rewrite !list_lookup_alter_ne; auto.
        intros ->. apply Hx. left.
      - intros Hin. apply Hx. right. exact Hin. }
    split; [rewrite Hlen'; simpl; rewrite !length_alter; reflexivity|].
    rewrite Hs', He', Hcu', Hco'. repeat split; reflexivity.
Qed.

End NodeChildren.

(** X23.  [html(tag, null, ...children)] over distinct nodes that have no
    parent (and are not fragments) returns a new element whose children are
    those nodes in the order given; each of them has the element as its
    parent, and every other node of the tree is as it was. *)
Theorem html_element_with_node_children
    (fuel : nat) (tag : string) (props : val) (cs : list nat) (st : state) :
  Dom.valid_name tag = true ->
  truthy props = false ->
  NoDup cs ->
  (forall c, c ∈ cs ->
     exists cn, dom st !! c = Some cn /\ nparent cn = None /\ nkind cn <> KFragment) ->
  exists st',
    html_at fuel (VStr tag) props (map VNode cs) st = (Ok (VNode (length (dom st))), st')
    /\ dom st' !! length (dom st)
       = Some (mkNode (KElement (str_mem tag SVG_TAGS) tag) "" cs None [] [])
    /\ (forall c cn, c ∈ cs -> dom st !! c = Some cn ->
          dom st' !! c = Some (Dom.with_parent (Some (length (dom st))) cn))
    /\ (forall x, x ∉ cs -> (x < length (dom st))%nat -> dom st' !! x = dom st !! x)
    /\ length (dom st') = S (length (dom st)).
Proof.
  intros Htag Hprops Hnd Hall.
  set (el := length (dom st)).
  set (elnode := mkNode (KElement (str_mem tag SVG_TAGS) tag) "" [] None [] []).
  set (st0 := set_dom (fun d => d ++ [elnode]) st).
  assert (Hbound : forall c, c ∈ cs -> (c < el)%nat).
  { intros c Hc. destruct (Hall c Hc) as (cn & Hcn & _). eapply lookup_lt_Some; eauto. }
  destruct (bind_node_children (runEffect fuel) el cs st0 elnode) as
    (st' & HL & Hel' & Hcs' & Hrest' & Hlen' & _); auto.
  { simpl. apply list_lookup_middle. reflexivity. }
  { intros Hin. specialize (Hbound el Hin). lia. }
  { intros c Hc. destruct (Hall c Hc) as (cn & Hcn & Hp & Hk).
    exists cn. split; [|auto]. simpl. rewrite lookup_app_l by (apply Hbound; exact Hc).
    exact Hcn. }
  exists st'. split.
  { unfold html_at, html, try_catch, html_body.
    pose proof (valid_name_truthy tag Htag) as Ht.
    cbn [is_function]. rewrite Ht. cbn [negb orb to_string].
    rewrite (bind_ok _ _ _ _ _ (createElement_ok _ tag st Htag)).
    fold elnode. fold st0. fold el. rewrite Hprops.
    rewrite (bind_ok (ret tt) _ st0 tt st0 eq_refl).
    rewrite (bind_ok _ _ _ _ _ HL). reflexivity. }
  split; [exact Hel'|].
  split.
  { intros c cn Hc Hcn. apply (Hcs' c cn Hc). simpl.
    rewrite lookup_app_l by (apply Hbound; exact Hc). exact Hcn. }
  split.
  { intros x Hx Hlt. rewrite Hrest' by (auto; unfold el; lia). simpl.
    apply lookup_app_l. exact Hlt. }
  rewrite Hlen'. simpl. rewrite length_app. simpl. lia.
Qed.

Lemma two_elements_detached c :
  c ∈ [0; 1]%nat ->
  exists cn, dom two_elements !! c = Some cn /\ nparent cn = None /\ nkind cn <> KFragment.
Proof.
  intros Hc. apply elem_of_cons in Hc as [->|Hc];
    [|apply list_elem_of_singleton in Hc as ->];
    (eexists; split; [reflexivity|split; [reflexivity|discriminate]]).
Qed.

Lemma nodup_01 : NoDup [0; 1]%nat.
Proof. refine (bool_decide_unpack (NoDup [0; 1]%nat) _). vm_compute. exact I. Qed.

Lemma html_element_with_node_children_witness :
  exists st',
    html_at 1 (VStr "p") VNull (map VNode [0; 1]%nat) two_elements
      = (Ok (VNode (length (dom two_elements))), st')
    /\ dom st' !! length (dom two_elements)
       = Some (mkNode (KElement (str_mem "p" SVG_TAGS) "p") "" [0; 1]%nat None [] [])
    /\ (forall c cn, c ∈ [0; 1]%nat -> dom two_elements !! c = Some cn ->
          dom st' !! c = Some (Dom.with_parent (Some (length (dom two_elements))) cn))
    /\ (forall x, x ∉ [0; 1]%nat -> (x < length (dom two_elements))%nat ->
          dom st' !! x = dom two_elements !! x)
    /\ length (dom st') = S (length (dom two_elements)).
Proof.
  apply (html_element_with_node_children 1 "p" VNull [0; 1]%nat two_elements).
  - reflexivity.
  - reflexivity.
  - exact nodup_01.
  - exact two_elements_detached.
Defined.
